(** * to-do-app: the task repository, the filter/sort engine and the statistics

    A shallow embedding of

      - [src/types/task.ts], [src/types/project.ts], [src/types/filter.ts]
        (the data model),
      - [src/services/projectStorage.ts] and [src/services/taskStorage.ts]
        (the repository),
      - [src/hooks/useTasks.ts] and [src/hooks/useProjects.ts]
        (filtering, sorting, statistics, project deletion),

    and the properties of the specification that concern them.

    Modelling conventions.
      - A [Date] is its [getTime()] value, an integer number of
        milliseconds ([Z]).  Only valid dates are stored: the JSON round
        trip of [getTasks]/[saveTasks] turns an invalid one into [undefined].
      - An optional property [x?: T] is an [option T]; JavaScript truthiness
        is written out ([truthy_string]: the empty string is falsy).
      - [window.localStorage] is a reliable store: [LocalStorageService.set]
        succeeds and returns [true], and [get] returns what was stored
        (the default value when nothing was).  The two keys used by the
        services hold the task list and the project list.
      - [new Date()], [Date.now()] and [Math.random()] are read from an
        [Environment] oracle; the world counts the reads, so consecutive
        reads may give different values.
      - Dates are computed as ECMAScript defines them: civil dates from
        day numbers ([YearFromDay], [MonthFromDay], [DateFromDay],
        [MakeDay], [WeekDay]), and local time from a [Calendar], the time
        zone, of which UTC is an instance.  [new Date(y, m, d)] reads a
        year from 0 to 99 as 1900 + y, and [setDate] keeps the time the
        wall clock shows.  Date arithmetic stays within the range of
        valid dates.
      - Strings are byte strings; [toLowerCase] and [trim] are those of
        JavaScript on ASCII text ([isASCII]), and what is proved of them
        is stated for ASCII text. *)

From Stdlib Require Import ZArith List String Ascii Bool Lia.
From Stdlib Require Import Sorting.Sorted Sorting.Permutation.
From Stdlib Require Import DecimalString DecimalNat.
Import ListNotations.

Local Open Scope string_scope.
Local Open Scope Z_scope.
Local Open Scope list_scope.

(** ** src/types/task.ts *)

Inductive TaskPriority := LOW | MEDIUM | HIGH.
Inductive TaskStatus := TODO | IN_PROGRESS | COMPLETED.

Definition TaskPriority_eqb (a b : TaskPriority) : bool :=
  match a, b with
  | LOW, LOW | MEDIUM, MEDIUM | HIGH, HIGH => true
  | _, _ => false
  end.

Definition TaskStatus_eqb (a b : TaskStatus) : bool :=
  match a, b with
  | TODO, TODO | IN_PROGRESS, IN_PROGRESS | COMPLETED, COMPLETED => true
  | _, _ => false
  end.

Record Task := mkTask {
  task_id : string;
  task_title : string;
  task_description : option string;
  task_completed : bool;
  task_status : TaskStatus;
  task_priority : TaskPriority;
  task_projectId : option string;
  task_dueDate : option Z;
  task_createdAt : Z;
  task_updatedAt : Z;
  task_tags : option (list string)
}.

Record CreateTaskInput := mkCreateTaskInput {
  in_title : string;
  in_description : option string;
  in_priority : option TaskPriority;
  in_projectId : option string;
  in_dueDate : option Z;
  in_tags : option (list string)
}.

(** [Partial<Omit<Task, "id" | "createdAt">>]: a key is absent ([None]) or
    present.  The optional properties of [Task] may be present with the
    value [undefined] ([Some None]); [updateTask] itself stores
    [defaultProject?.id] that way. *)
Record TaskUpdates := mkTaskUpdates {
  upd_title : option string;
  upd_description : option (option string);
  upd_completed : option bool;
  upd_status : option TaskStatus;
  upd_priority : option TaskPriority;
  upd_projectId : option (option string);
  upd_dueDate : option (option Z);
  upd_updatedAt : option Z;
  upd_tags : option (option (list string))
}.

Definition no_updates : TaskUpdates :=
  mkTaskUpdates None None None None None None None None None.

Record TaskStats := mkTaskStats {
  total : Z;
  completed : Z;
  pending : Z;
  overdue : Z;
  highPriority : Z
}.

(** ** src/types/project.ts *)

Inductive ProjectColor :=
  BLUE | GREEN | RED | YELLOW | PURPLE | PINK | ORANGE | GRAY.

Record Project := mkProject {
  project_id : string;
  project_name : string;
  project_description : option string;
  project_color : ProjectColor;
  project_isDefault : option bool;
  project_createdAt : Z;
  project_updatedAt : Z
}.

Record CreateProjectInput := mkCreateProjectInput {
  pin_name : string;
  pin_description : option string;
  pin_color : option ProjectColor
}.

(** [DEFAULT_PROJECT], completed with the three omitted fields. *)
Definition DEFAULT_PROJECT (id : string) (createdAt updatedAt : Z) : Project :=
  mkProject id "Personal" (Some "Your personal tasks and reminders") BLUE
            (Some true) createdAt updatedAt.

(** ** src/types/filter.ts *)

Inductive SortBy :=
  CREATED_DATE | UPDATED_DATE | DUE_DATE | TITLE | PRIORITY | STATUS.

Inductive SortDirection := ASC | DESC.

Inductive DueDateFilter :=
  ALL | TODAY | TOMORROW | THIS_WEEK | NEXT_WEEK | OVERDUE | NO_DUE_DATE.

Definition DueDateFilter_eqb (a b : DueDateFilter) : bool :=
  match a, b with
  | ALL, ALL | TODAY, TODAY | TOMORROW, TOMORROW | THIS_WEEK, THIS_WEEK
  | NEXT_WEEK, NEXT_WEEK | OVERDUE, OVERDUE | NO_DUE_DATE, NO_DUE_DATE => true
  | _, _ => false
  end.

(** [T | "all"] *)
Inductive OrAll (T : Type) := all | only (x : T).
Arguments all {T}.
Arguments only {T} x.

Record TaskFilter := mkTaskFilter {
  searchQuery : option string;
  filter_status : option (OrAll TaskStatus);
  filter_priority : option (OrAll TaskPriority);
  filter_projectId : option string;
  filter_dueDate : option DueDateFilter;
  filter_tags : option (list string);
  showCompleted : option bool
}.

Record TaskSort := mkTaskSort {
  sortBy : SortBy;
  direction : SortDirection
}.

Definition DEFAULT_FILTER : TaskFilter :=
  mkTaskFilter (Some "") (Some all) (Some all) (Some "all") (Some ALL)
               (Some []) (Some true).

Definition DEFAULT_SORT : TaskSort := mkTaskSort CREATED_DATE DESC.

(** ** JavaScript primitives used by the services *)

(** A string is truthy unless it is empty. *)
Definition truthy_string (s : string) : bool := negb (String.eqb s "").

(** An optional string is truthy when present and not empty. *)
Definition truthy (o : option string) : bool :=
  match o with
  | Some s => truthy_string s
  | None => false
  end.

(** [a === b] between an optional string property and a string. *)
Definition strict_eq (o : option string) (s : string) : bool :=
  match o with
  | Some x => String.eqb x s
  | None => false
  end.

(** [Array.prototype.findIndex], [None] standing for [-1]. *)
Fixpoint findIndex {A} (p : A -> bool) (l : list A) : option nat :=
  match l with
  | [] => None
  | x :: l' =>
      if p x then Some O
      else match findIndex p l' with
           | Some i => Some (S i)
           | None => None
           end
  end.

(** [l[i] = x] for an index inside the array. *)
Fixpoint array_set {A} (l : list A) (i : nat) (x : A) : list A :=
  match l, i with
  | [], _ => []
  | _ :: l', O => x :: l'
  | y :: l', S i' => y :: array_set l' i' x
  end.

(** [l.filter(p).length] *)
Definition count {A} (p : A -> bool) (l : list A) : Z :=
  Z.of_nat (List.length (filter p l)).

(** ** The environment: clock, random source, local storage *)

Class Environment := {
  clock : nat -> Z;          (* the value of the n-th read of the clock *)
  random : nat -> string     (* Math.random().toString(36).substr(2, 9) *)
}.

Record World := mkWorld {
  todoapp_tasks : list Task;          (* localStorage["todoapp_tasks"] *)
  todoapp_projects : list Project;    (* localStorage["todoapp_projects"] *)
  clock_reads : nat;
  random_draws : nat
}.

(** A computation reads and writes the world and returns a value. *)
Definition M (A : Type) : Type := World -> A * World.

Definition ret {A} (x : A) : M A := fun w => (x, w).

Definition bind {A B} (c : M A) (k : A -> M B) : M B :=
  fun w => let (x, w') := c w in k x w'.

Declare Scope js_scope.
Delimit Scope js_scope with js.
Notation "x <- c ;; k" := (bind c (fun x => k))
  (at level 61, c at next level, right associativity) : js_scope.
Notation "c ;; k" := (bind c (fun _ => k))
  (at level 61, right associativity) : js_scope.
Local Open Scope js_scope.

(** [tasks.forEach]/[map] with an effectful body, in array order. *)
Fixpoint mapM {A B} (f : A -> M B) (l : list A) : M (list B) :=
  match l with
  | [] => ret []
  | x :: l' => y <- f x ;; ys <- mapM f l' ;; ret (y :: ys)
  end.

Section WithEnvironment.
Context {env : Environment}.

(** [new Date()] and [Date.now()] *)
Definition newDate : M Z :=
  fun w => (clock (clock_reads w),
            mkWorld (todoapp_tasks w) (todoapp_projects w)
                    (S (clock_reads w)) (random_draws w)).

Definition Math_random : M string :=
  fun w => (random (random_draws w),
            mkWorld (todoapp_tasks w) (todoapp_projects w)
                    (clock_reads w) (S (random_draws w))).

(** [`${Date.now()}-${Math.random().toString(36).substr(2, 9)}`] *)
Definition generateId : M string :=
  now <- newDate ;;
  r <- Math_random ;;
  ret (NilZero.string_of_int (Z.to_int now) ++ "-" ++ r)%string.

End WithEnvironment.

(** ** src/services/projectStorage.ts *)

(** [project.isDefault] used as a condition. *)
Definition isDefault (p : Project) : bool :=
  match project_isDefault p with
  | Some b => b
  | None => false
  end.



(** The result of [getProjectStats]. *)
Record ProjectCounts := mkProjectCounts {
  counts_total : Z;
  counts_default : Z;
  counts_custom : Z
}.

Module ProjectStorageService.
Section WithEnvironment.
Context {env : Environment}.

Definition saveProjects (projects : list Project) : M bool :=
  fun w => (true, mkWorld (todoapp_tasks w) projects
                          (clock_reads w) (random_draws w)).

Definition createDefaultProject : M Project :=
  now <- newDate ;;
  id <- generateId ;;
  let defaultProject := DEFAULT_PROJECT id now now in
  _ <- saveProjects [defaultProject] ;;
  ret defaultProject.

Definition getProjects : M (list Project) :=
  fun w =>
    let projects := todoapp_projects w in
    if (Z.of_nat (List.length projects) =? 0)
    then (defaultProject <- createDefaultProject ;; ret [defaultProject]) w
    else ret projects w.

Definition getProjectById (projectId : string) : M (option Project) :=
  projects <- getProjects ;;
  ret (find (fun project => String.eqb (project_id project) projectId) projects).

Definition getDefaultProject : M (option Project) :=
  projects <- getProjects ;;
  ret (find (fun project => isDefault project) projects).

Definition addProject (input : CreateProjectInput) : M Project :=
  now <- newDate ;;
  id <- generateId ;;
  let newProject :=
    mkProject id (pin_name input) (pin_description input)
              (match pin_color input with Some c => c | None => BLUE end)
              None now now in
  projects <- getProjects ;;
  _ <- saveProjects (projects ++ [newProject]) ;;
  ret newProject.

Definition deleteProject (projectId : string) : M bool :=
  projects <- getProjects ;;
  match find (fun p => String.eqb (project_id p) projectId) projects with
  | None => ret false
  | Some project =>
      if isDefault project then ret false
      else
        let filteredProjects :=
          filter (fun project => negb (String.eqb (project_id project) projectId))
                 projects in
        saveProjects filteredProjects
  end.

Definition projectExists (projectId : string) : M bool :=
  projects <- getProjects ;;
  ret (existsb (fun project => String.eqb (project_id project) projectId) projects).


Definition getProjectStats : M ProjectCounts :=
  projects <- getProjects ;;
  ret (mkProjectCounts
         (Z.of_nat (List.length projects))
         (count (fun p => isDefault p) projects)
         (count (fun p => negb (isDefault p)) projects)).

(** [LocalStorageService.remove]: nothing is stored under the key. *)
Definition clearAllProjects : M bool :=
  fun w => (true, mkWorld (todoapp_tasks w) [] (clock_reads w) (random_draws w)).

Definition importProjects (projects : list Project) : M bool :=
  let hasDefault := existsb (fun p => isDefault p) projects in
  projects <-
    (if negb hasDefault
     then id <- generateId ;;
          createdAt <- newDate ;;
          updatedAt <- newDate ;;
          ret (DEFAULT_PROJECT id createdAt updatedAt :: projects)
     else ret projects) ;;
  saveProjects projects.

End WithEnvironment.
End ProjectStorageService.

(** ** src/services/taskStorage.ts *)

Definition override {A} (update : option A) (current : A) : A :=
  match update with
  | Some v => v
  | None => current
  end.

(** [{ ...task, ...updates, updatedAt: now }] *)
Definition spread (task : Task) (updates : TaskUpdates) (now : Z) : Task :=
  mkTask (task_id task)
         (override (upd_title updates) (task_title task))
         (override (upd_description updates) (task_description task))
         (override (upd_completed updates) (task_completed task))
         (override (upd_status updates) (task_status task))
         (override (upd_priority updates) (task_priority task))
         (override (upd_projectId updates) (task_projectId task))
         (override (upd_dueDate updates) (task_dueDate task))
         (task_createdAt task)
         now
         (override (upd_tags updates) (task_tags task)).

(** [updates.projectId = v] *)
Definition set_upd_projectId (updates : TaskUpdates) (v : option string)
  : TaskUpdates :=
  mkTaskUpdates (upd_title updates) (upd_description updates)
                (upd_completed updates) (upd_status updates)
                (upd_priority updates) (Some v) (upd_dueDate updates)
                (upd_updatedAt updates) (upd_tags updates).

(** [task.projectId = projectId; task.updatedAt = now] *)
Definition move_task (task : Task) (projectId : string) (now : Z) : Task :=
  mkTask (task_id task) (task_title task) (task_description task)
         (task_completed task) (task_status task) (task_priority task)
         (Some projectId) (task_dueDate task) (task_createdAt task) now
         (task_tags task).

Module TaskStorageService.
Section WithEnvironment.
Context {env : Environment}.

Definition getTasks : M (list Task) :=
  fun w => (todoapp_tasks w, w).

Definition getTaskById (taskId : string) : M (option Task) :=
  tasks <- getTasks ;;
  ret (find (fun task => String.eqb (task_id task) taskId) tasks).

Definition getTasksByProject (projectId : string) : M (list Task) :=
  tasks <- getTasks ;;
  ret (filter (fun task => strict_eq (task_projectId task) projectId) tasks).

Definition saveTasks (tasks : list Task) : M bool :=
  fun w => (true, mkWorld tasks (todoapp_projects w)
                          (clock_reads w) (random_draws w)).

Definition addTask (input : CreateTaskInput) : M Task :=
  now <- newDate ;;
  let projectId := in_projectId input in
  projectId <-
    (if negb (truthy projectId)
     then defaultProject <- ProjectStorageService.getDefaultProject ;;
          ret (option_map project_id defaultProject)
     else ret projectId) ;;
  projectId <-
    (match projectId with
     | Some pid =>
         if truthy_string pid
         then exists_ <- ProjectStorageService.projectExists pid ;;
              if negb exists_
              then defaultProject <- ProjectStorageService.getDefaultProject ;;
                   ret (option_map project_id defaultProject)
              else ret projectId
         else ret projectId
     | None => ret projectId
     end) ;;
  id <- generateId ;;
  let newTask :=
    mkTask id (in_title input) (in_description input) false TODO
           (match in_priority input with Some p => p | None => MEDIUM end)
           projectId (in_dueDate input) now now
           (Some (match in_tags input with Some ts => ts | None => [] end)) in
  tasks <- getTasks ;;
  _ <- saveTasks (tasks ++ [newTask]) ;;
  ret newTask.

Definition updateTask (taskId : string) (updates : TaskUpdates)
  : M (option Task) :=
  tasks <- getTasks ;;
  match findIndex (fun task => String.eqb (task_id task) taskId) tasks with
  | None => ret None
  | Some taskIndex =>
      updates <-
        (match upd_projectId updates with
         | Some (Some pid) =>
             if truthy_string pid
             then exists_ <- ProjectStorageService.projectExists pid ;;
                  if negb exists_
                  then defaultProject <- ProjectStorageService.getDefaultProject ;;
                       ret (set_upd_projectId updates
                              (option_map project_id defaultProject))
                  else ret updates
             else ret updates
         | _ => ret updates
         end) ;;
      match nth_error tasks taskIndex with
      | None => ret None   (* not reached: taskIndex is an index of tasks *)
      | Some task =>
          now <- newDate ;;
          let updatedTask := spread task updates now in
          _ <- saveTasks (array_set tasks taskIndex updatedTask) ;;
          ret (Some updatedTask)
      end
  end.

Definition deleteTask (taskId : string) : M bool :=
  tasks <- getTasks ;;
  let filteredTasks :=
    filter (fun task => negb (String.eqb (task_id task) taskId)) tasks in
  if (Z.of_nat (List.length filteredTasks) =? Z.of_nat (List.length tasks))
  then ret false
  else saveTasks filteredTasks.

Definition toggleTask (taskId : string) : M (option Task) :=
  tasks <- getTasks ;;
  match find (fun t => String.eqb (task_id t) taskId) tasks with
  | None => ret None
  | Some task =>
      let completed := negb (task_completed task) in
      updateTask taskId
        (mkTaskUpdates None None (Some completed)
                       (Some (if completed then COMPLETED else TODO))
                       None None None None None)
  end.

Definition clearCompletedTasks : M Z :=
  tasks <- getTasks ;;
  let activeTasks := filter (fun task => negb (task_completed task)) tasks in
  let deletedCount :=
    Z.of_nat (List.length tasks) - Z.of_nat (List.length activeTasks) in
  _ <- saveTasks activeTasks ;;
  ret deletedCount.

Definition moveTasksToProject (taskIds : list string) (targetProjectId : string)
  : M bool :=
  exists_ <- ProjectStorageService.projectExists targetProjectId ;;
  if negb exists_ then ret false
  else
    tasks <- getTasks ;;
    let includes_id task := existsb (String.eqb (task_id task)) taskIds in
    tasks' <- mapM (fun task =>
                      if includes_id task
                      then now <- newDate ;; ret (move_task task targetProjectId now)
                      else ret task) tasks ;;
    let updated := existsb includes_id tasks in
    if updated then saveTasks tasks' else ret false.

Definition handleProjectDeletion (deletedProjectId : string) : M bool :=
  defaultProject <- ProjectStorageService.getDefaultProject ;;
  match defaultProject with
  | None => ret false
  | Some defaultProject =>
      tasks <- getTasks ;;
      let toMove task := strict_eq (task_projectId task) deletedProjectId in
      let tasksToMove := filter toMove tasks in
      if (Z.of_nat (List.length tasksToMove) =? 0) then ret true
      else
        (* the objects of tasksToMove are those of tasks: updating them in
           the order of tasksToMove updates them inside tasks *)
        tasks' <- mapM (fun task =>
                          if toMove task
                          then now <- newDate ;;
                               ret (move_task task (project_id defaultProject) now)
                          else ret task) tasks ;;
        saveTasks tasks'
  end.

Definition getTaskStats : M TaskStats :=
  tasks <- getTasks ;;
  now <- newDate ;;
  ret (mkTaskStats
         (Z.of_nat (List.length tasks))
         (count (fun task => task_completed task) tasks)
         (count (fun task => negb (task_completed task)) tasks)
         (count (fun task =>
                   match task_dueDate task with
                   | Some dueDate => (dueDate <? now) && negb (task_completed task)
                   | None => false
                   end) tasks)
         (count (fun task => TaskPriority_eqb (task_priority task) HIGH
                             && negb (task_completed task)) tasks)).

Definition getTaskStatsByProject (projectId : string) : M TaskStats :=
  tasks <- getTasksByProject projectId ;;
  now <- newDate ;;
  ret (mkTaskStats
         (Z.of_nat (List.length tasks))
         (count (fun task => task_completed task) tasks)
         (count (fun task => negb (task_completed task)) tasks)
         (count (fun task =>
                   match task_dueDate task with
                   | Some dueDate => (dueDate <? now) && negb (task_completed task)
                   | None => false
                   end) tasks)
         (count (fun task => TaskPriority_eqb (task_priority task) HIGH
                             && negb (task_completed task)) tasks)).

(** [LocalStorageService.remove]: nothing is stored under the key. *)
Definition clearAllTasks : M bool :=
  fun w => (true, mkWorld [] (todoapp_projects w) (clock_reads w)
                          (random_draws w)).

End WithEnvironment.
End TaskStorageService.

(** The second [TaskStorageService] class of taskStorage.ts (lines 341-670),
    which stores the input's project as it is. *)
Module TaskStorageService2.
Section WithEnvironment.
Context {env : Environment}.

Definition addTask (input : CreateTaskInput) : M Task :=
  now <- newDate ;;
  id <- generateId ;;
  let newTask :=
    mkTask id (in_title input) (in_description input) false TODO
           (match in_priority input with Some p => p | None => MEDIUM end)
           (in_projectId input) (in_dueDate input) now now
           (Some (match in_tags input with Some ts => ts | None => [] end)) in
  tasks <- TaskStorageService.getTasks ;;
  _ <- TaskStorageService.saveTasks (tasks ++ [newTask]) ;;
  ret newTask.

Definition saveProjects (projects : list Project) : M bool :=
  fun w => (true, mkWorld (todoapp_tasks w) projects
                          (clock_reads w) (random_draws w)).

Definition createDefaultProject : M Project :=
  now <- newDate ;;
  id <- generateId ;;
  let defaultProject := DEFAULT_PROJECT id now now in
  _ <- saveProjects [defaultProject] ;;
  ret defaultProject.

Definition getProjects : M (list Project) :=
  fun w =>
    let projects := todoapp_projects w in
    if (Z.of_nat (List.length projects) =? 0)
    then (defaultProject <- createDefaultProject ;; ret [defaultProject]) w
    else ret projects w.

(** The [updateTask] of this class merges the updates as they are. *)
Definition updateTask (taskId : string) (updates : TaskUpdates)
  : M (option Task) :=
  tasks <- TaskStorageService.getTasks ;;
  match findIndex (fun task => String.eqb (task_id task) taskId) tasks with
  | None => ret None
  | Some taskIndex =>
      match nth_error tasks taskIndex with
      | None => ret None   (* not reached: taskIndex is an index of tasks *)
      | Some task =>
          now <- newDate ;;
          let updatedTask := spread task updates now in
          _ <- TaskStorageService.saveTasks (array_set tasks taskIndex updatedTask) ;;
          ret (Some updatedTask)
      end
  end.

Definition deleteProject (projectId : string) : M bool :=
  projects <- getProjects ;;
  match find (fun p => String.eqb (project_id p) projectId) projects with
  | None => ret false
  | Some project =>
      if isDefault project then ret false
      else
        _ <- match find (fun p => isDefault p) projects with
             | Some defaultProject =>
                 tasks <- TaskStorageService.getTasks ;;
                 let tasksToMove :=
                   filter (fun task => strict_eq (task_projectId task) projectId)
                          tasks in
                 _ <- mapM (fun task =>
                              updateTask (task_id task)
                                (mkTaskUpdates None None None None None
                                   (Some (Some (project_id defaultProject)))
                                   None None None)) tasksToMove ;;
                 ret tt
             | None => ret tt
             end ;;
        let filteredProjects :=
          filter (fun project => negb (String.eqb (project_id project) projectId))
                 projects in
        saveProjects filteredProjects
  end.

End WithEnvironment.
End TaskStorageService2.

(** ** src/hooks/useProjects.ts *)

(** [String.prototype.trim] on ASCII text: the white space and line
    terminators of ECMAScript below 128 are the characters 9 to 13 and 32
    (beyond ASCII it also strips the no-break space and others). *)
Definition isWhiteSpace (c : ascii) : bool :=
  let n := nat_of_ascii c in
  ((9 <=? n)%nat && (n <=? 13)%nat) || (n =? 32)%nat.

Fixpoint trimStart (s : string) : string :=
  match s with
  | EmptyString => EmptyString
  | String c s' => if isWhiteSpace c then trimStart s' else s
  end.

Fixpoint trimEnd (s : string) : string :=
  match s with
  | EmptyString => EmptyString
  | String c s' =>
      match trimEnd s' with
      | EmptyString => if isWhiteSpace c then EmptyString else String c EmptyString
      | rest => String c rest
      end
  end.

Definition trim (s : string) : string := trimEnd (trimStart s).

(** [`${n}`] for a counter *)
Definition Number_toString (n : nat) : string :=
  NilEmpty.string_of_uint (Nat.to_uint n).

(** The state of the hook: [projects], [loading], [error]. *)
Record ProjectsState := mkProjectsState {
  state_projects : list Project;
  projects_loading : bool;
  projects_error : option string
}.

Module useProjects.
Section WithEnvironment.
Context {env : Environment}.

(** The storage effect and the result of [deleteProject]; the hook's own
    copy of the project list follows the result. *)
Definition deleteProject (projectId : string) : M bool :=
  success <- TaskStorageService.handleProjectDeletion projectId ;;
  if negb success then ret false
  else
    projectDeleted <- ProjectStorageService.deleteProject projectId ;;
    if projectDeleted then ret true else ret false.

(** [bulkDeleteProjects]: the loop over [deletableIds], counting. *)
Fixpoint deleteEachProject (deletableIds : list string) (deletedCount : Z)
  : M Z :=
  match deletableIds with
  | [] => ret deletedCount
  | projectId :: rest =>
      tasksMoved <- TaskStorageService.handleProjectDeletion projectId ;;
      deletedCount <-
        (if tasksMoved
         then projectDeleted <- ProjectStorageService.deleteProject projectId ;;
              ret (if projectDeleted then deletedCount + 1 else deletedCount)
         else ret deletedCount) ;;
      deleteEachProject rest deletedCount
  end.

Definition bulkDeleteProjects (projectIds : list string) (st : ProjectsState)
  : M (Z * ProjectsState) :=
  let deletableIds :=
    filter (fun id =>
              match find (fun project => String.eqb (project_id project) id)
                         (state_projects st) with
              | Some project => negb (isDefault project)
              | None => false
              end) projectIds in
  deletedCount <- deleteEachProject deletableIds 0 ;;
  let projects :=
    if 0 <? deletedCount
    then filter (fun project =>
                   negb (existsb (String.eqb (project_id project)) deletableIds))
                (state_projects st)
    else state_projects st in
  ret (deletedCount,
       mkProjectsState projects (projects_loading st) None).

End WithEnvironment.
End useProjects.

(** ** Dates *)

(** *** Civil dates

    [Date] counts days from 1 January 1970 in the proleptic Gregorian
    calendar (ECMAScript, Day Number and Time within Day; Year Number;
    Month Number; Date Number; Week Day).  A cycle of 400 years has 146097
    days; the cycles are counted from 1 March of the year 0, so that the
    leap day is the last day of a year of the cycle. *)

Definition msPerDay : Z := 86400000.

(** The cycle of 400 years the day [n] lies in, and the day of the cycle. *)
Definition era (n : Z) : Z := (n + 719468) / 146097.
Definition dayOfEra (n : Z) : Z := (n + 719468) mod 146097.

(** The year of the cycle (from March), the day of that year, and its
    month (March is 0), for a day of the cycle. *)
Definition yearOfEra (doe : Z) : Z :=
  (doe - doe / 1460 + doe / 36524 - doe / 146096) / 365.

Definition dayOfYear (doe : Z) : Z :=
  let yoe := yearOfEra doe in doe - (365 * yoe + yoe / 4 - yoe / 100).

Definition monthFromMarch (doe : Z) : Z := (5 * dayOfYear doe + 2) / 153.

(** [MonthFromTime]: January is 0. *)
Definition MonthFromDay (n : Z) : Z :=
  let mp := monthFromMarch (dayOfEra n) in
  if mp <? 10 then mp + 2 else mp - 10.

(** [DateFromTime]: the day of the month, from 1. *)
Definition DateFromDay (n : Z) : Z :=
  let doe := dayOfEra n in
  dayOfYear doe - (153 * monthFromMarch doe + 2) / 5 + 1.

(** [YearFromTime] *)
Definition YearFromDay (n : Z) : Z :=
  yearOfEra (dayOfEra n) + era n * 400
  + (if MonthFromDay n <? 2 then 1 else 0).

(** [MakeDay(year, month, date)]: the number of the day; months beyond
    December and days beyond the end of the month count on. *)
Definition MakeDay (year month date : Z) : Z :=
  let ym := year + month / 12 in
  let mn := month mod 12 in
  let y := if mn <? 2 then ym - 1 else ym in
  let mp := if mn <? 2 then mn + 10 else mn - 2 in
  (y / 400) * 146097
  + ((y mod 400) * 365 + (y mod 400) / 4 - (y mod 400) / 100
     + (153 * mp + 2) / 5)
  - 719468 + (date - 1).

(** [WeekDay]: Sunday is 0, and 1 January 1970 was a Thursday. *)
Definition WeekDay (n : Z) : Z := (n + 4) mod 7.

(** *** The local time zone

    What [Date] takes from the time zone: the local day an instant lies
    in ([Day(LocalTime(t))]), the time the wall clock shows then
    ([TimeWithinDay(LocalTime(t))]), and the instant at which the wall
    clock shows a given time of a given day ([UTC(MakeDate(day, time))]).
    The instant of midnight, [atLocal d 0], is the first instant of the day
    [d]; where the clocks are put forward at midnight the wall clock does
    not show 0 then. *)
Class Calendar := {
  dayNumber : Z -> Z;
  wallClock : Z -> Z;
  atLocal : Z -> Z -> Z;
  dayStart_lt : forall d d', d < d' -> atLocal d 0 < atLocal d' 0;
  day_bracket : forall t,
    atLocal (dayNumber t) 0 <= t < atLocal (dayNumber t + 1) 0
}.

Abbreviation dayStart d := (atLocal d 0).

Section WithCalendar.
Context {cal : Calendar}.

(** [d.getFullYear()], [d.getMonth()], [d.getDate()], [d.getDay()] *)
Definition getFullYear (d : Z) : Z := YearFromDay (dayNumber d).
Definition getMonth (d : Z) : Z := MonthFromDay (dayNumber d).
Definition getDate (d : Z) : Z := DateFromDay (dayNumber d).
Definition getDay (d : Z) : Z := WeekDay (dayNumber d).

(** [new Date(year, month, date)]: local midnight of the day; a year from
    0 to 99 is read as a year of the twentieth century. *)
Definition Date_ymd (year month date : Z) : Z :=
  let yr := if (0 <=? year) && (year <=? 99) then 1900 + year else year in
  atLocal (MakeDay yr month date) 0.

(** [new Date(d.getFullYear(), d.getMonth(), d.getDate())] *)
Definition startOfDay (d : Z) : Z :=
  Date_ymd (getFullYear d) (getMonth d) (getDate d).

(** [d.setDate(d.getDate() + n)]: the day [n] days after that of [d], at
    the time the wall clock shows at [d]. *)
Definition addDays (d n : Z) : Z :=
  atLocal (MakeDay (getFullYear d) (getMonth d) (getDate d + n)) (wallClock d).

End WithCalendar.

(** ** src/hooks/useTasks.ts *)

(** [String.prototype.toLowerCase] on ASCII text: the letters A to Z
    (beyond ASCII it also maps letters such as [É]). *)
Definition toLowerCase_ascii (c : ascii) : ascii :=
  let n := nat_of_ascii c in
  if (65 <=? n)%nat && (n <=? 90)%nat then ascii_of_nat (n + 32) else c.

Fixpoint toLowerCase (s : string) : string :=
  match s with
  | EmptyString => EmptyString
  | String c s' => String (toLowerCase_ascii c) (toLowerCase s')
  end.

(** [s.includes(q)] *)
Fixpoint includes (s q : string) : bool :=
  if String.prefix q s then true
  else match s with
       | EmptyString => false
       | String _ s' => includes s' q
       end.

(** The values the comparator compares: numbers, [Infinity], strings. *)
Inductive SortValue := Num (n : Z) | Infinity | Str (s : string).

(** [a < b]; a number is never compared with a string here. *)
Definition js_lt (a b : SortValue) : bool :=
  match a, b with
  | Num x, Num y => x <? y
  | Num _, Infinity => true
  | Str s, Str t => String.ltb s t
  | _, _ => false
  end.

(** [x || Infinity] for [x] a number or [undefined] *)
Definition orInfinity (x : option Z) : SortValue :=
  match x with
  | Some n => if n =? 0 then Infinity else Num n
  | None => Infinity
  end.

Definition priorityOrder (p : TaskPriority) : Z :=
  match p with HIGH => 3 | MEDIUM => 2 | LOW => 1 end.

Definition statusOrder (s : TaskStatus) : Z :=
  match s with TODO => 1 | IN_PROGRESS => 2 | COMPLETED => 3 end.

(** The [switch (sort.sortBy)] of the comparator. *)
Definition sortValue (by_ : SortBy) (a : Task) : SortValue :=
  match by_ with
  | TITLE => Str (toLowerCase (task_title a))
  | CREATED_DATE => Num (task_createdAt a)
  | UPDATED_DATE => Num (task_updatedAt a)
  | DUE_DATE => orInfinity (task_dueDate a)
  | PRIORITY => Num (priorityOrder (task_priority a))
  | STATUS => Num (statusOrder (task_status a))
  end.

(** The function passed to [filtered.sort]. *)
Definition compareFn (sort : TaskSort) (a b : Task) : Z :=
  let aValue := sortValue (sortBy sort) a in
  let bValue := sortValue (sortBy sort) b in
  if js_lt aValue bValue
  then match direction sort with ASC => -1 | DESC => 1 end
  else if js_lt bValue aValue
  then match direction sort with ASC => 1 | DESC => -1 end
  else 0.

(** [Array.prototype.sort]: a stable sort (ECMAScript 2019), here by
    insertion.  [insert] puts [x], which came before the elements of [l],
    in front of the first element it is not greater than. *)
Fixpoint insert {A} (compare : A -> A -> Z) (x : A) (l : list A) : list A :=
  match l with
  | [] => [x]
  | y :: l' =>
      if compare x y <=? 0 then x :: y :: l'
      else y :: insert compare x l'
  end.

Definition Array_sort {A} (compare : A -> A -> Z) (l : list A) : list A :=
  fold_right (insert compare) [] l.

(** The state of the hook: [tasks], [loading], [error]. *)
Record TasksState := mkTasksState {
  state_tasks : list Task;
  tasks_loading : bool;
  tasks_error : option string
}.

(** [Set.prototype.add]: a set keeps its elements in insertion order. *)
Definition Set_add (set : list string) (x : string) : list string :=
  if existsb (String.eqb x) set then set else set ++ [x].

(** The comparison of [Array.prototype.sort] without a comparator, on
    strings. *)
Definition defaultCompare (x y : string) : Z :=
  if String.ltb x y then -1 else if String.ltb y x then 1 else 0.

Module useTasks.
Section WithEnvironment.
Context {env : Environment} {cal : Calendar}.

(** The predicate of the search filter (lines 151-154). *)
Definition matchesSearch (query : string) (task : Task) : bool :=
  includes (toLowerCase (task_title task)) query
  || match task_description task with
     | Some d => includes (toLowerCase d) query
     | None => false
     end
  || match task_tags task with
     | Some tags => existsb (fun tag => includes (toLowerCase tag) query) tags
     | None => false
     end.

(** The predicate of the due date filter (lines 189-217), for the bucket
    [bucket] and the four dates computed before it. *)
Definition matchesDueDate (bucket : DueDateFilter)
    (today tomorrow thisWeekEnd nextWeekEnd : Z) (task : Task) : bool :=
  match task_dueDate task with
  | None => DueDateFilter_eqb bucket NO_DUE_DATE
  | Some dueDate =>
      let dueDateOnly := startOfDay dueDate in
      match bucket with
      | TODAY => dueDateOnly =? today
      | TOMORROW => dueDateOnly =? tomorrow
      | THIS_WEEK => (today <=? dueDateOnly) && (dueDateOnly <=? thisWeekEnd)
      | NEXT_WEEK => (thisWeekEnd <? dueDateOnly) && (dueDateOnly <=? nextWeekEnd)
      | OVERDUE => (dueDateOnly <? today) && negb (task_completed task)
      | NO_DUE_DATE => false
      | ALL => true
      end
  end.

(** The predicate of the tags filter (lines 222-224). *)
Definition matchesTags (filterTags : list string) (task : Task) : bool :=
  existsb (fun filterTag =>
             match task_tags task with
             | Some tags => existsb (String.eqb filterTag) tags
             | None => false
             end) filterTags.

(** The due date filter with the dates it computes from the clock. *)
Definition dueDateFilterAt (bucket : DueDateFilter) (now : Z) (task : Task)
  : bool :=
  let today := startOfDay now in
  let tomorrow := addDays today 1 in
  let thisWeekEnd := addDays today (7 - getDay today) in
  let nextWeekEnd := addDays thisWeekEnd 7 in
  matchesDueDate bucket today tomorrow thisWeekEnd nextWeekEnd task.

(** Whether the due date filter is applied at all (line 179). *)
Definition dueDateFilterApplies (filter : TaskFilter) : option DueDateFilter :=
  match filter_dueDate filter with
  | Some bucket => if DueDateFilter_eqb bucket ALL then None else Some bucket
  | None => None
  end.

(** The due date stage (lines 179-218): the clock is read only when the
    filter is applied. *)
Definition dueDateStage (filter : TaskFilter) (filtered : list Task)
  : M (list Task) :=
  match dueDateFilterApplies filter with
  | Some bucket =>
      now <- newDate ;;
      ret (List.filter (dueDateFilterAt bucket now) filtered)
  | None => ret filtered
  end.

Definition filteredAndSortedTasks (tasks : list Task) (filter : TaskFilter)
    (sort : TaskSort) : M (list Task) :=
  let filtered := tasks in
  let filtered :=
    match searchQuery filter with
    | Some q =>
        if truthy_string q
        then let query := toLowerCase q in
             List.filter (matchesSearch query) filtered
        else filtered
    | None => filtered
    end in
  let filtered :=
    match filter_status filter with
    | Some (only s) =>
        List.filter (fun task => TaskStatus_eqb (task_status task) s) filtered
    | _ => filtered
    end in
  let filtered :=
    match filter_priority filter with
    | Some (only p) =>
        List.filter (fun task => TaskPriority_eqb (task_priority task) p) filtered
    | _ => filtered
    end in
  let filtered :=
    match filter_projectId filter with
    | Some p =>
        if truthy_string p && negb (String.eqb p "all")
        then List.filter (fun task => strict_eq (task_projectId task) p) filtered
        else filtered
    | None => filtered
    end in
  let filtered :=
    match showCompleted filter with
    | Some false => List.filter (fun task => negb (task_completed task)) filtered
    | _ => filtered
    end in
  filtered <- dueDateStage filter filtered ;;
  let filtered :=
    match filter_tags filter with
    | Some filterTags =>
        if (0 <? Z.of_nat (List.length filterTags))
        then List.filter (matchesTags filterTags) filtered
        else filtered
    | None => filtered
    end in
  ret (Array_sort (compareFn sort) filtered).

Definition stats (tasks : list Task) : M TaskStats :=
  now <- newDate ;;
  let today := startOfDay now in
  ret (mkTaskStats
         (Z.of_nat (List.length tasks))
         (count (fun task => task_completed task) tasks)
         (count (fun task => negb (task_completed task)) tasks)
         (count (fun task =>
                   match task_dueDate task with
                   | Some dueDate => (dueDate <? today) && negb (task_completed task)
                   | None => false
                   end) tasks)
         (count (fun task => TaskPriority_eqb (task_priority task) HIGH
                             && negb (task_completed task)) tasks)).

(** *** The operations of the hook on its state *)

(** [bulkDeleteTasks]: the loop over [taskIds], counting. *)
Fixpoint deleteEachTask (taskIds : list string) (deletedCount : Z) : M Z :=
  match taskIds with
  | [] => ret deletedCount
  | taskId :: rest =>
      success <- TaskStorageService.deleteTask taskId ;;
      deleteEachTask rest (if success then deletedCount + 1 else deletedCount)
  end.

Definition bulkDeleteTasks (taskIds : list string) (st : TasksState)
  : M (Z * TasksState) :=
  deletedCount <- deleteEachTask taskIds 0 ;;
  ret (deletedCount,
       mkTasksState
         (filter (fun task => negb (existsb (String.eqb (task_id task)) taskIds))
                 (state_tasks st))
         (tasks_loading st) None).

Definition getAllTags (tasks : list Task) : list string :=
  let tagSet :=
    fold_left (fun tagSet task =>
                 match task_tags task with
                 | Some tags => fold_left Set_add tags tagSet
                 | None => tagSet
                 end) tasks [] in
  Array_sort defaultCompare tagSet.

End WithEnvironment.
End useTasks.

(** ** src/hooks/useProjects.ts, project validation (lines 186-216) *)

Module ProjectValidation.

Definition validateProjectName (projects : list Project) (name : string)
    (excludeId : option string) : bool :=
  let trimmedName := trim name in
  if negb (truthy_string trimmedName) then false
  else
    negb (existsb
            (fun project =>
               String.eqb (toLowerCase (project_name project))
                          (toLowerCase trimmedName)
               && negb (match excludeId with
                        | Some id => String.eqb (project_id project) id
                        | None => false
                        end)) projects).

(** The [while] loop of [getProjectNameSuggestion], run for at most
    [fuel] tests of the condition. *)
Fixpoint suggestionLoop (fuel : nat) (projects : list Project)
    (trimmedName : string) (counter : nat) (suggestion : string)
  : option string :=
  match fuel with
  | O => None
  | S fuel' =>
      if negb (validateProjectName projects suggestion None)
      then suggestionLoop fuel' projects trimmedName (S counter)
             (trimmedName ++ " (" ++ Number_toString counter ++ ")")%string
      else Some suggestion
  end.

Definition getProjectNameSuggestion (fuel : nat) (projects : list Project)
    (baseName : string) : option string :=
  let trimmedName := trim baseName in
  suggestionLoop fuel projects trimmedName 1 trimmedName.

End ProjectValidation.

(** * Specification vocabulary *)

(** ** Computations *)

(** [wp c w Q]: running [c] in the world [w] gives a result and a world
    that satisfy [Q].  Computations are total functions, so this is a
    statement about the one run there is. *)
Definition wp {A} (c : M A) (w : World) (Q : A -> World -> Prop) : Prop :=
  Q (fst (c w)) (snd (c w)).

(** The world after a read of the clock. *)
Definition tick (w : World) : World :=
  mkWorld (todoapp_tasks w) (todoapp_projects w) (S (clock_reads w))
          (random_draws w).

(** ** The project store *)

(** What a read of the project list does to the world: nothing when
    projects are stored, and otherwise it stores the default project. *)
Definition settles (w w' : World) : Prop :=
  todoapp_projects w' <> []
  /\ todoapp_tasks w' = todoapp_tasks w
  /\ (todoapp_projects w <> [] -> w' = w)
  /\ (todoapp_projects w = [] ->
      exists d, todoapp_projects w' = [d] /\ isDefault d = true).

(** The project list after a computation that may have read it. *)
Definition projects_read (w w' : World) : Prop :=
  todoapp_projects w' = todoapp_projects w
  \/ (todoapp_projects w = []
      /\ exists d, todoapp_projects w' = [d] /\ isDefault d = true).

(** The updates as [updateTask] merges them, given the project list it
    has read: a non-empty [projectId] that no project carries is replaced
    by the id of the default project. *)
Definition validated (projects : list Project) (updates : TaskUpdates)
  : TaskUpdates :=
  match upd_projectId updates with
  | Some (Some pid) =>
      if truthy_string pid
         && negb (existsb (fun p => String.eqb (project_id p) pid) projects)
      then set_upd_projectId updates
             (option_map project_id (find isDefault projects))
      else updates
  | _ => updates
  end.

Definition hasId (taskId : string) (task : Task) : bool :=
  String.eqb (task_id task) taskId.

(** ** The completed/status invariant *)

Definition consistent (task : Task) : Prop :=
  task_completed task = true <-> task_status task = COMPLETED.

(** Updates that leave [completed] and [status] alone or set both, in
    agreement. *)
Definition reconciled (updates : TaskUpdates) : Prop :=
  match upd_completed updates, upd_status updates with
  | None, None => True
  | Some c, Some s => c = true <-> s = COMPLETED
  | _, _ => False
  end.

(** ** Records equal up to a field *)

(** [{ ...task, updatedAt }] and [{ ...task, status }] *)
Definition with_updatedAt (task : Task) (updatedAt : Z) : Task :=
  mkTask (task_id task) (task_title task) (task_description task)
         (task_completed task) (task_status task) (task_priority task)
         (task_projectId task) (task_dueDate task) (task_createdAt task)
         updatedAt (task_tags task).

Definition with_status (task : Task) (status : TaskStatus) : Task :=
  mkTask (task_id task) (task_title task) (task_description task)
         (task_completed task) status (task_priority task)
         (task_projectId task) (task_dueDate task) (task_createdAt task)
         (task_updatedAt task) (task_tags task).

(** Equal in every field except [updatedAt]. *)
Definition same_except_updatedAt (a b : Task) : Prop :=
  with_updatedAt a (task_updatedAt b) = b.

(** The status [toggleTask] gives a task whose [completed] is [c]. *)
Definition toggled_status (c : bool) : TaskStatus :=
  if c then COMPLETED else TODO.

(** ** Project deletion *)

(** How [handleProjectDeletion] leaves a task: one of the deleted project
    goes to [target] with an [updatedAt] read from the clock during the
    call, any other is untouched. *)
Definition reassigned {env : Environment} (deletedProjectId target : string)
    (first last : nat) (task task' : Task) : Prop :=
  if strict_eq (task_projectId task) deletedProjectId
  then exists n, (first <= n < last)%nat
                 /\ task' = move_task task target (clock n)
  else task' = task.

(** Every task that names a project names a stored one. *)
Definition references_stored (tasks : list Task) (projects : list Project)
  : Prop :=
  forall task pid,
    In task tasks -> task_projectId task = Some pid ->
    existsb (fun p => String.eqb (project_id p) pid) projects = true.

(** ** Statistics *)

(** [n] is the number of tasks of [tasks] that satisfy [P]. *)
Definition counts (P : Task -> Prop) (tasks : list Task) (n : Z) : Prop :=
  exists p : Task -> bool, (forall task, p task = true <-> P task)
                           /\ n = count p tasks.

(** Overdue by instant: a due date strictly earlier than [now]. *)
Definition OverdueAt (now : Z) (task : Task) : Prop :=
  exists due, task_dueDate task = Some due
              /\ due < now
              /\ task_completed task = false.

(** The year of the instant is one of 0 to 99, which
    [new Date(year, month, date)] reads as 1900 to 1999. *)
Definition twoDigitYear {cal : Calendar} (t : Z) : bool :=
  (0 <=? getFullYear t) && (getFullYear t <=? 99).

(** Overdue by day: a due date on a calendar day before today, the day
    [new Date(y, m, d)] falls on for the date of [now].  That is the
    calendar day of [now], unless [now] lies in one of the years 0 to 99
    ([startOfDay_day], [OverdueByDay_modern]). *)
Definition OverdueByDay {cal : Calendar} (now : Z) (task : Task) : Prop :=
  exists due, task_dueDate task = Some due
              /\ dayNumber due < dayNumber (startOfDay now)
              /\ task_completed task = false.

(** The five figures, for a given reading of "overdue". *)
Definition aggregates (Overdue : Task -> Prop) (tasks : list Task)
    (s : TaskStats) : Prop :=
  total s = Z.of_nat (List.length tasks)
  /\ counts (fun task => task_completed task = true) tasks (completed s)
  /\ pending s = total s - completed s
  /\ counts Overdue tasks (overdue s)
  /\ counts (fun task => task_priority task = HIGH
                         /\ task_completed task = false) tasks (highPriority s).

(** ** Sorting *)

(** Two elements tie when the comparator returns 0. *)
Definition ties {A} (compare : A -> A -> Z) (t u : A) : bool :=
  compare t u =? 0.

(** Values of one sort key are all numbers (or [Infinity]) or all strings. *)
Definition comparable (u v : SortValue) : Prop :=
  match u, v with
  | Str _, Str _ => True
  | Str _, _ | _, Str _ => False
  | _, _ => True
  end.

(** The comparator as a function of the two sort values. *)
Definition compareValues (dir : SortDirection) (u v : SortValue) : Z :=
  if js_lt u v then match dir with ASC => -1 | DESC => 1 end
  else if js_lt v u then match dir with ASC => 1 | DESC => -1 end
  else 0.

(** ** Moving tasks *)

(** How a move to [target] of the tasks selected by [sel] leaves a task:
    a selected one goes to [target] with an [updatedAt] read from the
    clock during the call, any other is untouched. *)
Definition moved_by {env : Environment} (sel : Task -> bool) (target : string)
    (first last : nat) (task task' : Task) : Prop :=
  if sel task
  then exists n, (first <= n < last)%nat
                 /\ task' = move_task task target (clock n)
  else task' = task.

(** Equal in every field except [projectId] and [updatedAt]. *)
Definition same_except_project (a b : Task) : Prop :=
  mkTask (task_id a) (task_title a) (task_description a) (task_completed a)
         (task_status a) (task_priority a) (task_projectId b) (task_dueDate a)
         (task_createdAt a) (task_updatedAt b) (task_tags a) = b.

(** ** The hook and the store *)

(** [taskIds.includes(task.id)] *)
Definition listed (taskIds : list string) (task : Task) : bool :=
  existsb (String.eqb (task_id task)) taskIds.

(** The tag belongs to one of the tasks. *)
Definition tagged (tasks : list Task) (tag : string) : Prop :=
  exists task tags,
    In task tasks /\ task_tags task = Some tags /\ In tag tags.

(** ** The criteria of a filter *)

Section Criteria.
Context {cal : Calendar}.

Definition keepsSearch (filter : TaskFilter) (task : Task) : bool :=
  match searchQuery filter with
  | Some q =>
      if truthy_string q then useTasks.matchesSearch (toLowerCase q) task
      else true
  | None => true
  end.

Definition keepsStatus (filter : TaskFilter) (task : Task) : bool :=
  match filter_status filter with
  | Some (only s) => TaskStatus_eqb (task_status task) s
  | _ => true
  end.

Definition keepsPriority (filter : TaskFilter) (task : Task) : bool :=
  match filter_priority filter with
  | Some (only p) => TaskPriority_eqb (task_priority task) p
  | _ => true
  end.

Definition keepsProject (filter : TaskFilter) (task : Task) : bool :=
  match filter_projectId filter with
  | Some p =>
      if truthy_string p && negb (String.eqb p "all")
      then strict_eq (task_projectId task) p
      else true
  | None => true
  end.

Definition keepsCompleted (filter : TaskFilter) (task : Task) : bool :=
  match showCompleted filter with
  | Some false => negb (task_completed task)
  | _ => true
  end.

Definition keepsDueDate (filter : TaskFilter) (now : Z) (task : Task) : bool :=
  match useTasks.dueDateFilterApplies filter with
  | Some bucket => useTasks.dueDateFilterAt bucket now task
  | None => true
  end.

Definition keepsTags (filter : TaskFilter) (task : Task) : bool :=
  match filter_tags filter with
  | Some filterTags =>
      if (0 <? Z.of_nat (List.length filterTags))
      then useTasks.matchesTags filterTags task
      else true
  | None => true
  end.

(** A task meets every criterion of the filter at the instant [now]. *)
Definition keeps (filter : TaskFilter) (now : Z) (task : Task) : bool :=
  keepsSearch filter task && keepsStatus filter task
  && keepsPriority filter task && keepsProject filter task
  && keepsCompleted filter task && keepsDueDate filter now task
  && keepsTags filter task.

End Criteria.

(** [q] occurs in [s]. *)
Definition occurs_in (q s : string) : Prop :=
  exists a b, s = (a ++ q ++ b)%string.

(** ** ASCII text

    On a string of ASCII characters [toLowerCase] and [trim] are
    [String.prototype.toLowerCase] and [String.prototype.trim]; beyond
    ASCII the methods of JavaScript also map letters such as [É] and strip
    white space such as the no-break space.  What is proved of the two
    functions is stated for ASCII text. *)
Fixpoint isASCII (s : string) : bool :=
  match s with
  | EmptyString => true
  | String c s' => (nat_of_ascii c <? 128)%nat && isASCII s'
  end.

(** The title, the description and the tags of the task are ASCII text. *)
Definition asciiTask (task : Task) : Prop :=
  isASCII (task_title task) = true
  /\ (forall d, task_description task = Some d -> isASCII d = true)
  /\ (forall tags tag, task_tags task = Some tags -> In tag tags ->
                       isASCII tag = true).

(** ** Project names *)

(** A trimmed string is empty or starts with a character that is not
    white space. *)
Definition starts_black (s : string) : Prop :=
  match s with
  | EmptyString => True
  | String c _ => isWhiteSpace c = false
  end.

(** The name [getProjectNameSuggestion] tries at the count [k]. *)
Definition candidate (trimmedName : string) (k : nat) : string :=
  (trimmedName ++ " (" ++ Number_toString k ++ ")")%string.

(** ** Sample data *)

Definition sample_env : Environment :=
  {| clock := fun n => 1700000000000 + Z.of_nat n;
     random := fun _ => "k3j9x0q2a" |}.

(** A clock that shows noon of 24 December 1999 (UTC). *)
Definition clock_1999 : Environment :=
  {| clock := fun n => 946036800000 + Z.of_nat n;
     random := fun _ => "k3j9x0q2a" |}.

Definition personal : Project :=
  DEFAULT_PROJECT "1690000000000-personal1" 1690000000000 1690000000000.

Definition work : Project :=
  mkProject "1690000000001-work00001" "Work" None GREEN None
            1690000000001 1690000000001.

Definition sample_task (id title : string) (status : TaskStatus)
    (priority : TaskPriority) (projectId : option string) (dueDate : option Z)
  : Task :=
  mkTask id title None (TaskStatus_eqb status COMPLETED) status priority
         projectId dueDate 1695000000000 1695000000000 (Some []).

Definition sample_world (tasks : list Task) (projects : list Project) : World :=
  mkWorld tasks projects 0 0.

Definition draft : Task :=
  sample_task "t1" "Write report" IN_PROGRESS HIGH None None.

Definition epoch_task : Task :=
  sample_task "t0" "File taxes" TODO MEDIUM None (Some 0).

Definition undated_task : Task :=
  sample_task "t1" "Water plants" TODO LOW None None.

Definition dated_task : Task :=
  sample_task "t2" "Write report" TODO HIGH None (Some 1700000000000).

Definition late_task : Task :=
  sample_task "t3" "Renew passport" TODO HIGH None (Some 1699000000000).

(** * Properties *)

(** ** Civil dates *)

Lemma dayOfEra_range (n : Z) : 0 <= dayOfEra n < 146097.
Proof. unfold dayOfEra. apply Z.mod_pos_bound. lia. Qed.

Lemma yearOfEra_range (doe : Z) :
  0 <= doe < 146097 -> 0 <= yearOfEra doe < 400.
Proof.
  intros H. unfold yearOfEra. Z.div_mod_to_equations. lia.
Qed.

Lemma dayOfYear_range (doe : Z) :
  0 <= doe < 146097 -> 0 <= dayOfYear doe <= 365.
Proof.
  intros H. unfold dayOfYear, yearOfEra. cbv zeta.
  Z.div_mod_to_equations. lia.
Qed.

Lemma monthFromMarch_range (doe : Z) :
  0 <= doe < 146097 -> 0 <= monthFromMarch doe < 12.
Proof.
  intros H. pose proof (dayOfYear_range doe H). unfold monthFromMarch.
  Z.div_mod_to_equations. lia.
Qed.

Lemma MonthFromDay_range (n : Z) : 0 <= MonthFromDay n < 12.
Proof.
  unfold MonthFromDay. cbv zeta.
  pose proof (monthFromMarch_range _ (dayOfEra_range n)).
  destruct (Z.ltb_spec (monthFromMarch (dayOfEra n)) 10); lia.
Qed.

Lemma DateFromDay_range (n : Z) : 1 <= DateFromDay n <= 31.
Proof.
  pose proof (dayOfYear_range _ (dayOfEra_range n)).
  unfold DateFromDay, monthFromMarch. cbv zeta.
  Z.div_mod_to_equations. lia.
Qed.

(** [MakeDay] of the civil date of a day gives the day back, and counts
    on from it when the day of the month is moved. *)
Lemma MakeDay_civil (n k : Z) :
  MakeDay (YearFromDay n) (MonthFromDay n) (DateFromDay n + k) = n + k.
Proof.
  pose proof (MonthFromDay_range n) as Hm.
  pose proof (monthFromMarch_range _ (dayOfEra_range n)) as Hmp.
  pose proof (yearOfEra_range _ (dayOfEra_range n)) as Hy.
  unfold MakeDay. cbv zeta.
  rewrite (Z.div_small (MonthFromDay n) 12), (Z.mod_small (MonthFromDay n) 12)
    by lia.
  rewrite Z.add_0_r.
  assert (Hyear : (if MonthFromDay n <? 2 then YearFromDay n - 1
                   else YearFromDay n)
                  = yearOfEra (dayOfEra n) + era n * 400).
  { unfold YearFromDay. destruct (MonthFromDay n <? 2); lia. }
  rewrite Hyear.
  assert (Hmonth : (if MonthFromDay n <? 2 then MonthFromDay n + 10
                    else MonthFromDay n - 2)
                   = monthFromMarch (dayOfEra n)).
  { unfold MonthFromDay. cbv zeta.
    destruct (Z.ltb_spec (monthFromMarch (dayOfEra n)) 10) as [H | H].
    - destruct (Z.ltb_spec (monthFromMarch (dayOfEra n) + 2) 2); lia.
    - destruct (Z.ltb_spec (monthFromMarch (dayOfEra n) - 10) 2); lia. }
  rewrite Hmonth.
  rewrite Z.div_add, Z.mod_add by lia.
  rewrite (Z.div_small _ 400), (Z.mod_small _ 400) by lia.
  unfold DateFromDay, dayOfYear. cbv zeta.
  pose proof (Z.div_mod (n + 719468) 146097 ltac:(lia)) as Hdm.
  fold (era n) in Hdm. fold (dayOfEra n) in Hdm. lia.
Qed.

(** A day from 1 January 2000 on lies in a year from 2000 on. *)
Lemma YearFromDay_2000 (n : Z) :
  MakeDay 2000 0 1 <= n -> 2000 <= YearFromDay n.
Proof.
  change (MakeDay 2000 0 1) with 10957. intros H.
  pose proof (dayOfEra_range n) as Hdoe.
  pose proof (yearOfEra_range _ Hdoe) as Hyoe.
  pose proof (Z.div_mod (n + 719468) 146097 ltac:(lia)) as Hdm.
  fold (era n) in Hdm. fold (dayOfEra n) in Hdm.
  unfold YearFromDay, MonthFromDay. cbv zeta.
  assert (Hera : 4 <= era n) by lia.
  destruct (Z.eq_dec (era n) 4) as [He | He];
    [| destruct (_ <? 2); lia].
  assert (Hd : 146037 <= dayOfEra n) by lia.
  assert (Hy : yearOfEra (dayOfEra n) = 399).
  { unfold yearOfEra. Z.div_mod_to_equations. lia. }
  assert (Hmp : 10 <= monthFromMarch (dayOfEra n)).
  { unfold monthFromMarch, dayOfYear. cbv zeta. rewrite Hy.
    Z.div_mod_to_equations. lia. }
  destruct (Z.ltb_spec (monthFromMarch (dayOfEra n)) 10); [lia |].
  destruct (Z.ltb_spec (monthFromMarch (dayOfEra n) - 10) 2); [lia |].
  pose proof (monthFromMarch_range _ Hdoe). lia.
Qed.

(** Every date of the twentieth century lies before 1 January 2000. *)
Lemma MakeDay_twentieth_century (y m d : Z) :
  0 <= y <= 99 -> 0 <= m < 12 -> d <= 31 ->
  MakeDay (1900 + y) m d < MakeDay 2000 0 1.
Proof.
  change (MakeDay 2000 0 1) with 10957. intros Hy Hm Hd.
  unfold MakeDay. cbv zeta.
  rewrite (Z.div_small m 12), (Z.mod_small m 12) by lia.
  rewrite Z.add_0_r.
  destruct (Z.ltb_spec m 2); Z.div_mod_to_equations; lia.
Qed.


(** ** The UTC calendar *)

Lemma UTC_dayStart_lt (d d' : Z) :
  d < d' -> d * msPerDay + 0 < d' * msPerDay + 0.
Proof. unfold msPerDay; lia. Qed.

Lemma UTC_day_bracket (t : Z) :
  t / msPerDay * msPerDay + 0 <= t < (t / msPerDay + 1) * msPerDay + 0.
Proof.
  unfold msPerDay.
  pose proof (Z.div_mod t 86400000 ltac:(lia)).
  pose proof (Z.mod_pos_bound t 86400000 ltac:(lia)). lia.
Qed.

#[global] Instance UTC : Calendar := {|
  dayNumber t := t / msPerDay;
  wallClock t := t mod msPerDay;
  atLocal d time := d * msPerDay + time;
  dayStart_lt := UTC_dayStart_lt;
  day_bracket := UTC_day_bracket
|}.

(** ** Calendar days *)

Section CalendarFacts.
Context {cal : Calendar}.

Lemma dayStart_lt_iff (d d' : Z) : dayStart d < dayStart d' <-> d < d'.
Proof.
  split; [| apply dayStart_lt].
  intros H. destruct (Z_lt_le_dec d d') as [Hlt | Hle]; [exact Hlt |].
  destruct (Z.eq_dec d' d) as [-> | Hne]; [lia |].
  assert (dayStart d' < dayStart d) by (apply dayStart_lt; lia). lia.
Qed.

Lemma dayNumber_dayStart (d : Z) : dayNumber (dayStart d) = d.
Proof.
  pose proof (day_bracket (dayStart d)) as [Hlo Hhi].
  assert (H1 : ~ d < dayNumber (dayStart d)).
  { intros H. apply dayStart_lt in H. lia. }
  assert (H2 : d < dayNumber (dayStart d) + 1).
  { apply dayStart_lt_iff. exact Hhi. }
  lia.
Qed.



(** An instant is before the start of a day exactly when its calendar
    day is an earlier one. *)
Lemma before_dayStart (t d : Z) : t < dayStart d <-> dayNumber t < d.
Proof.
  pose proof (day_bracket t) as [Hlo Hhi]. split.
  - intros H. apply dayStart_lt_iff. lia.
  - intros H.
    destruct (Z.eq_dec (dayNumber t + 1) d) as [<- | Hne]; [lia |].
    assert (dayStart (dayNumber t + 1) < dayStart d)
      by (apply dayStart_lt; lia).
    lia.
Qed.

(** [new Date(y, m, d)] is the start of the day it falls on. *)
Lemma startOfDay_dayStart (t : Z) :
  startOfDay t = dayStart (dayNumber (startOfDay t)).
Proof.
  unfold startOfDay, Date_ymd. cbv zeta.
  rewrite dayNumber_dayStart. reflexivity.
Qed.

(** The day [new Date(y, m, d)] falls on, for the date of [t]: the day of
    [t], unless its year is one of 0 to 99; both days are then before
    1 January 2000. *)
Lemma startOfDay_day (t : Z) :
  (twoDigitYear t = false /\ dayNumber (startOfDay t) = dayNumber t)
  \/ (twoDigitYear t = true
      /\ dayNumber t < MakeDay 2000 0 1
      /\ dayNumber (startOfDay t) < MakeDay 2000 0 1).
Proof.
  unfold startOfDay, Date_ymd, twoDigitYear, getFullYear, getMonth, getDate.
  cbv zeta. rewrite dayNumber_dayStart.
  destruct ((0 <=? YearFromDay (dayNumber t))
            && (YearFromDay (dayNumber t) <=? 99)) eqn:Hy.
  - right. split; [reflexivity |].
    apply andb_true_iff in Hy. destruct Hy as [H0 H99].
    apply Z.leb_le in H0, H99. split.
    + destruct (Z_lt_le_dec (dayNumber t) (MakeDay 2000 0 1)) as [H | H];
        [exact H |].
      apply YearFromDay_2000 in H. lia.
    + apply MakeDay_twentieth_century; [lia | apply MonthFromDay_range |].
      apply DateFromDay_range.
  - left. split; [reflexivity |].
    pose proof (MakeDay_civil (dayNumber t) 0) as H.
    rewrite !Z.add_0_r in H. exact H.
Qed.

Lemma since2000_twoDigitYear (t : Z) :
  MakeDay 2000 0 1 <= dayNumber t -> twoDigitYear t = false.
Proof.
  intros H. destruct (startOfDay_day t) as [[Hy _] | (_ & Hlt & _)];
    [exact Hy | lia].
Qed.

Lemma startOfDay_modern (t : Z) :
  twoDigitYear t = false -> startOfDay t = dayStart (dayNumber t).
Proof.
  intros H. rewrite startOfDay_dayStart.
  destruct (startOfDay_day t) as [[_ ->] | (Hy & _)];
    [reflexivity | congruence].
Qed.

(** An instant is before today exactly when its calendar day is before
    the day today falls on. *)
Lemma before_startOfDay (t t' : Z) :
  t < startOfDay t' <-> dayNumber t < dayNumber (startOfDay t').
Proof. rewrite startOfDay_dayStart at 1. apply before_dayStart. Qed.


End CalendarFacts.

(** ** The due date filter *)

Section DueDateFilter.
Context {env : Environment} {cal : Calendar}.

(** The day [new Date(y, m, d)] falls on for the date of [t] compares
    with a day from 1 January 2000 on as the day of [t] does. *)
Lemma dueDateOnly_day (t : Z) :
  dayNumber (startOfDay t) = dayNumber t
  \/ (dayNumber t < MakeDay 2000 0 1
      /\ dayNumber (startOfDay t) < MakeDay 2000 0 1).
Proof.
  destruct (startOfDay_day t) as [[_ H] | (_ & H)]; [left | right]; exact H.
Qed.

Lemma today_since_2000 (now : Z) :
  MakeDay 2000 0 1 <= dayNumber now -> startOfDay now = dayStart (dayNumber now).
Proof.
  intros H. apply startOfDay_modern. apply since2000_twoDigitYear. exact H.
Qed.

(** From 1 January 2000 on, the overdue bucket holds the open tasks due on
    an earlier calendar day. *)
Lemma matches_overdue (now : Z) (task : Task) :
  MakeDay 2000 0 1 <= dayNumber now ->
  (useTasks.dueDateFilterAt OVERDUE now task = true <->
   exists due, task_dueDate task = Some due
               /\ dayNumber due < dayNumber now
               /\ task_completed task = false).
Proof.
  intros Hnow.
  unfold useTasks.dueDateFilterAt, useTasks.matchesDueDate. cbv zeta.
  rewrite (today_since_2000 now Hnow).
  destruct (task_dueDate task) as [due |].
  - rewrite andb_true_iff, negb_true_iff, Z.ltb_lt.
    rewrite (startOfDay_dayStart due), dayStart_lt_iff.
    pose proof (dueDateOnly_day due) as Hday.
    split.
    + intros [H1 H2]. exists due. repeat split; auto. lia.
    + intros (d & Hd & Hlt & Hc). inversion Hd; subst d. split; auto. lia.
  - split; [| intros (d & Hd & _); discriminate].
    destruct (DueDateFilter_eqb OVERDUE NO_DUE_DATE) eqn:E;
      [discriminate E | discriminate].
Qed.

Lemma matches_without_dueDate (bucket : DueDateFilter) (now : Z) (task : Task) :
  task_dueDate task = None ->
  useTasks.dueDateFilterAt bucket now task = DueDateFilter_eqb bucket NO_DUE_DATE.
Proof.
  intros H. unfold useTasks.dueDateFilterAt, useTasks.matchesDueDate.
  rewrite H. reflexivity.
Qed.

End DueDateFilter.

Section DueDateStage.
Context {env : Environment} {cal : Calendar}.

Lemma dueDateStage_result (filter : TaskFilter) (tasks : list Task) (w : World) :
  fst (useTasks.dueDateStage filter tasks w) =
  match useTasks.dueDateFilterApplies filter with
  | Some bucket =>
      List.filter (useTasks.dueDateFilterAt bucket (clock (clock_reads w))) tasks
  | None => tasks
  end.
Proof.
  unfold useTasks.dueDateStage.
  destruct (useTasks.dueDateFilterApplies filter); reflexivity.
Qed.

(** From 1 January 2000 on, the due date stage of the filter engine, run
    when the clock shows [now], goes by the calendar day: under the overdue
    bucket a task is kept exactly when it has a due date whose calendar day is
    strictly before the calendar day of [now] and it is not completed; and
    at any time a task without a due date is kept exactly when the bucket
    is noDueDate, all, or absent (so today, tomorrow, thisWeek, nextWeek
    and overdue all exclude it). *)
Lemma due_date_buckets (filter : TaskFilter) (tasks : list Task)
    (task : Task) (w : World) :
  let now := clock (clock_reads w) in
  let kept := fst (useTasks.dueDateStage filter tasks w) in
  (MakeDay 2000 0 1 <= dayNumber now ->
   filter_dueDate filter = Some OVERDUE ->
   (In task kept <->
    In task tasks
    /\ exists due, task_dueDate task = Some due
                   /\ dayNumber due < dayNumber now
                   /\ task_completed task = false))
  /\ (task_dueDate task = None ->
      (In task kept <->
       In task tasks
       /\ (filter_dueDate filter = Some NO_DUE_DATE
           \/ filter_dueDate filter = Some ALL
           \/ filter_dueDate filter = None)))
  /\ (task_dueDate task = None ->
      forall bucket,
        useTasks.dueDateFilterAt bucket now task = true -> bucket = NO_DUE_DATE).
Proof.
  intros now kept. subst kept. rewrite dueDateStage_result.
  unfold useTasks.dueDateFilterApplies. split; [| split].
  - intros Hnow Hf. rewrite Hf. cbn [DueDateFilter_eqb].
    rewrite filter_In. fold now.
    rewrite (matches_overdue now task Hnow). reflexivity.
  - intros Hnone. split.
    + intros Hin.
      destruct (filter_dueDate filter) as [[] |]; simpl in Hin; auto;
        apply filter_In in Hin; destruct Hin as [Hin Hm]; auto;
        rewrite (matches_without_dueDate _ _ _ Hnone) in Hm; discriminate.
    + intros [Hin [Hb | [Hb | Hb]]]; rewrite Hb; simpl; auto.
      apply filter_In. split; auto.
      rewrite (matches_without_dueDate _ _ _ Hnone). reflexivity.
  - intros Hnone bucket Hb.
    rewrite (matches_without_dueDate _ _ _ Hnone) in Hb.
    destruct bucket; simpl in Hb; congruence.
Qed.

End DueDateStage.

(** ** Reasoning about computations *)

Lemma wp_ret {A} (x : A) (w : World) (Q : A -> World -> Prop) :
  Q x w -> wp (ret x) w Q.
Proof. exact (fun H => H). Qed.

Lemma wp_bind {A B} (c : M A) (k : A -> M B) (w : World)
    (Q : B -> World -> Prop) :
  wp c w (fun x w' => wp (k x) w' Q) -> wp (bind c k) w Q.
Proof. unfold wp, bind. destruct (c w) as [x w']. exact (fun H => H). Qed.

Lemma wp_mono {A} (c : M A) (w : World) (P Q : A -> World -> Prop) :
  wp c w P -> (forall x w', P x w' -> Q x w') -> wp c w Q.
Proof. unfold wp. auto. Qed.

Lemma wp_run {A} (c : M A) (w : World) (Q : A -> World -> Prop) :
  wp c w Q -> let (x, w') := c w in Q x w'.
Proof. unfold wp. destruct (c w). exact (fun H => H). Qed.

(** Step through [x <- c ;; k] with the specification [H] of [c]. *)
Ltac wp_step H :=
  apply wp_bind; eapply wp_mono; [apply H |]; cbv beta.

(** ** The project store *)

Section ProjectStoreFacts.
Context {env : Environment}.

Lemma settles_stored (w w' : World) :
  settles w w' -> todoapp_projects w' <> [].
Proof. intros H. apply H. Qed.

Lemma getProjects_stored (w : World) :
  todoapp_projects w <> [] ->
  ProjectStorageService.getProjects w = (todoapp_projects w, w).
Proof.
  intros H. unfold ProjectStorageService.getProjects.
  destruct (todoapp_projects w); [congruence | reflexivity].
Qed.

Lemma getProjects_post (w : World) :
  wp ProjectStorageService.getProjects w
     (fun projects w' => projects = todoapp_projects w' /\ settles w w').
Proof.
  unfold wp, settles. destruct w as [ts ps r d]. destruct ps as [| p ps].
  - cbn. repeat split; try congruence.
    intros _. eexists. split; reflexivity.
  - cbn. repeat split; congruence.
Qed.

Lemma getDefaultProject_post (w : World) :
  wp ProjectStorageService.getDefaultProject w
     (fun defaultProject w' =>
        defaultProject = find isDefault (todoapp_projects w') /\ settles w w').
Proof.
  unfold ProjectStorageService.getDefaultProject.
  wp_step getProjects_post. intros ps w' [-> Hs]. apply wp_ret. auto.
Qed.

Lemma projectExists_post (projectId : string) (w : World) :
  wp (ProjectStorageService.projectExists projectId) w
     (fun exists_ w' =>
        exists_ = existsb (fun p => String.eqb (project_id p) projectId)
                          (todoapp_projects w')
        /\ settles w w').
Proof.
  unfold ProjectStorageService.projectExists.
  wp_step getProjects_post. intros ps w' [-> Hs]. apply wp_ret. auto.
Qed.

Lemma getDefaultProject_stored (w : World) :
  todoapp_projects w <> [] ->
  ProjectStorageService.getDefaultProject w
  = (find isDefault (todoapp_projects w), w).
Proof.
  intros H. unfold ProjectStorageService.getDefaultProject, bind.
  rewrite (getProjects_stored w H). reflexivity.
Qed.

Lemma projectExists_stored (projectId : string) (w : World) :
  todoapp_projects w <> [] ->
  ProjectStorageService.projectExists projectId w
  = (existsb (fun p => String.eqb (project_id p) projectId)
             (todoapp_projects w), w).
Proof.
  intros H. unfold ProjectStorageService.projectExists, bind.
  rewrite (getProjects_stored w H). reflexivity.
Qed.

(** The default project, when there is one, exists. *)
Lemma default_exists (projects : list Project) (d : Project) :
  find isDefault projects = Some d ->
  existsb (fun p => String.eqb (project_id p) (project_id d)) projects = true.
Proof.
  intros H. apply find_some in H. apply existsb_exists.
  exists d. split; [tauto | apply String.eqb_refl].
Qed.

End ProjectStoreFacts.

(** ** Creating a task *)

Section AddTask.
Context {env : Environment}.

Lemma newDate_post (w : World) :
  wp newDate w (fun now w' => now = clock (clock_reads w) /\ w' = tick w).
Proof. split; reflexivity. Qed.

Lemma generateId_post (w : World) :
  wp generateId w
     (fun _ w' => todoapp_tasks w' = todoapp_tasks w
                  /\ todoapp_projects w' = todoapp_projects w).
Proof. split; reflexivity. Qed.

(** What [addTask] returns and stores. *)
Lemma addTask_post (input : CreateTaskInput) (w : World) :
  wp (TaskStorageService.addTask input) w
     (fun task w' =>
        todoapp_tasks w' = todoapp_tasks w ++ [task]
        /\ todoapp_projects w' <> []
        /\ (todoapp_projects w <> [] ->
            todoapp_projects w' = todoapp_projects w)
        /\ task_title task = in_title input
        /\ task_completed task = false
        /\ task_status task = TODO
        /\ (truthy (in_projectId input) = false
            \/ (exists pid,
                  in_projectId input = Some pid
                  /\ existsb (fun p => String.eqb (project_id p) pid)
                             (todoapp_projects w) = false) ->
            task_projectId task
            = option_map project_id (find isDefault (todoapp_projects w')))).
Proof.
  unfold TaskStorageService.addTask.
  wp_step newDate_post. intros now w0 [_ ->].
  apply wp_bind.
  apply wp_mono with
    (P := fun projectId w1 =>
            todoapp_tasks w1 = todoapp_tasks w
            /\ (todoapp_projects w <> [] ->
                todoapp_projects w1 = todoapp_projects w)
            /\ ((truthy (in_projectId input) = true
                 /\ projectId = in_projectId input /\ w1 = tick w)
                \/ (truthy (in_projectId input) = false
                    /\ todoapp_projects w1 <> []
                    /\ projectId
                       = option_map project_id
                           (find isDefault (todoapp_projects w1))))).
  { destruct (truthy (in_projectId input)) eqn:Ht; cbn [negb].
    - apply wp_ret. split; [reflexivity |]. split; [reflexivity |]. left. auto.
    - wp_step getDefaultProject_post. intros d w1 [-> Hs]. apply wp_ret.
      destruct Hs as (Hne & Hts & Hsame & _).
      split; [exact Hts |]. split; [| right; auto].
      intros H. rewrite Hsame; auto. }
  intros projectId w1 (Hts1 & Hps1 & Hcase).
  apply wp_bind.
  apply wp_mono with
    (P := fun projectId w2 =>
            todoapp_tasks w2 = todoapp_tasks w
            /\ todoapp_projects w2 <> []
            /\ (todoapp_projects w <> [] ->
                todoapp_projects w2 = todoapp_projects w)
            /\ (truthy (in_projectId input) = false
                \/ (exists pid,
                      in_projectId input = Some pid
                      /\ existsb (fun p => String.eqb (project_id p) pid)
                                 (todoapp_projects w) = false) ->
                projectId
                = option_map project_id (find isDefault (todoapp_projects w2)))).
  { destruct Hcase as [(Ht & -> & ->) | (Ht & Hne & ->)].
    - destruct (in_projectId input) as [pid |] eqn:Hpid; [| discriminate].
      cbn [truthy] in Ht. rewrite Ht.
      wp_step projectExists_post. intros ex w2 [-> Hs].
      destruct Hs as (Hne & Hts & Hsame & Hfresh).
      assert (Hps : todoapp_projects w <> [] ->
                    todoapp_projects w2 = todoapp_projects w)
        by (intros H; rewrite Hsame; auto).
      destruct (existsb _ (todoapp_projects w2)) eqn:Hex; cbn [negb].
      + apply wp_ret. repeat split; auto.
        intros [Hf | (pid' & Heq & Hno)]; [cbn in Hf; congruence |].
        inversion Heq; subst pid'.
        destruct (todoapp_projects w) as [| p ps] eqn:Hw.
        * destruct (Hfresh Hw) as (d & Hd & Hdef).
          rewrite Hd in Hex |- *. cbn in Hex |- *. rewrite Hdef. cbn.
          rewrite orb_false_r in Hex. apply String.eqb_eq in Hex.
          congruence.
        * rewrite Hsame in Hex by (cbn; congruence). cbn in Hex. congruence.
      + unfold wp, bind. rewrite (getDefaultProject_stored w2 Hne). cbn.
        repeat split; auto.
    - assert (Hkeep :
        wp (ret (option_map project_id (find isDefault (todoapp_projects w1))))
           w1
           (fun projectId w2 =>
              todoapp_tasks w2 = todoapp_tasks w
              /\ todoapp_projects w2 <> []
              /\ (todoapp_projects w <> [] ->
                  todoapp_projects w2 = todoapp_projects w)
              /\ (truthy (in_projectId input) = false
                  \/ (exists pid,
                        in_projectId input = Some pid
                        /\ existsb (fun p => String.eqb (project_id p) pid)
                                   (todoapp_projects w) = false) ->
                  projectId
                  = option_map project_id
                      (find isDefault (todoapp_projects w2)))))
        by (apply wp_ret; repeat split; auto).
      destruct (find isDefault (todoapp_projects w1)) as [d |] eqn:Hd;
        cbn [option_map] in *; [| exact Hkeep].
      destruct (truthy_string (project_id d)); [| exact Hkeep].
      unfold wp, bind. rewrite (projectExists_stored _ w1 Hne).
      rewrite (default_exists _ _ Hd). exact Hkeep. }
  intros projectId2 w2 (Hts2 & Hne2 & Hps2 & Hpid2).
  wp_step generateId_post. intros id w3 [Hts3 Hps3].
  unfold wp. cbn.
  rewrite Hts3, Hps3, Hts2.
  split; [reflexivity |]. split; [exact Hne2 |]. split; [exact Hps2 |].
  repeat (split; [reflexivity |]). exact Hpid2.
Qed.


End AddTask.
(** ** Updating a task *)

Section ListFacts.
Context {A : Type}.

Lemma findIndex_Some (p : A -> bool) (l : list A) (i : nat) :
  findIndex p l = Some i ->
  exists x, nth_error l i = Some x /\ p x = true /\ find p l = Some x.
Proof.
  revert i. induction l as [| y l IH]; intros i H; cbn in *.
  - discriminate.
  - destruct (p y) eqn:Hy.
    + inversion H; subst i. exists y. auto.
    + destruct (findIndex p l) as [j |]; [| discriminate].
      inversion H; subst i. destruct (IH j eq_refl) as (x & Hx). exists x.
      exact Hx.
Qed.

Lemma findIndex_None (p : A -> bool) (l : list A) :
  findIndex p l = None <-> find p l = None.
Proof.
  induction l as [| y l IH]; cbn.
  - tauto.
  - destruct (p y); [split; discriminate |].
    destruct (findIndex p l); [| tauto].
    split; [discriminate |]. intros H. apply IH in H. discriminate.
Qed.

Lemma find_findIndex (p : A -> bool) (l : list A) (x : A) :
  find p l = Some x ->
  exists i, findIndex p l = Some i /\ nth_error l i = Some x.
Proof.
  intros H. destruct (findIndex p l) as [i |] eqn:Hi.
  - destruct (findIndex_Some _ _ _ Hi) as (y & Hn & _ & Hf).
    exists i. split; congruence.
  - apply findIndex_None in Hi. congruence.
Qed.

(** Writing at the index [findIndex] found, a value that still satisfies
    the test, leaves the index where it was. *)
Lemma findIndex_array_set (p : A -> bool) (l : list A) (i : nat) (x : A) :
  findIndex p l = Some i -> p x = true ->
  findIndex p (array_set l i x) = Some i
  /\ nth_error (array_set l i x) i = Some x.
Proof.
  revert i. induction l as [| y l IH]; intros i H Hx; cbn in *.
  - discriminate.
  - destruct (p y) eqn:Hy.
    + inversion H; subst i. cbn. rewrite Hx. auto.
    + destruct (findIndex p l) as [j |]; [| discriminate].
      inversion H; subst i. cbn. rewrite Hy.
      destruct (IH j eq_refl Hx) as [-> ->]. auto.
Qed.

Lemma array_set_twice (l : list A) (i : nat) (x y : A) :
  array_set (array_set l i x) i y = array_set l i y.
Proof.
  revert i. induction l as [| z l IH]; intros [| i]; cbn; auto.
  rewrite IH. reflexivity.
Qed.

Lemma array_set_same (l : list A) (i : nat) (x : A) :
  nth_error l i = Some x -> array_set l i x = l.
Proof.
  revert i. induction l as [| z l IH]; intros [| i] H; cbn in *;
    try discriminate.
  - congruence.
  - rewrite IH; auto.
Qed.

Lemma Forall_array_set (P : A -> Prop) (l : list A) (i : nat) (x : A) :
  Forall P l -> P x -> Forall P (array_set l i x).
Proof.
  intros Hl Hx. revert i. induction Hl as [| y l Hy Hl IH]; intros [| i]; cbn;
    auto.
Qed.

Lemma Forall2_in_right {B} (R : A -> B -> Prop) (l : list A) (l' : list B)
    (y : B) :
  Forall2 R l l' -> In y l' -> exists x, In x l /\ R x y.
Proof.
  induction 1 as [| a b l l' Hab _ IH]; cbn; intros Hy.
  - contradiction.
  - destruct Hy as [<- | Hy].
    + exists a. auto.
    + destruct (IH Hy) as (x & Hx & HR). exists x. auto.
Qed.

Lemma count_complement (p : A -> bool) (l : list A) :
  count (fun x => negb (p x)) l = Z.of_nat (List.length l) - count p l.
Proof.
  unfold count. induction l as [| x l IH]; cbn [filter List.length].
  - reflexivity.
  - destruct (p x); cbn [negb List.length]; lia.
Qed.

End ListFacts.

Section UpdateTask.
Context {env : Environment}.

Lemma updateTask_unknown (taskId : string) (updates : TaskUpdates) (w : World) :
  find (hasId taskId) (todoapp_tasks w) = None ->
  TaskStorageService.updateTask taskId updates w = (None, w).
Proof.
  intros H. apply findIndex_None in H.
  unfold TaskStorageService.updateTask, bind. cbn.
  unfold hasId in H. rewrite H. reflexivity.
Qed.

Lemma settles_projects_read (w w' : World) : settles w w' -> projects_read w w'.
Proof.
  intros (_ & _ & Hsame & Hfresh). unfold projects_read.
  destruct (todoapp_projects w) eqn:Hw.
  - right. auto.
  - left. rewrite Hsame; congruence.
Qed.

Lemma updateTask_post (taskId : string) (updates : TaskUpdates) (w : World)
    (i : nat) (task : Task) :
  findIndex (hasId taskId) (todoapp_tasks w) = Some i ->
  nth_error (todoapp_tasks w) i = Some task ->
  wp (TaskStorageService.updateTask taskId updates) w
     (fun result w' =>
        exists n,
          let updatedTask :=
            spread task (validated (todoapp_projects w') updates) (clock n) in
          result = Some updatedTask
          /\ todoapp_tasks w' = array_set (todoapp_tasks w) i updatedTask
          /\ projects_read w w'
          /\ (upd_projectId updates = None ->
              todoapp_projects w' = todoapp_projects w
              /\ n = clock_reads w /\ clock_reads w' = S n)).
Proof.
  intros Hi Hnth. unfold TaskStorageService.updateTask.
  apply wp_bind. unfold wp at 1. cbn [TaskStorageService.getTasks fst snd].
  unfold hasId in Hi. rewrite Hi.
  apply wp_bind.
  apply wp_mono with
    (P := fun updates' w1 =>
            updates' = validated (todoapp_projects w1) updates
            /\ todoapp_tasks w1 = todoapp_tasks w
            /\ projects_read w w1
            /\ (upd_projectId updates = None -> w1 = w)).
  { assert (Hskip :
      validated (todoapp_projects w) updates = updates ->
      wp (ret updates) w
         (fun updates' w1 =>
            updates' = validated (todoapp_projects w1) updates
            /\ todoapp_tasks w1 = todoapp_tasks w
            /\ projects_read w w1
            /\ (upd_projectId updates = None -> w1 = w))).
    { intros Hv. apply wp_ret. rewrite Hv.
      split; [reflexivity |]. split; [reflexivity |].
      split; [left; reflexivity | reflexivity]. }
    unfold validated in *.
    destruct (upd_projectId updates) as [[pid |] |] eqn:Hu; auto.
    destruct (truthy_string pid); cbn [andb] in *; auto.
    wp_step projectExists_post. intros ex w1 [-> Hs].
    pose proof (settles_projects_read _ _ Hs) as Hr.
    destruct Hs as (Hne & Hts & _).
    destruct (existsb _ (todoapp_projects w1)) eqn:Hex; cbn [negb].
    - apply wp_ret. rewrite Hex. cbn [negb].
      repeat split; auto. discriminate.
    - unfold wp, bind. rewrite (getDefaultProject_stored w1 Hne).
      cbn [fst snd ret]. rewrite Hex. cbn [negb].
      repeat split; auto. discriminate. }
  intros updates' w1 (-> & Hts & Hr & Hsame).
  rewrite Hnth.
  wp_step newDate_post. intros now w2 [-> ->].
  unfold wp. cbn. exists (clock_reads w1).
  split; [reflexivity |]. split; [reflexivity |]. split; [exact Hr |].
  intros Hnone. rewrite (Hsame Hnone). auto.
Qed.

End UpdateTask.

(** ** Sample data *)

(** ** The completed/status invariant *)

Section Invariant.
Context {env : Environment}.

Lemma validated_other_fields (projects : list Project) (updates : TaskUpdates) :
  let v := validated projects updates in
  upd_title v = upd_title updates
  /\ upd_description v = upd_description updates
  /\ upd_completed v = upd_completed updates
  /\ upd_status v = upd_status updates
  /\ upd_priority v = upd_priority updates
  /\ upd_dueDate v = upd_dueDate updates
  /\ upd_tags v = upd_tags updates.
Proof.
  unfold validated.
  destruct (upd_projectId updates) as [[pid |] |]; cbn; auto 10.
  destruct (_ && _); cbn; auto 10.
Qed.

Lemma validated_no_projectId (projects : list Project) (updates : TaskUpdates) :
  upd_projectId updates = None -> validated projects updates = updates.
Proof. intros H. unfold validated. rewrite H. reflexivity. Qed.

Lemma spread_consistent (task : Task) (updates : TaskUpdates) (now : Z)
    (projects : list Project) :
  consistent task -> reconciled updates ->
  consistent (spread task (validated projects updates) now).
Proof.
  unfold consistent, reconciled, spread. cbn.
  destruct (validated_other_fields projects updates)
    as (_ & _ & -> & -> & _).
  destruct (upd_completed updates), (upd_status updates); cbn; tauto.
Qed.

Lemma updateTask_tasks (taskId : string) (updates : TaskUpdates) (w : World) :
  todoapp_tasks (snd (TaskStorageService.updateTask taskId updates w))
  = todoapp_tasks w
  \/ exists i task n projects,
       findIndex (hasId taskId) (todoapp_tasks w) = Some i
       /\ nth_error (todoapp_tasks w) i = Some task
       /\ todoapp_tasks (snd (TaskStorageService.updateTask taskId updates w))
          = array_set (todoapp_tasks w) i
              (spread task (validated projects updates) (clock n)).
Proof.
  destruct (findIndex (hasId taskId) (todoapp_tasks w)) as [i |] eqn:Hi.
  - right. destruct (findIndex_Some _ _ _ Hi) as (task & Hn & _).
    pose proof (updateTask_post taskId updates w i task Hi Hn) as H.
    unfold wp in H. destruct H as (n & _ & Hts & _).
    exists i, task, n. eexists. repeat split; eauto.
  - left. apply findIndex_None in Hi.
    rewrite updateTask_unknown by exact Hi. reflexivity.
Qed.

Lemma Forall_nth_error {A} (P : A -> Prop) (l : list A) (i : nat) (x : A) :
  Forall P l -> nth_error l i = Some x -> P x.
Proof.
  intros Hl Hx. apply nth_error_In in Hx.
  rewrite Forall_forall in Hl. auto.
Qed.

Lemma updateTask_consistent (taskId : string) (updates : TaskUpdates)
    (w : World) :
  Forall consistent (todoapp_tasks w) -> reconciled updates ->
  Forall consistent
    (todoapp_tasks (snd (TaskStorageService.updateTask taskId updates w))).
Proof.
  intros Hw Hu.
  destruct (updateTask_tasks taskId updates w)
    as [-> | (i & task & n & ps & _ & Hn & ->)]; [exact Hw |].
  apply Forall_array_set; [exact Hw |].
  apply spread_consistent; [| exact Hu].
  exact (Forall_nth_error _ _ _ _ Hw Hn).
Qed.

Lemma toggleTask_consistent (taskId : string) (w : World) :
  Forall consistent (todoapp_tasks w) ->
  Forall consistent (todoapp_tasks (snd (TaskStorageService.toggleTask taskId w))).
Proof.
  intros Hw. unfold TaskStorageService.toggleTask, bind. cbn.
  destruct (find _ (todoapp_tasks w)) as [task |]; [| exact Hw].
  apply updateTask_consistent; [exact Hw |].
  unfold reconciled. cbn. destruct (task_completed task); cbn; split; congruence.
Qed.

(** C1, as the code has it.  If every stored task satisfies
    [completed = true <-> status = completed], then so does every stored
    task after [addTask], [deleteTask], [toggleTask] and
    [clearCompletedTasks], and after [updateTask] when the updates leave
    both fields alone or set both in agreement; [updateTask] merges the
    fields it is given and reconciles nothing. *)
Theorem completed_status_invariant (w : World) :
  Forall consistent (todoapp_tasks w) ->
  (forall input,
     Forall consistent (todoapp_tasks (snd (TaskStorageService.addTask input w))))
  /\ (forall taskId,
        Forall consistent
          (todoapp_tasks (snd (TaskStorageService.deleteTask taskId w))))
  /\ (forall taskId,
        Forall consistent
          (todoapp_tasks (snd (TaskStorageService.toggleTask taskId w))))
  /\ Forall consistent
       (todoapp_tasks (snd (TaskStorageService.clearCompletedTasks w)))
  /\ (forall taskId updates,
        reconciled updates ->
        Forall consistent
          (todoapp_tasks (snd (TaskStorageService.updateTask taskId updates w)))).
Proof.
  intros Hw. split; [| split; [| split; [| split]]].
  - intros input. pose proof (addTask_post input w) as H. unfold wp in H.
    destruct H as (-> & _ & _ & _ & Hc & Hs & _).
    apply Forall_app. split; [exact Hw |]. constructor; [| constructor].
    unfold consistent. rewrite Hc, Hs. split; discriminate.
  - intros taskId. unfold TaskStorageService.deleteTask, bind. cbn.
    destruct (_ =? _); cbn; [exact Hw |].
    rewrite Forall_forall in *. intros t Ht. apply filter_In in Ht.
    apply Hw. tauto.
  - intros taskId. apply toggleTask_consistent. exact Hw.
  - cbn. rewrite Forall_forall in *. intros t Ht. apply filter_In in Ht.
    apply Hw. tauto.
  - intros taskId updates Hu. apply updateTask_consistent; assumption.
Qed.

End Invariant.

(** The invariant at work on a stored task. *)
Lemma completed_status_invariant_witness :
  let w := sample_world [sample_task "t1" "Write report" IN_PROGRESS HIGH None None]
                        [personal] in
  Forall consistent
    (todoapp_tasks (snd (@TaskStorageService.toggleTask sample_env "t1" w))).
Proof.
  intros w.
  refine (proj1 (proj2 (proj2 (@completed_status_invariant sample_env w _))) "t1").
  subst w. cbn. constructor; [| constructor].
  unfold consistent. cbn. split; discriminate.
Defined.

(** C1 as stated fails for [updateTask]: setting [status] alone leaves
    [completed] as it was. *)
Lemma updateTask_status_alone :
  let w := sample_world [sample_task "t1" "Write report" TODO HIGH None None]
                        [personal] in
  let updates := mkTaskUpdates None None None (Some COMPLETED) None None None
                               None None in
  Forall consistent (todoapp_tasks w)
  /\ ~ Forall consistent
         (todoapp_tasks
            (snd (@TaskStorageService.updateTask sample_env "t1" updates w))).
Proof.
  cbn. split.
  - constructor; [| constructor]. unfold consistent. cbn. split; discriminate.
  - intros H. inversion H as [| t l Ht _]; subst.
    unfold consistent in Ht. cbn in Ht. destruct Ht as [_ Ht].
    specialize (Ht eq_refl). discriminate.
Qed.

(** ** Toggling twice *)

Section Toggle.
Context {env : Environment}.

Lemma toggleTask_post (taskId : string) (w : World) (task : Task) :
  find (hasId taskId) (todoapp_tasks w) = Some task ->
  exists i,
    let toggled :=
      mkTask (task_id task) (task_title task) (task_description task)
             (negb (task_completed task))
             (toggled_status (negb (task_completed task)))
             (task_priority task) (task_projectId task) (task_dueDate task)
             (task_createdAt task) (clock (clock_reads w)) (task_tags task) in
    findIndex (hasId taskId) (todoapp_tasks w) = Some i
    /\ TaskStorageService.toggleTask taskId w
       = (Some toggled,
          mkWorld (array_set (todoapp_tasks w) i toggled) (todoapp_projects w)
                  (S (clock_reads w)) (random_draws w)).
Proof.
  intros Hf. destruct (find_findIndex _ _ _ Hf) as (i & Hi & Hn).
  exists i. cbv zeta. split; [exact Hi |].
  unfold TaskStorageService.toggleTask, bind. cbn [TaskStorageService.getTasks].
  unfold hasId in Hf, Hi. rewrite Hf.
  unfold TaskStorageService.updateTask, bind. cbn [TaskStorageService.getTasks].
  rewrite Hi. cbn [upd_projectId ret]. rewrite Hn. reflexivity.
Qed.

(** C2, as the code has it.  Toggling a stored task twice returns and
    stores the original record with a new [updatedAt] and with the status
    [toggleTask] gives to its [completed] value: [completed] for a completed
    task, [todo] otherwise.  So id, title, description, completed, priority,
    projectId, dueDate, tags and createdAt are restored, and the record
    equals the original in every field except [updatedAt] when the original
    status was the one that goes with its [completed] value. *)
Theorem toggleTask_twice (taskId : string) (w : World) (task : Task) :
  find (hasId taskId) (todoapp_tasks w) = Some task ->
  let w1 := snd (TaskStorageService.toggleTask taskId w) in
  let result := fst (TaskStorageService.toggleTask taskId w1) in
  let w2 := snd (TaskStorageService.toggleTask taskId w1) in
  let restored :=
    with_updatedAt (with_status task (toggled_status (task_completed task)))
                   (clock (S (clock_reads w))) in
  result = Some restored
  /\ find (hasId taskId) (todoapp_tasks w2) = Some restored
  /\ (task_status task = toggled_status (task_completed task) ->
      same_except_updatedAt task restored).
Proof.
  intros Hf. cbv zeta.
  destruct (toggleTask_post taskId w task Hf) as (i & Hi & Heq).
  rewrite Heq. cbn [snd].
  assert (Hid : hasId taskId task = true) by (apply find_some in Hf; tauto).
  match type of Heq with
  | _ = (Some ?t, _) => set (toggled := t) in *
  end.
  assert (Hid' : hasId taskId toggled = true) by exact Hid.
  destruct (findIndex_array_set _ _ _ toggled Hi Hid') as [Hi1 Hn1].
  set (w1 := mkWorld _ _ _ _).
  assert (Hf1 : find (hasId taskId) (todoapp_tasks w1) = Some toggled).
  { destruct (findIndex_Some _ _ _ Hi1) as (x & Hx & _ & Hfx).
    cbn in Hx. rewrite Hn1 in Hx. inversion Hx; subst x. exact Hfx. }
  destruct (toggleTask_post taskId w1 toggled Hf1) as (j & Hj & Heq1).
  rewrite Heq1. cbn [fst snd].
  subst toggled. cbn [task_completed task_id task_title task_description
                      task_priority task_projectId task_dueDate task_createdAt
                      task_tags w1 clock_reads todoapp_tasks] in *.
  rewrite negb_involutive.
  unfold with_updatedAt, with_status. cbn.
  split; [reflexivity |]. split.
  - rewrite Hi1 in Hj. inversion Hj; subst j.
    match goal with
    | |- find _ (array_set _ _ ?t) = _ =>
        assert (Ht : hasId taskId t = true) by exact Hid;
        destruct (findIndex_array_set _ _ _ t Hi1 Ht) as [Hi2 Hn2];
        destruct (findIndex_Some _ _ _ Hi2) as (x & Hx & _ & Hfx)
    end.
    rewrite Hn2 in Hx. inversion Hx; subst x. exact Hfx.
  - intros Hs. unfold same_except_updatedAt, with_updatedAt. cbn.
    rewrite <- Hs. reflexivity.
Qed.

End Toggle.

Lemma toggleTask_twice_witness :
  let w := sample_world [sample_task "t1" "Write report" TODO HIGH None None]
                        [personal] in
  let w1 := snd (@TaskStorageService.toggleTask sample_env "t1" w) in
  exists restored,
    fst (@TaskStorageService.toggleTask sample_env "t1" w1) = Some restored
    /\ same_except_updatedAt
         (sample_task "t1" "Write report" TODO HIGH None None) restored.
Proof.
  intros w w1.
  destruct (@toggleTask_twice sample_env "t1" w
              (sample_task "t1" "Write report" TODO HIGH None None) eq_refl)
    as (Hr & _ & Hs).
  eexists. split; [exact Hr | exact (Hs eq_refl)].
Defined.

(** C2 as stated fails for a task in progress: it comes back as [todo]. *)
Lemma toggleTask_twice_in_progress :
  let w := sample_world [draft] [personal] in
  let w1 := snd (@TaskStorageService.toggleTask sample_env "t1" w) in
  exists restored,
    fst (@TaskStorageService.toggleTask sample_env "t1" w1) = Some restored
    /\ task_status restored = TODO
    /\ ~ same_except_updatedAt draft restored.
Proof.
  cbn. eexists. split; [reflexivity |]. split; [reflexivity |].
  unfold same_except_updatedAt. cbn. discriminate.
Qed.

(** ** Titles and projects of new and updated tasks *)

Section CreateAndUpdate.
Context {env : Environment}.

(** C6, as the code has it.  Neither [addTask] looks at the title: for
    every input, the empty title included, a task with the input's title
    is returned and appended to the collection. *)
Theorem addTask_accepts_any_title (input : CreateTaskInput) (w : World) :
  (let (task, w') := TaskStorageService.addTask input w in
   task_title task = in_title input
   /\ todoapp_tasks w' = todoapp_tasks w ++ [task])
  /\ (let (task, w') := TaskStorageService2.addTask input w in
      task_title task = in_title input
      /\ todoapp_tasks w' = todoapp_tasks w ++ [task]).
Proof.
  split.
  - apply wp_run. eapply wp_mono; [apply addTask_post |].
    cbv beta. intros task w' H. tauto.
  - cbn. auto.
Qed.

(** A new task whose input names no project, or a project that is not
    stored, is filed under the default project. *)
Lemma addTask_default_project (input : CreateTaskInput) (w : World) :
  in_projectId input = None
  \/ (exists pid,
        in_projectId input = Some pid
        /\ existsb (fun p => String.eqb (project_id p) pid)
                   (todoapp_projects w) = false) ->
  let (task, w') := TaskStorageService.addTask input w in
  task_projectId task
  = option_map project_id (find isDefault (todoapp_projects w')).
Proof.
  intros H. apply wp_run. eapply wp_mono; [apply addTask_post |].
  cbv beta. intros task w' (_ & _ & _ & _ & _ & _ & Hp). apply Hp.
  destruct H as [-> | H]; [left; reflexivity | right; exact H].
Qed.

(** An update whose [projectId] is a non-empty string that no stored
    project carries files the task under the default project. *)
Lemma updateTask_default_project (taskId pid : string) (updates : TaskUpdates)
    (w : World) (task : Task) :
  find (hasId taskId) (todoapp_tasks w) = Some task ->
  upd_projectId updates = Some (Some pid) ->
  truthy_string pid = true ->
  existsb (fun p => String.eqb (project_id p) pid) (todoapp_projects w) = false ->
  let (result, w') := TaskStorageService.updateTask taskId updates w in
  exists updated,
    result = Some updated
    /\ find (hasId taskId) (todoapp_tasks w') = Some updated
    /\ task_projectId updated
       = option_map project_id (find isDefault (todoapp_projects w')).
Proof.
  intros Hf Hu Ht Hno.
  destruct (find_findIndex _ _ _ Hf) as (i & Hi & Hn).
  apply wp_run. eapply wp_mono; [apply (updateTask_post _ _ _ i task Hi Hn) |].
  cbv beta. intros result w' (n & Hr & Hts & Hread & _).
  eexists. split; [exact Hr |]. split.
  - rewrite Hts.
    assert (Hid : hasId taskId task = true) by (apply find_some in Hf; tauto).
    match goal with
    | |- find _ (array_set _ _ ?t) = _ =>
        assert (Hid' : hasId taskId t = true) by exact Hid;
        destruct (findIndex_array_set _ _ _ t Hi Hid') as [Hi2 Hn2];
        destruct (findIndex_Some _ _ _ Hi2) as (x & Hx & _ & Hfx)
    end.
    rewrite Hn2 in Hx. inversion Hx; subst x. exact Hfx.
  - unfold spread, validated. cbn [task_projectId]. rewrite Hu, Ht.
    cbn [andb].
    destruct (existsb _ (todoapp_projects w')) eqn:Hex; cbn [negb].
    + rewrite Hu. cbn [override].
      destruct Hread as [Hsame | (_ & d & Hd & Hdef)].
      * rewrite Hsame in Hex. congruence.
      * rewrite Hd in Hex |- *. cbn in Hex |- *. rewrite Hdef. cbn.
        rewrite orb_false_r in Hex. apply String.eqb_eq in Hex. congruence.
    + reflexivity.
Qed.

End CreateAndUpdate.

(** C6 as stated fails: the empty title is stored. *)
Lemma addTask_empty_title :
  let input := mkCreateTaskInput "" None None None None None in
  let w := sample_world [] [personal] in
  let (task, w') := @TaskStorageService.addTask sample_env input w in
  task_title task = "" /\ todoapp_tasks w' = [task].
Proof. cbn. split; reflexivity. Qed.

(** C7 at an update to the empty project id: no stored project carries
    it, and it is stored as it is, while [addTask] files the same input
    under the default project. *)
Theorem updateTask_empty_projectId :
  let w := sample_world
             [sample_task "t1" "Write report" TODO HIGH
                          (Some (project_id work)) None]
             [personal; work] in
  let updates := mkTaskUpdates None None None None None (Some (Some ""))
                               None None None in
  existsb (fun p => String.eqb (project_id p) "") (todoapp_projects w) = false
  /\ (let (result, w') :=
        @TaskStorageService.updateTask sample_env "t1" updates w in
      option_map task_projectId result = Some (Some "")
      /\ option_map task_projectId (find (hasId "t1") (todoapp_tasks w'))
         = Some (Some "")
      /\ option_map project_id (find isDefault (todoapp_projects w'))
         = Some (project_id personal))
  /\ (let (task, w') :=
        @TaskStorageService.addTask sample_env
          (mkCreateTaskInput "Write report" None None (Some "") None None) w in
      task_projectId task = Some (project_id personal)).
Proof. cbn. repeat split; reflexivity. Qed.

(** ** Deleting a project *)

Section DeleteProject.
Context {env : Environment}.

Lemma reassigned_wider (pid target : string) (a b a' b' : nat) (t t' : Task) :
  (a' <= a)%nat -> (b <= b')%nat ->
  reassigned pid target a b t t' -> reassigned pid target a' b' t t'.
Proof.
  unfold reassigned. intros Ha Hb.
  destruct (strict_eq _ _); [| auto].
  intros (n & Hn & ->). exists n. split; [lia | reflexivity].
Qed.

Lemma move_all_post (pid target : string) (tasks : list Task) (w : World) :
  wp (mapM (fun task =>
              if strict_eq (task_projectId task) pid
              then now <- newDate ;; ret (move_task task target now)
              else ret task) tasks) w
     (fun tasks' w' =>
        Forall2 (reassigned pid target (clock_reads w) (clock_reads w'))
                tasks tasks'
        /\ todoapp_tasks w' = todoapp_tasks w
        /\ todoapp_projects w' = todoapp_projects w
        /\ (clock_reads w <= clock_reads w')%nat).
Proof.
  revert w. induction tasks as [| t tasks IH]; intros w; cbn [mapM].
  - apply wp_ret. repeat split; auto.
  - apply wp_bind.
    apply wp_mono with
      (P := fun t' w1 =>
              reassigned pid target (clock_reads w) (clock_reads w1) t t'
              /\ todoapp_tasks w1 = todoapp_tasks w
              /\ todoapp_projects w1 = todoapp_projects w
              /\ (clock_reads w <= clock_reads w1)%nat).
    { unfold reassigned. destruct (strict_eq (task_projectId t) pid).
      - unfold wp. cbn. repeat split; auto.
        exists (clock_reads w). split; [lia | reflexivity].
      - apply wp_ret. repeat split; auto. }
    intros t' w1 (Ht & Hts & Hps & Hle).
    wp_step IH. intros tasks' w2 (Hall & Hts2 & Hps2 & Hle2).
    apply wp_ret. repeat split; try congruence; try lia.
    constructor.
    + apply (reassigned_wider _ _ _ _ _ _ _ _ (le_n _) Hle2 Ht).
    + eapply Forall2_impl; [| exact Hall].
      intros a b. apply reassigned_wider; lia.
Qed.

Lemma nothing_to_move (pid target : string) (a b : nat) (tasks : list Task) :
  filter (fun task => strict_eq (task_projectId task) pid) tasks = [] ->
  Forall2 (reassigned pid target a b) tasks tasks.
Proof.
  induction tasks as [| t tasks IH]; cbn; intros H; constructor.
  - unfold reassigned. destruct (strict_eq (task_projectId t) pid);
      [discriminate | reflexivity].
  - apply IH. destruct (strict_eq (task_projectId t) pid);
      [discriminate | exact H].
Qed.

(** [handleProjectDeletion] when projects are stored. *)
Lemma handleProjectDeletion_post (pid : string) (w : World) :
  todoapp_projects w <> [] ->
  wp (TaskStorageService.handleProjectDeletion pid) w
     (fun success w' =>
        todoapp_projects w' = todoapp_projects w
        /\ match find isDefault (todoapp_projects w) with
           | None => success = false /\ todoapp_tasks w' = todoapp_tasks w
           | Some d =>
               success = true
               /\ Forall2 (reassigned pid (project_id d)
                                      (clock_reads w) (clock_reads w'))
                          (todoapp_tasks w) (todoapp_tasks w')
           end).
Proof.
  intros Hne. unfold TaskStorageService.handleProjectDeletion.
  apply wp_bind. unfold wp at 1. rewrite (getDefaultProject_stored w Hne).
  cbn [fst snd].
  destruct (find isDefault (todoapp_projects w)) as [d |].
  - apply wp_bind. unfold wp at 1. cbn [TaskStorageService.getTasks fst snd].
    destruct (filter _ (todoapp_tasks w)) as [| t0 rest] eqn:Hfilter.
    + apply wp_ret. repeat split; auto. apply nothing_to_move. exact Hfilter.
    + cbn [List.length]. rewrite Nat2Z.inj_succ.
      destruct (Z.eqb_spec (Z.succ (Z.of_nat (List.length rest))) 0); [lia |].
      wp_step move_all_post. intros tasks' w1 (Hall & Hts & Hps & Hle).
      unfold wp. cbn. repeat split; auto.
  - apply wp_ret. auto.
Qed.

Lemma deleteProject_stored (pid : string) (w : World) :
  todoapp_projects w <> [] ->
  ProjectStorageService.deleteProject pid w
  = match find (fun p => String.eqb (project_id p) pid) (todoapp_projects w) with
    | None => (false, w)
    | Some project =>
        if isDefault project then (false, w)
        else (true,
              mkWorld (todoapp_tasks w)
                      (filter (fun p => negb (String.eqb (project_id p) pid))
                              (todoapp_projects w))
                      (clock_reads w) (random_draws w))
    end.
Proof.
  intros Hne. unfold ProjectStorageService.deleteProject, bind.
  rewrite (getProjects_stored w Hne).
  destruct (find _ (todoapp_projects w)) as [p |]; [| reflexivity].
  destruct (isDefault p); reflexivity.
Qed.

(** Deleting a stored project that is not the default one, when a default
    project with another id is stored: the tasks of the deleted project go
    to the default project with a new [updatedAt], the other tasks are
    untouched, the project is removed, and tasks that named stored projects
    still do. *)
Lemma deleteProject_reassigns (pid : string) (w : World) (project d : Project) :
  find (fun p => String.eqb (project_id p) pid) (todoapp_projects w)
  = Some project ->
  isDefault project = false ->
  find isDefault (todoapp_projects w) = Some d ->
  project_id d <> pid ->
  let (deleted, w') := useProjects.deleteProject pid w in
  deleted = true
  /\ todoapp_projects w'
     = filter (fun p => negb (String.eqb (project_id p) pid))
              (todoapp_projects w)
  /\ Forall2 (reassigned pid (project_id d) (clock_reads w) (clock_reads w'))
             (todoapp_tasks w) (todoapp_tasks w')
  /\ (references_stored (todoapp_tasks w) (todoapp_projects w) ->
      references_stored (todoapp_tasks w') (todoapp_projects w')).
Proof.
  intros Hp Hnd Hd Hneq.
  assert (Hne : todoapp_projects w <> [])
    by (intros E; rewrite E in Hd; discriminate).
  apply wp_run. unfold useProjects.deleteProject.
  wp_step (handleProjectDeletion_post pid w Hne).
  rewrite Hd. intros success w1 (Hps & -> & Hall). cbn [negb].
  apply wp_bind. unfold wp at 1.
  assert (Hne1 : todoapp_projects w1 <> []) by congruence.
  rewrite (deleteProject_stored pid w1 Hne1), Hps, Hp, Hnd.
  cbn [fst snd]. apply wp_ret. cbn [todoapp_projects todoapp_tasks clock_reads].
  split; [reflexivity |]. split; [reflexivity |]. split; [exact Hall |].
  intros Href t' q Hin Hq.
  apply existsb_exists.
  assert (Hstays : forall q', q' <> pid ->
            existsb (fun p => String.eqb (project_id p) q') (todoapp_projects w)
            = true ->
            exists x, In x (filter (fun p => negb (String.eqb (project_id p) pid))
                                   (todoapp_projects w))
                      /\ String.eqb (project_id x) q' = true).
  { intros q' Hq' Hex. apply existsb_exists in Hex. destruct Hex as (x & Hx & Hxq).
    exists x. split; [| exact Hxq]. apply filter_In. split; [exact Hx |].
    apply String.eqb_eq in Hxq. apply negb_true_iff. apply String.eqb_neq.
    congruence. }
  destruct (Forall2_in_right _ _ _ t' Hall Hin) as (t & Ht & Hrel).
  unfold reassigned in Hrel. unfold strict_eq in Hrel.
  destruct (task_projectId t) as [tp |] eqn:Htp.
  - destruct (String.eqb_spec tp pid) as [-> | Hne'].
    + destruct Hrel as (n & _ & ->). cbn in Hq. inversion Hq; subst q.
      apply Hstays; [exact Hneq |]. apply default_exists. exact Hd.
    + subst t'. rewrite Htp in Hq. inversion Hq; subst q.
      apply Hstays; [exact Hne' |]. apply (Href t); assumption.
  - subst t'. congruence.
Qed.

(** Deleting the default project is refused and the project list is left
    alone; the tasks keep every field except [updatedAt]. *)
Lemma deleteProject_default (pid : string) (w : World) (project : Project) :
  find (fun p => String.eqb (project_id p) pid) (todoapp_projects w)
  = Some project ->
  find isDefault (todoapp_projects w) = Some project ->
  let (deleted, w') := useProjects.deleteProject pid w in
  deleted = false
  /\ todoapp_projects w' = todoapp_projects w
  /\ Forall2 same_except_updatedAt (todoapp_tasks w) (todoapp_tasks w').
Proof.
  intros Hp Hd.
  assert (Hne : todoapp_projects w <> [])
    by (intros E; rewrite E in Hp; discriminate).
  assert (Hdef : isDefault project = true) by (apply find_some in Hd; tauto).
  assert (Hid : project_id project = pid)
    by (apply find_some in Hp; apply String.eqb_eq; tauto).
  apply wp_run. unfold useProjects.deleteProject.
  wp_step (handleProjectDeletion_post pid w Hne).
  rewrite Hd. intros success w1 (Hps & -> & Hall). cbn [negb].
  apply wp_bind. unfold wp at 1.
  assert (Hne1 : todoapp_projects w1 <> []) by congruence.
  rewrite (deleteProject_stored pid w1 Hne1), Hps, Hp, Hdef.
  cbn [fst snd]. apply wp_ret.
  split; [reflexivity |]. split; [exact Hps |].
  eapply Forall2_impl; [| exact Hall].
  intros t t'. unfold reassigned.
  destruct (strict_eq (task_projectId t) pid) eqn:Hs.
  - intros (n & _ & ->).
    unfold same_except_updatedAt, with_updatedAt, move_task. cbn.
    unfold strict_eq in Hs.
    destruct (task_projectId t) as [tp |] eqn:Htp; [| discriminate].
    apply String.eqb_eq in Hs. subst tp. rewrite Hid. reflexivity.
  - intros ->. destruct t; reflexivity.
Qed.

End DeleteProject.

(** C3 at the default project.  [deleteProject] reassigns before
    [ProjectStorageService.deleteProject] refuses: the project list is
    unchanged and the result is [false], but the task of the default
    project has been stored again with a new [updatedAt]. *)
Theorem deleteProject_default_touches_tasks :
  let w := sample_world
             [sample_task "t1" "Write report" TODO HIGH
                          (Some (project_id personal)) None;
              sample_task "t2" "Book flights" TODO LOW
                          (Some (project_id work)) None]
             [personal; work] in
  let (deleted, w') :=
    @useProjects.deleteProject sample_env (project_id personal) w in
  deleted = false
  /\ todoapp_projects w' = todoapp_projects w
  /\ map task_updatedAt (todoapp_tasks w) = [1695000000000; 1695000000000]
  /\ map task_updatedAt (todoapp_tasks w') = [1700000000000; 1695000000000]
  /\ todoapp_tasks w' <> todoapp_tasks w.
Proof. cbn. repeat split. discriminate. Qed.

(** ** Statistics *)

Section Statistics.
Context {env : Environment} {cal : Calendar}.

Lemma counts_completed (tasks : list Task) :
  counts (fun task => task_completed task = true) tasks
         (count (fun task => task_completed task) tasks).
Proof. exists (fun task => task_completed task). split; [tauto | reflexivity]. Qed.

Lemma counts_highPriority (tasks : list Task) :
  counts (fun task => task_priority task = HIGH /\ task_completed task = false)
         tasks
         (count (fun task => TaskPriority_eqb (task_priority task) HIGH
                             && negb (task_completed task)) tasks).
Proof.
  eexists. split; [| reflexivity]. intros task. cbv beta.
  rewrite andb_true_iff, negb_true_iff.
  destruct (task_priority task); cbn; intuition congruence.
Qed.

Lemma counts_overdue (limit : Z) (tasks : list Task) :
  counts (OverdueAt limit) tasks
         (count (fun task =>
                   match task_dueDate task with
                   | Some dueDate => (dueDate <? limit) && negb (task_completed task)
                   | None => false
                   end) tasks).
Proof.
  eexists. split; [| reflexivity]. intros task. cbv beta. unfold OverdueAt.
  destruct (task_dueDate task) as [due |].
  - rewrite andb_true_iff, negb_true_iff, Z.ltb_lt. split.
    + intros [H1 H2]. exists due. auto.
    + intros (d & Hd & H1 & H2). inversion Hd; subst d. auto.
  - split; [discriminate | intros (d & Hd & _); discriminate].
Qed.

Lemma counts_ext (P Q : Task -> Prop) (tasks : list Task) (n : Z) :
  (forall task, P task <-> Q task) -> counts P tasks n -> counts Q tasks n.
Proof.
  intros H (p & Hp & Hn). exists p. split; [| exact Hn].
  intros task. rewrite Hp. apply H.
Qed.

Lemma aggregates_code (Overdue : Task -> Prop) (limit : Z) (tasks : list Task) :
  (forall task, OverdueAt limit task <-> Overdue task) ->
  aggregates Overdue tasks
    (mkTaskStats
       (Z.of_nat (List.length tasks))
       (count (fun task => task_completed task) tasks)
       (count (fun task => negb (task_completed task)) tasks)
       (count (fun task =>
                 match task_dueDate task with
                 | Some dueDate => (dueDate <? limit) && negb (task_completed task)
                 | None => false
                 end) tasks)
       (count (fun task => TaskPriority_eqb (task_priority task) HIGH
                           && negb (task_completed task)) tasks)).
Proof.
  intros H. unfold aggregates. cbn.
  split; [reflexivity |]. split; [apply counts_completed |].
  split; [apply count_complement |].
  split; [| apply counts_highPriority].
  apply (counts_ext _ _ _ _ H). apply counts_overdue.
Qed.

(** Today is the calendar day of [now], unless [now] lies in one of the
    years 0 to 99. *)
Lemma OverdueByDay_modern (now : Z) (task : Task) :
  twoDigitYear now = false ->
  (OverdueByDay now task <->
   exists due, task_dueDate task = Some due
               /\ dayNumber due < dayNumber now
               /\ task_completed task = false).
Proof.
  intros H. unfold OverdueByDay.
  rewrite (startOfDay_modern now H), dayNumber_dayStart. reflexivity.
Qed.

(** C4, as the code has it.  Over the stored tasks (all of them, or
    those of one project) [getTaskStats] and [getTaskStatsByProject] return
    the number of tasks, the number of completed ones, their difference as
    pending, the number of open tasks with a due date strictly earlier than
    the instant [now], and the number of open high priority tasks.  The
    [stats] of the hook returns the same figures over the tasks it holds,
    except that its overdue figure counts the open tasks whose due date
    lies on a calendar day before today, the day [new Date(y, m, d)] falls
    on for the date of [now]: the calendar day of [now]
    ([OverdueByDay_modern]). *)
Theorem task_statistics (w : World) (projectId : string) (held : list Task) :
  let now := clock (clock_reads w) in
  aggregates (OverdueAt now) (todoapp_tasks w)
             (fst (TaskStorageService.getTaskStats w))
  /\ aggregates (OverdueAt now)
                (filter (fun task => strict_eq (task_projectId task) projectId)
                        (todoapp_tasks w))
                (fst (TaskStorageService.getTaskStatsByProject projectId w))
  /\ aggregates (OverdueByDay now) held (fst (useTasks.stats held w)).
Proof.
  cbv zeta. split; [| split].
  - apply aggregates_code. tauto.
  - apply aggregates_code. tauto.
  - apply aggregates_code. intros task. unfold OverdueAt, OverdueByDay.
    split; intros (due & Hd & Hlt & Hc); exists due; repeat split; auto;
      apply before_startOfDay; exact Hlt.
Qed.

End Statistics.

(** C4 as stated fails for the [stats] of the hook: a task due earlier
    today is overdue by instant and is not counted. *)
Lemma stats_overdue_same_day :
  let w := sample_world [] [personal] in
  let now := @clock sample_env (clock_reads w) in
  let held := [sample_task "t1" "Write report" TODO HIGH None
                           (Some 1699999999999)] in
  ~ aggregates (OverdueAt now) held
      (fst (@useTasks.stats sample_env UTC held w)).
Proof.
  cbv zeta. intros (_ & _ & _ & (p & Hp & Hn) & _).
  assert (Hover : p (sample_task "t1" "Write report" TODO HIGH None
                                 (Some 1699999999999)) = true).
  { apply Hp. exists 1699999999999. cbn. repeat split; reflexivity. }
  change (overdue (fst (@useTasks.stats sample_env UTC _ _))) with 0 in Hn.
  unfold count in Hn. cbn [filter] in Hn. rewrite Hover in Hn.
  discriminate.
Qed.

(** ** Sorting *)

Section SortFacts.
Context {A : Type} (compare : A -> A -> Z).

Lemma insert_perm (x : A) (l : list A) :
  Permutation (insert compare x l) (x :: l).
Proof.
  induction l as [| y l IH]; cbn.
  - apply Permutation_refl.
  - destruct (compare x y <=? 0).
    + apply Permutation_refl.
    + eapply Permutation_trans; [apply perm_skip; exact IH | apply perm_swap].
Qed.

Lemma Array_sort_perm (l : list A) : Permutation (Array_sort compare l) l.
Proof.
  induction l as [| x l IH]; cbn.
  - apply Permutation_refl.
  - eapply Permutation_trans; [apply insert_perm | apply perm_skip; exact IH].
Qed.

Section Stable.
(** An element that ties with [x] is not strictly below [x]. *)
Hypothesis ties_above :
  forall t x y, compare t x = 0 -> 0 < compare x y -> compare t y <> 0.

Lemma insert_stable (t x : A) (l : list A) :
  filter (ties compare t) (insert compare x l)
  = filter (ties compare t) (x :: l).
Proof.
  induction l as [| y l IH]; cbn [insert].
  - reflexivity.
  - destruct (Z.leb_spec (compare x y) 0) as [Hle | Hgt]; [reflexivity |].
    cbn [filter] in *. rewrite IH.
    destruct (ties compare t x) eqn:Htx; [| reflexivity].
    unfold ties in Htx. apply Z.eqb_eq in Htx.
    pose proof (ties_above t x y Htx Hgt) as Hty.
    apply Z.eqb_neq in Hty. fold (ties compare t y) in Hty. rewrite Hty.
    reflexivity.
Qed.

Lemma Array_sort_stable (t : A) (l : list A) :
  filter (ties compare t) (Array_sort compare l) = filter (ties compare t) l.
Proof.
  induction l as [| x l IH]; cbn [Array_sort fold_right].
  - reflexivity.
  - fold (Array_sort compare l). rewrite insert_stable. cbn [filter].
    rewrite IH. reflexivity.
Qed.

End Stable.

Section Sorted.
Hypothesis total : forall x y, 0 < compare x y -> compare y x <= 0.
Hypothesis trans :
  forall x y z, compare x y <= 0 -> compare y z <= 0 -> compare x z <= 0.

Lemma insert_sorted (x : A) (l : list A) :
  StronglySorted (fun a b => compare a b <= 0) l ->
  StronglySorted (fun a b => compare a b <= 0) (insert compare x l).
Proof.
  induction 1 as [| y l Hs IH Hy]; cbn [insert].
  - constructor; constructor.
  - destruct (Z.leb_spec (compare x y) 0) as [Hle | Hgt].
    + constructor; [constructor; assumption |].
      constructor; [exact Hle |].
      eapply Forall_impl; [| exact Hy]. intros z Hz. eapply trans; eauto.
    + constructor; [exact IH |].
      apply (Permutation_Forall (Permutation_sym (insert_perm x l))).
      constructor; [apply total; exact Hgt | exact Hy].
Qed.

Lemma Array_sort_sorted (l : list A) :
  StronglySorted (fun a b => compare a b <= 0) (Array_sort compare l).
Proof.
  induction l as [| x l IH]; cbn.
  - constructor.
  - apply insert_sorted. exact IH.
Qed.

End Sorted.

Section Unique.
Hypothesis refl : forall x, compare x x = 0.
Hypothesis antisym : forall x y, compare y x = - compare x y.

Lemma ties_head (x : A) (l l' : list A) :
  In x l' -> filter (ties compare x) l = [] ->
  filter (ties compare x) l' <> filter (ties compare x) l.
Proof.
  intros Hin Hnil Heq. rewrite Hnil in Heq.
  assert (H : In x (filter (ties compare x) l')).
  { apply filter_In. split; [exact Hin |]. unfold ties. rewrite refl.
    reflexivity. }
  rewrite Heq in H. contradiction.
Qed.

(** Two lists in the order of the comparator in which every class of
    tied elements appears in the same order are the same list: a stable
    sort has one possible result. *)
Lemma stable_sorted_unique (l1 l2 : list A) :
  StronglySorted (fun a b => compare a b <= 0) l1 ->
  StronglySorted (fun a b => compare a b <= 0) l2 ->
  (forall t, filter (ties compare t) l1 = filter (ties compare t) l2) ->
  l1 = l2.
Proof.
  intros H1. revert l2.
  induction H1 as [| x l1 Hs1 IH Hx]; intros l2 H2 Hties.
  - destruct l2 as [| y l2]; [reflexivity |].
    exfalso. apply (ties_head y [] (y :: l2)); [left | | symmetry]; auto.
  - destruct l2 as [| y l2].
    + exfalso. apply (ties_head x [] (x :: l1)); [left | |]; auto.
    + inversion H2 as [| y' l2' Hs2 Hy]; subst.
      assert (Hxx : ties compare x x = true)
        by (unfold ties; rewrite refl; reflexivity).
      assert (Hyy : ties compare y y = true)
        by (unfold ties; rewrite refl; reflexivity).
      assert (Hxy : x = y).
      { pose proof (Hties x) as Ex. pose proof (Hties y) as Ey.
        cbn [filter] in Ex, Ey. rewrite Hxx in Ex. rewrite Hyy in Ey.
        destruct (ties compare x y) eqn:Txy; [congruence |].
        destruct (ties compare y x) eqn:Tyx; [congruence |].
        exfalso.
        assert (Hin_x : In x l2).
        { assert (H : In x (filter (ties compare x) l2))
            by (rewrite <- Ex; left; reflexivity).
          apply filter_In in H. tauto. }
        assert (Hin_y : In y l1).
        { assert (H : In y (filter (ties compare y) l1))
            by (rewrite Ey; left; reflexivity).
          apply filter_In in H. tauto. }
        rewrite Forall_forall in Hx, Hy.
        pose proof (Hx y Hin_y) as Lxy. pose proof (Hy x Hin_x) as Lyx.
        rewrite (antisym x y) in Lyx.
        unfold ties in Txy. apply Z.eqb_neq in Txy. lia. }
      subst y. f_equal. apply IH; [exact Hs2 |].
      intros t. specialize (Hties t). cbn [filter] in Hties.
      destruct (ties compare t x); congruence.
Qed.

End Unique.
End SortFacts.

(** *** The order of the sort values *)

Lemma string_compare_lt_trans (a b c : string) :
  String.compare a b = Lt -> String.compare b c = Lt -> String.compare a c = Lt.
Proof.
  revert b c. induction a as [| x a IH]; intros [| y b] [| z c]; cbn;
    try congruence.
  unfold Ascii.compare.
  destruct (N.compare_spec (N_of_ascii x) (N_of_ascii y)) as [Hxy | Hxy | Hxy];
    destruct (N.compare_spec (N_of_ascii y) (N_of_ascii z)) as [Hyz | Hyz | Hyz];
    destruct (N.compare_spec (N_of_ascii x) (N_of_ascii z)) as [Hxz | Hxz | Hxz];
    try congruence; try lia.
  apply IH.
Qed.

Lemma string_ltb_irrefl (s : string) : String.ltb s s = false.
Proof.
  unfold String.ltb. pose proof (String.compare_antisym s s) as H.
  destruct (String.compare s s); cbn in H; congruence.
Qed.

Lemma string_ltb_trichotomy (s t : string) :
  String.ltb s t = false -> String.ltb t s = false -> s = t.
Proof.
  unfold String.ltb. rewrite (String.compare_antisym t s).
  destruct (String.compare s t) eqn:H; cbn; try discriminate.
  intros _ _. apply String.compare_eq_iff. exact H.
Qed.

Lemma string_ltb_trans (s t u : string) :
  String.ltb s t = true -> String.ltb t u = true -> String.ltb s u = true.
Proof.
  unfold String.ltb.
  destruct (String.compare s t) eqn:H1; try discriminate.
  destruct (String.compare t u) eqn:H2; try discriminate.
  rewrite (string_compare_lt_trans _ _ _ H1 H2). reflexivity.
Qed.

Lemma sortValue_comparable (by_ : SortBy) (a b : Task) :
  comparable (sortValue by_ a) (sortValue by_ b).
Proof.
  destruct by_; cbn; try exact I.
  unfold orInfinity.
  destruct (task_dueDate a) as [x |], (task_dueDate b) as [y |];
    try destruct (x =? 0); try destruct (y =? 0); exact I.
Qed.

Lemma js_lt_irrefl (v : SortValue) : js_lt v v = false.
Proof.
  destruct v; cbn; [apply Z.ltb_irrefl | reflexivity | apply string_ltb_irrefl].
Qed.

Lemma js_lt_asym (u v : SortValue) : js_lt u v = true -> js_lt v u = false.
Proof.
  destruct u as [x | | s], v as [y | | t]; cbn; try congruence.
  - rewrite Z.ltb_lt, Z.ltb_ge. lia.
  - intros H. destruct (String.ltb t s) eqn:H'; [| reflexivity].
    pose proof (string_ltb_trans _ _ _ H H') as Hss.
    rewrite string_ltb_irrefl in Hss. discriminate.
Qed.

Lemma js_lt_trichotomy (u v : SortValue) :
  comparable u v -> js_lt u v = false -> js_lt v u = false -> u = v.
Proof.
  destruct u as [x | | s], v as [y | | t]; cbn; try tauto; try discriminate.
  - rewrite !Z.ltb_ge. intros _ H1 H2. f_equal. lia.
  - intros _ H1 H2. f_equal. apply string_ltb_trichotomy; assumption.
Qed.

(** If [w < u] then any comparable [v] is above [w] or below [u]. *)
Lemma js_lt_cotrans (u v w : SortValue) :
  comparable u v -> comparable v w ->
  js_lt w u = true -> js_lt w v = true \/ js_lt v u = true.
Proof.
  destruct u as [x | | s], v as [y | | t], w as [z | | r]; cbn;
    try tauto; try discriminate; auto.
  - rewrite !Z.ltb_lt. lia.
  - intros _ _ H.
    destruct (String.ltb r t) eqn:Hrt; [auto |].
    destruct (String.ltb t r) eqn:Htr.
    + right. eapply string_ltb_trans; eauto.
    + right. rewrite (string_ltb_trichotomy _ _ Htr Hrt). exact H.
Qed.

(** *** The comparator *)

Lemma compareFn_values (sort : TaskSort) (a b : Task) :
  compareFn sort a b
  = compareValues (direction sort) (sortValue (sortBy sort) a)
                  (sortValue (sortBy sort) b).
Proof. reflexivity. Qed.

Lemma compareValues_zero (dir : SortDirection) (u v : SortValue) :
  comparable u v -> (compareValues dir u v = 0 <-> u = v).
Proof.
  intros Hc. unfold compareValues. split.
  - destruct (js_lt u v) eqn:H1; [destruct dir; discriminate |].
    destruct (js_lt v u) eqn:H2; [destruct dir; discriminate |].
    intros _. apply js_lt_trichotomy; assumption.
  - intros ->. rewrite js_lt_irrefl. reflexivity.
Qed.

Lemma compareValues_le (dir : SortDirection) (u v : SortValue) :
  compareValues dir u v <= 0 <->
  match dir with ASC => js_lt v u = false | DESC => js_lt u v = false end.
Proof.
  unfold compareValues.
  destruct (js_lt u v) eqn:H1.
  - rewrite (js_lt_asym _ _ H1). destruct dir; split; try lia; congruence.
  - destruct (js_lt v u) eqn:H2; destruct dir; split; try lia; congruence.
Qed.

Lemma compareFn_zero (sort : TaskSort) (a b : Task) :
  compareFn sort a b = 0 <->
  sortValue (sortBy sort) a = sortValue (sortBy sort) b.
Proof.
  rewrite compareFn_values. apply compareValues_zero, sortValue_comparable.
Qed.

Lemma compareFn_ties_above (sort : TaskSort) (t x y : Task) :
  compareFn sort t x = 0 -> 0 < compareFn sort x y -> compareFn sort t y <> 0.
Proof.
  intros Htx Hxy. apply compareFn_zero in Htx.
  rewrite compareFn_values in *. rewrite Htx. lia.
Qed.

Lemma compareFn_total (sort : TaskSort) (x y : Task) :
  0 < compareFn sort x y -> compareFn sort y x <= 0.
Proof.
  rewrite !compareFn_values. unfold compareValues.
  destruct (js_lt _ _) eqn:H1.
  - rewrite (js_lt_asym _ _ H1). destruct (direction sort); lia.
  - destruct (js_lt (sortValue _ y) _) eqn:H2; destruct (direction sort); lia.
Qed.

Lemma compareFn_trans (sort : TaskSort) (x y z : Task) :
  compareFn sort x y <= 0 -> compareFn sort y z <= 0 -> compareFn sort x z <= 0.
Proof.
  rewrite !compareFn_values, !compareValues_le.
  pose proof (sortValue_comparable (sortBy sort)) as Hc.
  destruct (direction sort); intros H1 H2.
  - destruct (js_lt (sortValue _ z) (sortValue _ x)) eqn:H; [| reflexivity].
    destruct (js_lt_cotrans _ (sortValue (sortBy sort) y) _ (Hc x y) (Hc y z) H);
      congruence.
  - destruct (js_lt (sortValue _ x) (sortValue _ z)) eqn:H; [| reflexivity].
    destruct (js_lt_cotrans _ (sortValue (sortBy sort) y) _ (Hc z y) (Hc y x) H);
      congruence.
Qed.

Lemma compareFn_refl (sort : TaskSort) (a : Task) : compareFn sort a a = 0.
Proof. apply compareFn_zero. reflexivity. Qed.

Lemma compareFn_antisym (sort : TaskSort) (a b : Task) :
  compareFn sort b a = - compareFn sort a b.
Proof.
  rewrite !compareFn_values. unfold compareValues.
  destruct (js_lt (sortValue _ a) _) eqn:H1.
  - rewrite (js_lt_asym _ _ H1). destruct (direction sort); reflexivity.
  - destruct (js_lt (sortValue _ b) _); destruct (direction sort); reflexivity.
Qed.

Lemma compareFn_flip (by_ : SortBy) (a b : Task) :
  compareFn (mkTaskSort by_ DESC) a b = - compareFn (mkTaskSort by_ ASC) a b.
Proof.
  unfold compareFn. cbn.
  destruct (js_lt _ _); [reflexivity |]. destruct (js_lt _ _); reflexivity.
Qed.

Lemma StronglySorted_after {A} (R : A -> A -> Prop) (l1 l2 : list A) (x : A) :
  StronglySorted R (l1 ++ x :: l2) -> Forall (R x) l2.
Proof.
  induction l1 as [| y l1 IH]; cbn; intros H; inversion H; subst; auto.
Qed.

(** In ascending order of due date, a task whose sort value is
    [Infinity] is followed only by tasks whose sort value is [Infinity]:
    tasks without a due date and tasks due at the instant 0. *)
Lemma after_Infinity (tasks before after : list Task) (x : Task) :
  Array_sort (compareFn (mkTaskSort DUE_DATE ASC)) tasks = before ++ x :: after ->
  sortValue DUE_DATE x = Infinity ->
  forall task, In task after ->
    task_dueDate task = None \/ task_dueDate task = Some 0.
Proof.
  intros Hsplit Hx task Hin.
  pose proof (Array_sort_sorted _ (compareFn_total (mkTaskSort DUE_DATE ASC))
                (compareFn_trans (mkTaskSort DUE_DATE ASC)) tasks) as Hs.
  rewrite Hsplit in Hs. apply StronglySorted_after in Hs.
  rewrite Forall_forall in Hs. specialize (Hs task Hin).
  rewrite compareFn_values, compareValues_le in Hs.
  cbn [direction sortBy] in Hs. rewrite Hx in Hs.
  cbn [sortValue] in Hs. unfold orInfinity in Hs.
  destruct (task_dueDate task) as [due |]; [| auto].
  destruct (Z.eqb_spec due 0) as [Hz | Hne]; [subst due; auto | discriminate].
Qed.

Section SortedView.
Context {env : Environment} {cal : Calendar}.

(** With the default filter the hook's list is the sorted task list. *)
Lemma filteredAndSortedTasks_default (tasks : list Task) (sort : TaskSort)
    (w : World) :
  useTasks.filteredAndSortedTasks tasks DEFAULT_FILTER sort w
  = (Array_sort (compareFn sort) tasks, w).
Proof. reflexivity. Qed.

(** C8.  For every task list, sort key and direction, the sorted list is
    a rearrangement of the input in the order of the comparator in which
    the tasks that tie with any given task (the comparator returns 0) keep
    their input order, and it is the only list in that order with that
    property; the descending comparator is the negated ascending one; and
    [low, high, medium] sorted by priority, descending, is
    [high, medium, low]. *)
Theorem sort_is_stable (sort : TaskSort) (tasks : list Task) (w : World) :
  let sorted := fst (useTasks.filteredAndSortedTasks tasks DEFAULT_FILTER sort w) in
  Permutation sorted tasks
  /\ StronglySorted (fun a b => compareFn sort a b <= 0) sorted
  /\ (forall t, filter (ties (compareFn sort) t) sorted
                = filter (ties (compareFn sort) t) tasks)
  /\ (forall other,
        StronglySorted (fun a b => compareFn sort a b <= 0) other ->
        (forall t, filter (ties (compareFn sort) t) other
                   = filter (ties (compareFn sort) t) tasks) ->
        other = sorted)
  /\ (forall a b,
        compareFn (mkTaskSort (sortBy sort) DESC) a b
        = - compareFn (mkTaskSort (sortBy sort) ASC) a b)
  /\ (let low := sample_task "t1" "Water plants" TODO LOW None None in
      let high := sample_task "t2" "Write report" TODO HIGH None None in
      let medium := sample_task "t3" "Book flights" TODO MEDIUM None None in
      fst (useTasks.filteredAndSortedTasks [low; high; medium] DEFAULT_FILTER
             (mkTaskSort PRIORITY DESC) w)
      = [high; medium; low]).
Proof.
  cbv zeta. rewrite !filteredAndSortedTasks_default. cbn [fst].
  split; [apply Array_sort_perm |].
  split; [apply Array_sort_sorted;
          [apply compareFn_total | apply compareFn_trans] |].
  split; [intros t; apply Array_sort_stable; apply compareFn_ties_above |].
  split; [| split; [apply compareFn_flip | reflexivity]].
  intros other Hsorted Hties.
  apply (stable_sorted_unique _ (compareFn_refl sort) (compareFn_antisym sort)).
  - exact Hsorted.
  - apply Array_sort_sorted; [apply compareFn_total | apply compareFn_trans].
  - intros t. rewrite Hties. symmetry.
    apply Array_sort_stable. apply compareFn_ties_above.
Qed.

End SortedView.

(** C10.  A task due at the instant 0 has the sort value [Infinity], the
    one of a task without a due date; in ascending order of due date only
    tasks with that sort value follow it, and it follows any other dated
    task it is sorted with. *)
Theorem epoch_due_date_sorts_last (tasks : list Task) (epoch : Task) :
  task_dueDate epoch = Some 0 ->
  sortValue DUE_DATE epoch = Infinity
  /\ (forall undated,
        task_dueDate undated = None ->
        sortValue DUE_DATE undated = sortValue DUE_DATE epoch)
  /\ (forall before after,
        Array_sort (compareFn (mkTaskSort DUE_DATE ASC)) tasks
        = before ++ epoch :: after ->
        forall task, In task after ->
          task_dueDate task = None \/ task_dueDate task = Some 0)
  /\ (forall dated due,
        task_dueDate dated = Some due -> due <> 0 ->
        Array_sort (compareFn (mkTaskSort DUE_DATE ASC)) [epoch; dated]
        = [dated; epoch]).
Proof.
  intros He.
  assert (Hv : sortValue DUE_DATE epoch = Infinity)
    by (cbn; rewrite He; reflexivity).
  split; [exact Hv |]. split; [| split].
  - intros undated Hu. rewrite Hv. cbn. rewrite Hu. reflexivity.
  - intros before after Hsplit. eapply after_Infinity; eauto.
  - intros dated due Hd Hne. cbn. unfold compareFn. cbn.
    rewrite He, Hd. cbn. destruct (Z.eqb_spec due 0); [contradiction |].
    reflexivity.
Qed.

Lemma epoch_due_date_sorts_last_witness :
  sortValue DUE_DATE epoch_task = Infinity
  /\ sortValue DUE_DATE undated_task = sortValue DUE_DATE epoch_task
  /\ Array_sort (compareFn (mkTaskSort DUE_DATE ASC)) [epoch_task; dated_task]
     = [dated_task; epoch_task].
Proof.
  destruct (epoch_due_date_sorts_last [epoch_task; dated_task] epoch_task eq_refl)
    as (H1 & H2 & _ & H4).
  split; [exact H1 |]. split; [exact (H2 undated_task eq_refl) |].
  apply (H4 dated_task 1700000000000 eq_refl). discriminate.
Defined.

(** C9 at a task due at the instant 0: sorted by due date, ascending, the
    task without a due date stays in front of it. *)
Theorem undated_before_epoch :
  fst (@useTasks.filteredAndSortedTasks sample_env UTC
         [undated_task; epoch_task; dated_task] DEFAULT_FILTER
         (mkTaskSort DUE_DATE ASC) (sample_world [] [personal]))
  = [dated_task; undated_task; epoch_task].
Proof. reflexivity. Qed.

(** Apart from that instant the tasks without a due date come last: in
    ascending order of due date a task without a due date is followed only
    by tasks without a due date or due at the instant 0. *)
Lemma undated_sorts_last (tasks before after : list Task) (undated : Task) :
  task_dueDate undated = None ->
  Array_sort (compareFn (mkTaskSort DUE_DATE ASC)) tasks
  = before ++ undated :: after ->
  forall task, In task after ->
    task_dueDate task = None \/ task_dueDate task = Some 0.
Proof.
  intros Hu Hsplit. apply (after_Infinity tasks before after undated Hsplit).
  cbn. rewrite Hu. reflexivity.
Qed.

Lemma due_date_buckets_example :
  let w := sample_world [] [personal] in
  let overdueOnly := mkTaskFilter None None None None (Some OVERDUE) None None in
  let undatedOnly := mkTaskFilter None None None None (Some NO_DUE_DATE) None None in
  In late_task
     (fst (@useTasks.dueDateStage sample_env UTC overdueOnly
             [late_task; undated_task] w))
  /\ In undated_task
        (fst (@useTasks.dueDateStage sample_env UTC undatedOnly
                [late_task; undated_task] w)).
Proof.
  intros w overdueOnly undatedOnly. split.
  - apply (proj1 (@due_date_buckets sample_env UTC overdueOnly
                    [late_task; undated_task] late_task w));
      [vm_compute; discriminate | reflexivity |].
    split; [left; reflexivity |].
    exists 1699000000000. repeat split; reflexivity.
  - apply (proj1 (proj2 (@due_date_buckets sample_env UTC undatedOnly
                           [late_task; undated_task] undated_task w)) eq_refl).
    split; [right; left; reflexivity | left; reflexivity].
Defined.

(** C5 fails on the code.  On 24 December 1999 (UTC) an open task due on
    25 December of the year 99 has a due date whose calendar day is
    strictly before today, and the overdue bucket does not hold it:
    [new Date(99, 11, 25)] is 25 December 1999, so the task is due
    tomorrow for the filter. *)
Theorem overdue_two_digit_year :
  let now := 946036800000 in
  let due := -59012064000000 in
  let task := sample_task "t1" "Renew passport" TODO HIGH None (Some due) in
  (@getFullYear UTC now, @getMonth UTC now, @getDate UTC now) = (1999, 11, 24)
  /\ (@getFullYear UTC due, @getMonth UTC due, @getDate UTC due) = (99, 11, 25)
  /\ @startOfDay UTC due = @Date_ymd UTC 1999 11 25
  /\ @useTasks.dueDateFilterAt UTC OVERDUE now task = false
  /\ @useTasks.dueDateFilterAt UTC TOMORROW now task = true
  /\ fst (@useTasks.filteredAndSortedTasks clock_1999 UTC [task]
            (mkTaskFilter None None None None (Some OVERDUE) None None)
            (mkTaskSort DUE_DATE ASC) (sample_world [task] [personal])) = []
  /\ ~ (@useTasks.dueDateFilterAt UTC OVERDUE now task = true <->
        exists due, task_dueDate task = Some due
                    /\ @dayNumber UTC due < @dayNumber UTC now
                    /\ task_completed task = false).
Proof.
  cbv zeta.
  split; [vm_compute; reflexivity |]. split; [vm_compute; reflexivity |].
  split; [vm_compute; reflexivity |]. split; [vm_compute; reflexivity |].
  split; [vm_compute; reflexivity |]. split; [vm_compute; reflexivity |].
  intros [_ H].
  assert (Hfalse : @useTasks.dueDateFilterAt UTC OVERDUE 946036800000
                     (sample_task "t1" "Renew passport" TODO HIGH None
                                  (Some (-59012064000000))) = true).
  { apply H. exists (-59012064000000).
    split; [reflexivity |]. split; [vm_compute; reflexivity | reflexivity]. }
  vm_compute in Hfalse. discriminate Hfalse.
Qed.

Lemma sort_is_stable_witness :
  let low := sample_task "t1" "Water plants" TODO LOW None None in
  let high := sample_task "t2" "Write report" TODO HIGH None None in
  let medium := sample_task "t3" "Book flights" TODO MEDIUM None None in
  [high; medium; low]
  = fst (@useTasks.filteredAndSortedTasks sample_env UTC [low; high; medium]
           DEFAULT_FILTER (mkTaskSort PRIORITY DESC) (sample_world [] [personal])).
Proof.
  intros low high medium.
  apply (proj1 (proj2 (proj2 (proj2
           (@sort_is_stable sample_env UTC (mkTaskSort PRIORITY DESC)
              [low; high; medium] (sample_world [] [personal])))))).
  - repeat constructor; cbn; discriminate.
  - intros t. unfold ties, compareFn. cbn.
    destruct (task_priority t); reflexivity.
Defined.

(** * Further properties of the repository *)

(** ** Lists *)

Section MoreListFacts.
Context {A : Type}.

Lemma filter_none (p : A -> bool) (l : list A) :
  find p l = None -> filter (fun x => negb (p x)) l = l.
Proof.
  induction l as [| x l IH]; cbn; [reflexivity |].
  destruct (p x); [discriminate |]. cbn. intros H. rewrite IH; auto.
Qed.

Lemma filter_shorter (p : A -> bool) (l : list A) (x : A) :
  find p l = Some x ->
  (List.length (filter (fun y => negb (p y)) l) < List.length l)%nat.
Proof.
  induction l as [| y l IH]; cbn; [discriminate |].
  destruct (p y); cbn.
  - intros _. pose proof (filter_length_le (fun y => negb (p y)) l). lia.
  - intros H. specialize (IH H). lia.
Qed.

Lemma find_filter_out (p : A -> bool) (l : list A) :
  find p (filter (fun x => negb (p x)) l) = None.
Proof.
  induction l as [| x l IH]; cbn; [reflexivity |].
  destruct (p x) eqn:Hx; cbn; [exact IH |]. rewrite Hx. exact IH.
Qed.

Lemma filter_idem (p : A -> bool) (l : list A) :
  filter p (filter p l) = filter p l.
Proof.
  induction l as [| x l IH]; cbn; [reflexivity |].
  destruct (p x) eqn:Hx; cbn; [rewrite Hx, IH |]; auto.
Qed.

Lemma find_app_fresh (p : A -> bool) (l : list A) (x : A) :
  find p l = None -> p x = true -> find p (l ++ [x]) = Some x.
Proof.
  induction l as [| y l IH]; cbn; intros Hl Hx.
  - rewrite Hx. reflexivity.
  - destruct (p y); [discriminate | auto].
Qed.

Lemma array_set_length (l : list A) (i : nat) (x : A) :
  List.length (array_set l i x) = List.length l.
Proof.
  revert i. induction l as [| y l IH]; intros [| i]; cbn; auto.
Qed.

Lemma array_set_other (l : list A) (i j : nat) (x : A) :
  j <> i -> nth_error (array_set l i x) j = nth_error l j.
Proof.
  revert i j. induction l as [| y l IH]; intros [| i] [| j] H; cbn; auto.
  congruence.
Qed.

Lemma count_array_set (p : A -> bool) (l : list A) (i : nat) (x y : A) :
  nth_error l i = Some x ->
  count p (array_set l i y)
  = count p l - (if p x then 1 else 0) + (if p y then 1 else 0).
Proof.
  unfold count. revert i.
  induction l as [| z l IH]; intros [| i] H; cbn in H; try discriminate.
  - inversion H; subst z. cbn [array_set filter].
    destruct (p x), (p y); cbn [List.length]; lia.
  - specialize (IH i H). cbn [array_set filter].
    destruct (p z); cbn [List.length]; lia.
Qed.

Lemma count_Forall2 (p : A -> bool) (R : A -> A -> Prop) (l l' : list A) :
  (forall a b, R a b -> p a = p b) -> Forall2 R l l' -> count p l = count p l'.
Proof.
  intros Hp. unfold count. induction 1 as [| a b l l' Hab _ IH]; cbn.
  - reflexivity.
  - rewrite (Hp a b Hab). destruct (p b); cbn [List.length]; lia.
Qed.

End MoreListFacts.

(** ** Unknown ids, deleting, clearing *)

Section TaskEdges.
Context {env : Environment}.

Lemma deleteTask_unknown (taskId : string) (w : World) :
  find (hasId taskId) (todoapp_tasks w) = None ->
  TaskStorageService.deleteTask taskId w = (false, w).
Proof.
  intros H. unfold TaskStorageService.deleteTask, bind. cbn.
  pose proof (filter_none _ _ H) as Hf. unfold hasId in Hf. rewrite Hf.
  rewrite Z.eqb_refl. reflexivity.
Qed.

Lemma deleteTask_stored (taskId : string) (w : World) (task : Task) :
  find (hasId taskId) (todoapp_tasks w) = Some task ->
  TaskStorageService.deleteTask taskId w
  = (true, mkWorld (filter (fun t => negb (hasId taskId t)) (todoapp_tasks w))
                   (todoapp_projects w) (clock_reads w) (random_draws w)).
Proof.
  intros H. unfold TaskStorageService.deleteTask, bind. cbn.
  pose proof (filter_shorter _ _ _ H) as Hlt. unfold hasId in Hlt.
  destruct (Z.eqb_spec
              (Z.of_nat (List.length
                 (filter (fun t => negb (String.eqb (task_id t) taskId))
                         (todoapp_tasks w))))
              (Z.of_nat (List.length (todoapp_tasks w)))); [lia |].
  reflexivity.
Qed.

(** X1.  On an id that no stored task carries, [updateTask] and
    [toggleTask] return [null], [deleteTask] returns [false], and none of
    them writes, reads the clock or touches the project store. *)
Theorem unknown_task_id (taskId : string) (updates : TaskUpdates) (w : World) :
  find (hasId taskId) (todoapp_tasks w) = None ->
  TaskStorageService.updateTask taskId updates w = (None, w)
  /\ TaskStorageService.toggleTask taskId w = (None, w)
  /\ TaskStorageService.deleteTask taskId w = (false, w).
Proof.
  intros H. split; [apply updateTask_unknown; exact H |]. split.
  - unfold TaskStorageService.toggleTask, bind. cbn.
    unfold hasId in H. rewrite H. reflexivity.
  - apply deleteTask_unknown. exact H.
Qed.

(** X2.  [deleteTask] on a stored id returns [true] and stores the
    collection without the tasks of that id, the others in their order;
    the project store is not read, and a second [deleteTask] of the id
    returns [false] and changes nothing. *)
Theorem deleteTask_removes (taskId : string) (w : World) (task : Task) :
  find (hasId taskId) (todoapp_tasks w) = Some task ->
  let (success, w') := TaskStorageService.deleteTask taskId w in
  success = true
  /\ todoapp_tasks w'
     = filter (fun t => negb (hasId taskId t)) (todoapp_tasks w)
  /\ find (hasId taskId) (todoapp_tasks w') = None
  /\ todoapp_projects w' = todoapp_projects w
  /\ clock_reads w' = clock_reads w
  /\ TaskStorageService.deleteTask taskId w' = (false, w').
Proof.
  intros H. rewrite (deleteTask_stored taskId w task H).
  cbn [todoapp_tasks todoapp_projects clock_reads].
  pose proof (find_filter_out (hasId taskId) (todoapp_tasks w)) as Hnone.
  repeat split; auto.
  apply deleteTask_unknown. exact Hnone.
Qed.

(** X3.  [clearCompletedTasks] returns the number of completed tasks and
    stores the others in their order; afterwards no stored task is
    completed, the statistics show the former pending count as total
    and no completed task, and a second call returns 0 and changes
    nothing. *)
Theorem clearCompletedTasks_clears (w : World) :
  let before := fst (TaskStorageService.getTaskStats w) in
  let (deletedCount, w') := TaskStorageService.clearCompletedTasks w in
  let after := fst (TaskStorageService.getTaskStats w') in
  deletedCount = completed before
  /\ todoapp_tasks w'
     = filter (fun t => negb (task_completed t)) (todoapp_tasks w)
  /\ Forall (fun t => task_completed t = false) (todoapp_tasks w')
  /\ total after = pending before
  /\ completed after = 0
  /\ pending after = pending before
  /\ TaskStorageService.clearCompletedTasks w' = (0, w').
Proof.
  cbn. set (active := filter (fun t => negb (task_completed t)) (todoapp_tasks w)).
  assert (Hall : Forall (fun t => task_completed t = false) active).
  { apply Forall_forall. intros t Ht. apply filter_In in Ht.
    destruct Ht as [_ Ht]. apply negb_true_iff. exact Ht. }
  assert (Hnone : filter (fun t => task_completed t) active = []).
  { clear - Hall. induction Hall as [| t l Ht _ IH]; cbn; [reflexivity |].
    rewrite Ht. exact IH. }
  assert (Hidem : filter (fun t => negb (task_completed t)) active = active)
    by apply filter_idem.
  pose proof (count_complement (fun t => task_completed t) (todoapp_tasks w))
    as Hc.
  unfold count in *. fold active in Hc.
  split; [lia |]. split; [reflexivity |]. split; [exact Hall |].
  rewrite Hnone, Hidem. cbn.
  split; [reflexivity |]. split; [reflexivity |]. split; [reflexivity |].
  unfold ret. f_equal. lia.
Qed.

End TaskEdges.

Lemma unknown_task_id_witness :
  let w := sample_world [draft] [personal] in
  @TaskStorageService.toggleTask sample_env "t9" w = (None, w).
Proof.
  intros w.
  exact (proj1 (proj2 (@unknown_task_id sample_env "t9" no_updates w eq_refl))).
Defined.

Lemma deleteTask_removes_witness :
  let w := sample_world [draft; late_task] [personal] in
  todoapp_tasks (snd (TaskStorageService.deleteTask "t1" w))
  = filter (fun t => negb (hasId "t1" t)) (todoapp_tasks w).
Proof.
  intros w.
  pose proof (deleteTask_removes "t1" w draft eq_refl) as H.
  destruct (TaskStorageService.deleteTask "t1" w) as [r w'].
  exact (proj1 (proj2 H)).
Defined.

(** ** What an update touches *)

Section UpdateFrame.
Context {env : Environment}.

(** X4.  [updateTask] on a stored id rewrites the first task of that id
    and nothing else: the collection keeps its length and every other
    position, the task keeps its [id] and [createdAt], each other field
    is the one of the updates when they carry it and the stored one
    otherwise, and [updatedAt] is read from the clock whatever the updates
    say.  The [projectId] of the updates is validated first: a non-empty id
    that no stored project carries is replaced by the id of the default
    project ([undefined] when there is none); any other value, also the
    empty id and [undefined], is stored as it is. *)
Theorem updateTask_frame (taskId : string) (updates : TaskUpdates) (w : World)
    (task : Task) :
  find (hasId taskId) (todoapp_tasks w) = Some task ->
  let (result, w') := TaskStorageService.updateTask taskId updates w in
  exists updated i n,
    result = Some updated
    /\ nth_error (todoapp_tasks w) i = Some task
    /\ nth_error (todoapp_tasks w') i = Some updated
    /\ (forall j, j <> i ->
          nth_error (todoapp_tasks w') j = nth_error (todoapp_tasks w) j)
    /\ List.length (todoapp_tasks w') = List.length (todoapp_tasks w)
    /\ task_id updated = task_id task
    /\ task_createdAt updated = task_createdAt task
    /\ task_updatedAt updated = clock n
    /\ task_title updated = override (upd_title updates) (task_title task)
    /\ task_description updated
       = override (upd_description updates) (task_description task)
    /\ task_completed updated
       = override (upd_completed updates) (task_completed task)
    /\ task_status updated = override (upd_status updates) (task_status task)
    /\ task_priority updated
       = override (upd_priority updates) (task_priority task)
    /\ task_dueDate updated = override (upd_dueDate updates) (task_dueDate task)
    /\ task_tags updated = override (upd_tags updates) (task_tags task)
    /\ task_projectId updated
       = match upd_projectId updates with
         | None => task_projectId task
         | Some None => None
         | Some (Some pid) =>
             if truthy_string pid
                && negb (existsb (fun p => String.eqb (project_id p) pid)
                                 (todoapp_projects w'))
             then option_map project_id (find isDefault (todoapp_projects w'))
             else Some pid
         end
    /\ projects_read w w'.
Proof.
  intros Hf. destruct (find_findIndex _ _ _ Hf) as (i & Hi & Hn).
  apply wp_run. eapply wp_mono; [apply (updateTask_post _ _ _ i task Hi Hn) |].
  cbv beta. intros result w' (n & Hr & Hts & Hread & _).
  assert (Hid : hasId taskId task = true) by (apply find_some in Hf; tauto).
  eexists. exists i, n. split; [exact Hr |]. split; [exact Hn |].
  rewrite Hts. split.
  { match goal with
    | |- nth_error (array_set _ _ ?t) _ = _ =>
        assert (Hid' : hasId taskId t = true) by exact Hid;
        exact (proj2 (findIndex_array_set _ _ _ t Hi Hid'))
    end. }
  split; [intros j Hj; apply array_set_other; exact Hj |].
  split; [apply array_set_length |].
  destruct (validated_other_fields (todoapp_projects w') updates)
    as (H1 & H2 & H3 & H4 & H5 & H6 & H7).
  unfold spread. cbn. rewrite H1, H2, H3, H4, H5, H6, H7.
  repeat (split; [reflexivity |]).
  split; [| exact Hread].
  unfold validated. destruct (upd_projectId updates) as [[pid |] |] eqn:Hu;
    [| rewrite Hu; reflexivity | rewrite Hu; reflexivity].
  destruct (truthy_string pid && negb (existsb _ (todoapp_projects w')));
    [reflexivity | rewrite Hu; reflexivity].
Qed.

(** X5.  [toggleTask] on a stored id changes the statistics by one
    task: the total stays, and the completed count goes down by one and
    the pending count up by one if the task was completed, and the other
    way round if it was not. *)
Theorem toggleTask_statistics (taskId : string) (w : World) (task : Task) :
  find (hasId taskId) (todoapp_tasks w) = Some task ->
  let before := fst (TaskStorageService.getTaskStats w) in
  let w' := snd (TaskStorageService.toggleTask taskId w) in
  let after := fst (TaskStorageService.getTaskStats w') in
  let step := if task_completed task then -1 else 1 in
  total after = total before
  /\ completed after = completed before + step
  /\ pending after = pending before - step.
Proof.
  intros Hf. cbv zeta.
  destruct (toggleTask_post taskId w task Hf) as (i & Hi & Heq).
  rewrite Heq. cbn [snd].
  destruct (findIndex_Some _ _ _ Hi) as (x & Hn & _ & Hfx).
  assert (x = task) by congruence. subst x.
  cbn [TaskStorageService.getTaskStats TaskStorageService.getTasks bind ret
       newDate fst snd total completed pending todoapp_tasks].
  rewrite array_set_length.
  rewrite !(count_array_set _ _ _ task _ Hn). cbn [task_completed].
  destruct (task_completed task); cbn; repeat split; lia.
Qed.

End UpdateFrame.

Lemma updateTask_frame_witness :
  let w := sample_world [draft; late_task] [personal] in
  let updates := mkTaskUpdates (Some "Write the report") None None None None
                               None None (Some 5) None in
  exists updated,
    fst (@TaskStorageService.updateTask sample_env "t1" updates w) = Some updated
    /\ task_title updated = "Write the report"
    /\ task_updatedAt updated = 1700000000000.
Proof.
  intros w updates.
  pose proof (@updateTask_frame sample_env "t1" updates w draft eq_refl) as H.
  destruct (@TaskStorageService.updateTask sample_env "t1" updates w)
    as [result w'] eqn:Hrun.
  destruct H as (updated & i & n & Hr & _ & _ & _ & _ & _ & _ & _ & Ht & _).
  exists updated. split; [exact Hr |]. split; [exact Ht |].
  apply (f_equal fst) in Hrun. cbn in Hrun. rewrite Hr in Hrun.
  inversion Hrun. reflexivity.
Defined.

Lemma toggleTask_statistics_witness :
  let w := sample_world [draft; late_task] [personal] in
  completed (fst (@TaskStorageService.getTaskStats sample_env
                    (snd (@TaskStorageService.toggleTask sample_env "t1" w))))
  = completed (fst (@TaskStorageService.getTaskStats sample_env w)) + 1.
Proof.
  intros w.
  exact (proj1 (proj2 (@toggleTask_statistics sample_env "t1" w draft eq_refl))).
Defined.

(** ** New tasks, moved tasks *)

Section AddAndMove.
Context {env : Environment}.

(** X6.  [addTask] returns a task that is not completed, has the status
    [todo], the priority of the input or [medium], the tags of the input or
    none, the description and due date of the input, and one instant as
    [createdAt] and [updatedAt]; when no stored task carried its id,
    [getTaskById] of that id then returns it. *)
Theorem addTask_lookup (input : CreateTaskInput) (w : World) :
  let (task, w') := TaskStorageService.addTask input w in
  task_completed task = false
  /\ task_status task = TODO
  /\ task_priority task = override (in_priority input) MEDIUM
  /\ task_tags task = Some (override (in_tags input) [])
  /\ task_description task = in_description input
  /\ task_dueDate task = in_dueDate input
  /\ task_createdAt task = clock (clock_reads w)
  /\ task_updatedAt task = clock (clock_reads w)
  /\ (find (hasId (task_id task)) (todoapp_tasks w) = None ->
      TaskStorageService.getTaskById (task_id task) w' = (Some task, w')).
Proof.
  pose proof (addTask_post input w) as Hpost. unfold wp in Hpost.
  destruct Hpost as (Hts & _).
  assert (Hfields :
    wp (TaskStorageService.addTask input) w
       (fun task _ =>
          task_completed task = false
          /\ task_status task = TODO
          /\ task_priority task = override (in_priority input) MEDIUM
          /\ task_tags task = Some (override (in_tags input) [])
          /\ task_description task = in_description input
          /\ task_dueDate task = in_dueDate input
          /\ task_createdAt task = clock (clock_reads w)
          /\ task_updatedAt task = clock (clock_reads w))).
  { unfold TaskStorageService.addTask.
    wp_step newDate_post. intros now w0 [-> ->].
    do 3 (apply wp_bind; unfold wp at 1).
    unfold wp. cbn. repeat split; reflexivity. }
  unfold wp in Hfields.
  destruct (TaskStorageService.addTask input w) as [task w'].
  cbn [fst snd] in *.
  destruct Hfields as (H1 & H2 & H3 & H4 & H5 & H6 & H7 & H8).
  repeat (split; [assumption |]).
  intros Hfresh. unfold TaskStorageService.getTaskById, bind. cbn.
  rewrite Hts. fold (hasId (task_id task)).
  rewrite (find_app_fresh _ _ task Hfresh); [reflexivity |].
  unfold hasId. apply String.eqb_refl.
Qed.

Lemma moveM_post (sel : Task -> bool) (target : string) (tasks : list Task)
    (w : World) :
  wp (mapM (fun task =>
              if sel task
              then now <- newDate ;; ret (move_task task target now)
              else ret task) tasks) w
     (fun tasks' w' =>
        Forall2 (moved_by sel target (clock_reads w) (clock_reads w'))
                tasks tasks'
        /\ todoapp_tasks w' = todoapp_tasks w
        /\ todoapp_projects w' = todoapp_projects w
        /\ (clock_reads w <= clock_reads w')%nat
        /\ (existsb sel tasks = false -> w' = w)).
Proof.
  revert w. induction tasks as [| t tasks IH]; intros w; cbn [mapM].
  - apply wp_ret. repeat split; auto.
  - apply wp_bind.
    apply wp_mono with
      (P := fun t' w1 =>
              moved_by sel target (clock_reads w) (clock_reads w1) t t'
              /\ todoapp_tasks w1 = todoapp_tasks w
              /\ todoapp_projects w1 = todoapp_projects w
              /\ (clock_reads w <= clock_reads w1)%nat
              /\ (sel t = false -> w1 = w)).
    { unfold moved_by. destruct (sel t).
      - unfold wp. cbn. repeat split; auto; try discriminate.
        exists (clock_reads w). split; [lia | reflexivity].
      - apply wp_ret. repeat split; auto. }
    intros t' w1 (Ht & Hts & Hps & Hle & Hsame).
    wp_step IH. intros tasks' w2 (Hall & Hts2 & Hps2 & Hle2 & Hsame2).
    apply wp_ret. repeat split; try congruence; try lia.
    + constructor.
      * unfold moved_by in *. destruct (sel t); [| exact Ht].
        destruct Ht as (n & Hn & ->). exists n. split; [lia | reflexivity].
      * eapply Forall2_impl; [| exact Hall].
        intros a b. unfold moved_by. destruct (sel a); [| auto].
        intros (n & Hn & ->). exists n. split; [lia | reflexivity].
    + cbn [existsb]. intros Hnone. apply orb_false_iff in Hnone.
      destruct Hnone as [H1 H2]. rewrite (Hsame2 H2). apply Hsame. exact H1.
Qed.

Lemma none_selected (sel : Task -> bool) (target : string) (a b : nat)
    (tasks : list Task) :
  existsb sel tasks = false -> Forall2 (moved_by sel target a b) tasks tasks.
Proof.
  induction tasks as [| t tasks IH]; cbn; intros H; constructor.
  - unfold moved_by. destruct (sel t); [discriminate | reflexivity].
  - apply IH. destruct (sel t); [discriminate | exact H].
Qed.

(** X7.  With projects stored, [moveTasksToProject] to a project that is
    not stored returns [false] and changes nothing.  To a stored project
    it returns whether a stored task carries one of the ids; each such task
    gets the project and an [updatedAt] read from the clock during the
    call, every other task is untouched, and the project list is not
    written. *)
Theorem moveTasksToProject_moves (taskIds : list string) (target : string)
    (w : World) :
  todoapp_projects w <> [] ->
  let listed := fun task => existsb (String.eqb (task_id task)) taskIds in
  let (success, w') := TaskStorageService.moveTasksToProject taskIds target w in
  todoapp_projects w' = todoapp_projects w
  /\ (existsb (fun p => String.eqb (project_id p) target) (todoapp_projects w)
      = false -> success = false /\ w' = w)
  /\ (existsb (fun p => String.eqb (project_id p) target) (todoapp_projects w)
      = true ->
      success = existsb listed (todoapp_tasks w)
      /\ Forall2 (moved_by listed target (clock_reads w) (clock_reads w'))
                 (todoapp_tasks w) (todoapp_tasks w')
      /\ (success = false -> w' = w)).
Proof.
  intros Hne listed. apply wp_run.
  unfold TaskStorageService.moveTasksToProject.
  apply wp_bind. unfold wp at 1. rewrite (projectExists_stored target w Hne).
  cbn [fst snd].
  destruct (existsb _ (todoapp_projects w)) eqn:Hex; cbn [negb].
  - apply wp_bind. unfold wp at 1. cbn [TaskStorageService.getTasks fst snd].
    wp_step (moveM_post listed target (todoapp_tasks w) w).
    intros tasks' w1 (Hall & Hts & Hps & Hle & Hsame).
    fold listed. destruct (existsb listed (todoapp_tasks w)) eqn:Hany.
    + unfold wp. cbn. split; [exact Hps |]. split; [discriminate |].
      intros _. split; [reflexivity |]. split; [exact Hall | discriminate].
    + apply wp_ret. split; [exact Hps |]. split; [discriminate |].
      intros _. split; [reflexivity |]. rewrite (Hsame eq_refl).
      split; [apply none_selected; exact Hany | reflexivity].
  - apply wp_ret. split; [reflexivity |]. split; [auto | discriminate].
Qed.

End AddAndMove.

Lemma addTask_lookup_witness :
  let w := sample_world [draft] [personal] in
  let input := mkCreateTaskInput "Book flights" None None None None None in
  let (task, w') := @TaskStorageService.addTask sample_env input w in
  @TaskStorageService.getTaskById (task_id task) w' = (Some task, w').
Proof.
  intros w input.
  pose proof (@addTask_lookup sample_env input w) as H.
  destruct (@TaskStorageService.addTask sample_env input w) as [task w'] eqn:Hrun.
  apply (proj2 (proj2 (proj2 (proj2 (proj2 (proj2 (proj2 (proj2 H)))))))).
  apply (f_equal fst) in Hrun. cbn in Hrun. rewrite <- Hrun. reflexivity.
Defined.

Lemma moveTasksToProject_moves_witness :
  let w := sample_world [draft; late_task] [personal; work] in
  fst (@TaskStorageService.moveTasksToProject sample_env ["t3"]
         (project_id work) w) = true.
Proof.
  intros w.
  assert (Hne : todoapp_projects w <> []) by discriminate.
  pose proof (@moveTasksToProject_moves sample_env ["t3"] (project_id work) w Hne)
    as H.
  destruct (@TaskStorageService.moveTasksToProject sample_env ["t3"]
              (project_id work) w) as [success w'].
  destruct H as (_ & _ & H). destruct (H eq_refl) as (Hs & _).
  exact Hs.
Defined.

(** ** Deleting a project never loses a task *)

Section DeleteKeepsTasks.
Context {env : Environment}.

Lemma same_except_project_refl (l : list Task) :
  Forall2 same_except_project l l.
Proof. induction l as [| t l IH]; constructor; auto. destruct t; reflexivity. Qed.

Lemma moved_same_except_project (sel : Task -> bool) (target : string)
    (a b : nat) (l l' : list Task) :
  Forall2 (moved_by sel target a b) l l' -> Forall2 same_except_project l l'.
Proof.
  intros H. eapply Forall2_impl; [| exact H].
  intros t t'. unfold moved_by. destruct (sel t).
  - intros (n & _ & ->). reflexivity.
  - intros ->. destruct t; reflexivity.
Qed.

Lemma handleProjectDeletion_keeps_tasks (pid : string) (w : World) :
  wp (TaskStorageService.handleProjectDeletion pid) w
     (fun _ w' => Forall2 same_except_project (todoapp_tasks w) (todoapp_tasks w')).
Proof.
  unfold TaskStorageService.handleProjectDeletion.
  wp_step getDefaultProject_post. intros d w1 [_ (_ & Hts & _)].
  destruct d as [d |].
  - apply wp_bind. unfold wp at 1. cbn [TaskStorageService.getTasks fst snd].
    rewrite Hts.
    destruct (Z.of_nat _ =? 0).
    + apply wp_ret. rewrite Hts. apply same_except_project_refl.
    + wp_step (moveM_post (fun task => strict_eq (task_projectId task) pid)
                          (project_id d) (todoapp_tasks w) w1).
      intros tasks' w2 (Hall & _). unfold wp. cbn.
      eapply moved_same_except_project. exact Hall.
  - apply wp_ret. rewrite Hts. apply same_except_project_refl.
Qed.

Lemma deleteProject_storage_keeps_tasks (pid : string) (w : World) :
  wp (ProjectStorageService.deleteProject pid) w
     (fun _ w' => todoapp_tasks w' = todoapp_tasks w).
Proof.
  unfold ProjectStorageService.deleteProject.
  wp_step getProjects_post. intros ps w1 [_ (_ & Hts & _)].
  destruct (find _ ps) as [p |]; [| apply wp_ret; exact Hts].
  destruct (isDefault p); [apply wp_ret; exact Hts |].
  unfold wp. cbn. exact Hts.
Qed.

(** X8.  Whatever the id and the stores, [deleteProject] of the hook
    leaves the task collection with the same tasks in the same order, each
    equal to what it was in every field except [projectId] and
    [updatedAt]; so the total, completed, pending and high priority
    figures of the statistics are what they were. *)
Theorem deleteProject_keeps_tasks (projectId : string) (w : World) :
  let w' := snd (useProjects.deleteProject projectId w) in
  let before := fst (TaskStorageService.getTaskStats w) in
  let after := fst (TaskStorageService.getTaskStats w') in
  Forall2 same_except_project (todoapp_tasks w) (todoapp_tasks w')
  /\ total after = total before
  /\ completed after = completed before
  /\ pending after = pending before
  /\ highPriority after = highPriority before.
Proof.
  cbv zeta.
  assert (H : Forall2 same_except_project (todoapp_tasks w)
                (todoapp_tasks (snd (useProjects.deleteProject projectId w)))).
  { change (wp (useProjects.deleteProject projectId) w
               (fun _ w' => Forall2 same_except_project (todoapp_tasks w)
                                    (todoapp_tasks w'))).
    unfold useProjects.deleteProject.
    wp_step handleProjectDeletion_keeps_tasks. intros success w1 H1.
    destruct success; cbn [negb]; [| apply wp_ret; exact H1].
    wp_step deleteProject_storage_keeps_tasks. intros deleted w2 H2.
    destruct deleted; apply wp_ret; rewrite H2; exact H1. }
  split; [exact H |].
  cbn [TaskStorageService.getTaskStats TaskStorageService.getTasks bind ret
       newDate fst snd total completed pending highPriority].
  rewrite (Forall2_length H).
  assert (Hc : forall a b, same_except_project a b ->
                           task_completed a = task_completed b)
    by (intros a b <-; reflexivity).
  repeat split.
  - symmetry. apply (count_Forall2 _ same_except_project); [exact Hc | exact H].
  - symmetry. apply (count_Forall2 _ same_except_project); [| exact H].
    intros a b Hab. rewrite (Hc a b Hab). reflexivity.
  - symmetry. apply (count_Forall2 _ same_except_project); [| exact H].
    intros a b <-. reflexivity.
Qed.

End DeleteKeepsTasks.

(** ** The project store *)

Section ProjectStore.
Context {env : Environment}.

(** X9.  [getProjects] never returns an empty list: it returns the stored
    projects, or, when none is stored, one default project named
    "Personal" that it stores; the tasks are untouched and a second call
    returns the same list and changes nothing. *)
Theorem getProjects_never_empty (w : World) :
  let (projects, w') := ProjectStorageService.getProjects w in
  projects <> []
  /\ todoapp_projects w' = projects
  /\ todoapp_tasks w' = todoapp_tasks w
  /\ ProjectStorageService.getProjects w' = (projects, w')
  /\ (todoapp_projects w <> [] -> projects = todoapp_projects w /\ w' = w)
  /\ (todoapp_projects w = [] ->
      exists d, projects = [d]
                /\ isDefault d = true
                /\ project_name d = "Personal"
                /\ project_createdAt d = clock (clock_reads w)
                /\ project_updatedAt d = clock (clock_reads w)).
Proof.
  destruct w as [ts ps r d]. destruct ps as [| p ps]; cbn.
  - repeat split; try congruence. intros _. eexists. repeat split.
  - repeat split; try congruence.
Qed.

(** X10.  After [clearAllProjects] the next read of the project list
    gives exactly one project, a new default project, whatever was stored;
    the tasks keep the project ids they had. *)
Theorem clearAllProjects_recreates (w : World) :
  let (cleared, w1) := ProjectStorageService.clearAllProjects w in
  let (projects, w2) := ProjectStorageService.getProjects w1 in
  cleared = true
  /\ (exists d, projects = [d] /\ isDefault d = true
                /\ ProjectStorageService.getDefaultProject w2 = (Some d, w2))
  /\ todoapp_tasks w2 = todoapp_tasks w.
Proof.
  destruct w as [ts ps r d]. cbn. split; [reflexivity |].
  split; [| reflexivity]. eexists. repeat split.
Qed.

Lemma NoDup_ids_same (projects : list Project) (p q : Project) :
  NoDup (map project_id projects) ->
  In p projects -> In q projects -> project_id p = project_id q -> p = q.
Proof.
  induction projects as [| x l IH]; cbn; intros Hnd Hp Hq Heq; [contradiction |].
  inversion Hnd as [| y l' Hx Hl]; subst.
  destruct Hp as [-> | Hp], Hq as [-> | Hq]; auto.
  - exfalso. apply Hx. rewrite Heq. apply in_map. exact Hq.
  - exfalso. apply Hx. rewrite <- Heq. apply in_map. exact Hp.
Qed.

(** X11.  When the stored projects have distinct ids,
    [ProjectStorageService.deleteProject] never removes a default project:
    every default project stored before is stored after.  It returns
    [true] exactly when it has stored the list without the one project of
    that id, which was not a default project; otherwise the stored list is
    the one [getProjects] gives. *)
Theorem deleteProject_keeps_default (projectId : string) (w : World) :
  NoDup (map project_id (todoapp_projects w)) ->
  let (deleted, w') := ProjectStorageService.deleteProject projectId w in
  (forall d, In d (todoapp_projects w) -> isDefault d = true ->
             In d (todoapp_projects w'))
  /\ (deleted = true ->
      (exists p, In p (todoapp_projects w) /\ project_id p = projectId
                 /\ isDefault p = false)
      /\ todoapp_projects w'
         = filter (fun p => negb (String.eqb (project_id p) projectId))
                  (todoapp_projects w)
      /\ existsb (fun p => String.eqb (project_id p) projectId)
                 (todoapp_projects w') = false)
  /\ (deleted = false ->
      todoapp_projects w' = fst (ProjectStorageService.getProjects w)).
Proof.
  intros Hnd.
  destruct (todoapp_projects w) as [| p0 ps0] eqn:Hps.
  - destruct w as [ts ps r d]. cbn in Hps. subst ps.
    unfold ProjectStorageService.deleteProject, bind. cbn.
    destruct (String.eqb _ projectId); cbn;
      (split; [contradiction |]); (split; [discriminate | reflexivity]).
  - assert (Hne : todoapp_projects w <> []) by congruence.
    rewrite (deleteProject_stored projectId w Hne).
    rewrite (getProjects_stored w Hne). rewrite Hps in *. cbn [fst].
    destruct (find _ (p0 :: ps0)) as [p |] eqn:Hf.
    + apply find_some in Hf. destruct Hf as [Hin Hid].
      apply String.eqb_eq in Hid.
      destruct (isDefault p) eqn:Hdef; cbn [todoapp_projects].
      * rewrite Hps. split; [auto |]. split; [discriminate | reflexivity].
      * split; [| split; [| discriminate]].
        -- intros d Hd Hdd. apply filter_In. split; [exact Hd |].
           apply negb_true_iff, String.eqb_neq. intros Heq.
           assert (d = p)
             by (apply (NoDup_ids_same _ _ _ Hnd Hd Hin); congruence).
           congruence.
        -- intros _. split; [exists p; auto |]. split; [reflexivity |].
           apply not_true_is_false. intros Hex. apply existsb_exists in Hex.
           destruct Hex as (x & Hx & Hxid). apply filter_In in Hx.
           destruct Hx as [_ Hx]. rewrite Hxid in Hx. discriminate.
    + rewrite Hps. split; [auto |]. split; [discriminate | reflexivity].
Qed.

End ProjectStore.

Lemma deleteProject_keeps_default_witness :
  let w := sample_world [draft] [personal; work] in
  In personal
     (todoapp_projects
        (snd (@ProjectStorageService.deleteProject sample_env
                (project_id work) w))).
Proof.
  intros w.
  assert (Hnd : NoDup (map project_id (todoapp_projects w))).
  { cbn. constructor; [| constructor; [| constructor]]; cbn.
    - intros [H | []]. discriminate.
    - intros []. }
  pose proof (@deleteProject_keeps_default sample_env (project_id work) w Hnd)
    as H.
  destruct (@ProjectStorageService.deleteProject sample_env (project_id work) w)
    as [deleted w'].
  apply (proj1 H); [left; reflexivity | reflexivity].
Defined.

Section ProjectWrites.
Context {env : Environment}.

(** X12.  [addProject] appends a project that is not a default one, with
    the name of the input and the colour of the input or blue, to the list
    [getProjects] gives (so to a new default project when none was
    stored): every project stored before is stored after, the tasks are
    untouched, and [projectExists] of the new id is then [true]. *)
Theorem addProject_appends (input : CreateProjectInput) (w : World) :
  let (project, w') := ProjectStorageService.addProject input w in
  exists read,
    todoapp_projects w' = read ++ [project]
    /\ (todoapp_projects w <> [] -> read = todoapp_projects w)
    /\ (todoapp_projects w = [] -> exists d, read = [d] /\ isDefault d = true)
    /\ isDefault project = false
    /\ project_name project = pin_name input
    /\ project_color project
       = match pin_color input with Some c => c | None => BLUE end
    /\ todoapp_tasks w' = todoapp_tasks w
    /\ ProjectStorageService.projectExists (project_id project) w' = (true, w').
Proof.
  apply wp_run. unfold ProjectStorageService.addProject.
  wp_step newDate_post. intros now w0 [-> ->].
  wp_step generateId_post. intros id w1 [Hts1 Hps1].
  wp_step getProjects_post. intros read w2 [-> (Hne & Hts2 & Hsame & Hfresh)].
  unfold wp. cbn [bind ret ProjectStorageService.saveProjects fst snd
                  todoapp_projects todoapp_tasks].
  exists (todoapp_projects w2).
  split; [reflexivity |]. split.
  { intros H. rewrite Hsame by (rewrite Hps1; exact H). exact Hps1. }
  split.
  { intros H. apply Hfresh. rewrite Hps1. exact H. }
  split; [reflexivity |]. split; [reflexivity |]. split; [reflexivity |].
  split; [rewrite Hts2, Hts1; reflexivity |].
  rewrite projectExists_stored
    by (cbn; destruct (todoapp_projects w2); discriminate).
  cbn [todoapp_projects]. rewrite existsb_app. cbn.
  rewrite String.eqb_refl, orb_true_r. reflexivity.
Qed.

(** X13.  After [importProjects] a default project is stored: the given
    list as it is when it has one, and otherwise the given list behind a
    new default project named "Personal".  The tasks are untouched and
    the stored list is the one the next [getProjects] returns. *)
Theorem importProjects_has_default (projects : list Project) (w : World) :
  let (imported, w') := ProjectStorageService.importProjects projects w in
  imported = true
  /\ existsb isDefault (todoapp_projects w') = true
  /\ (existsb isDefault projects = true -> todoapp_projects w' = projects)
  /\ (existsb isDefault projects = false ->
      exists d, todoapp_projects w' = d :: projects
                /\ isDefault d = true /\ project_name d = "Personal")
  /\ todoapp_tasks w' = todoapp_tasks w
  /\ ProjectStorageService.getProjects w' = (todoapp_projects w', w').
Proof.
  unfold ProjectStorageService.importProjects.
  change (fun p => isDefault p) with isDefault.
  destruct (existsb isDefault projects) eqn:Hd; cbn.
  - split; [reflexivity |]. split; [exact Hd |]. split; [reflexivity |].
    split; [discriminate |]. split; [reflexivity |].
    apply getProjects_stored. cbn. intros ->. discriminate.
  - split; [reflexivity |]. split; [reflexivity |]. split; [discriminate |].
    split; [intros _; eexists; repeat split |]. split; reflexivity.
Qed.


(** X15.  In the figures of [getProjectStats] the total is the number of
    default projects plus the number of the others, and it is never 0. *)
Theorem getProjectStats_adds_up (w : World) :
  let stats := fst (ProjectStorageService.getProjectStats w) in
  counts_total stats = counts_default stats + counts_custom stats
  /\ 1 <= counts_total stats.
Proof.
  cbv zeta. unfold ProjectStorageService.getProjectStats, bind.
  pose proof (getProjects_post w) as H. unfold wp in H.
  destruct (ProjectStorageService.getProjects w) as [ps w']. cbn in *.
  destruct H as (Heq & Hne & _). split.
  - rewrite (count_complement (fun p => isDefault p) ps). lia.
  - rewrite <- Heq in Hne. destruct ps; [congruence | cbn; lia].
Qed.

End ProjectWrites.


(** ** Deletions that are refused before anything is touched *)

Section GuardFirst.
Context {env : Environment}.

Lemma getProjects2_stored (w : World) :
  todoapp_projects w <> [] ->
  TaskStorageService2.getProjects w = (todoapp_projects w, w).
Proof.
  intros H. unfold TaskStorageService2.getProjects.
  destruct (todoapp_projects w); [congruence | reflexivity].
Qed.

(** X16.  The [deleteProject] of the second [TaskStorageService] class
    checks before it reassigns: with projects stored, on the id of a
    default project, or on an id no project carries, it returns [false]
    and changes nothing, not even the [updatedAt] of a task. *)
Theorem deleteProject2_refuses (projectId : string) (w : World) :
  todoapp_projects w <> [] ->
  match find (fun p => String.eqb (project_id p) projectId)
             (todoapp_projects w) with
  | Some project => isDefault project = true
  | None => True
  end ->
  TaskStorageService2.deleteProject projectId w = (false, w).
Proof.
  intros Hne H. unfold TaskStorageService2.deleteProject, bind.
  rewrite (getProjects2_stored w Hne).
  destruct (find _ (todoapp_projects w)) as [p |]; [| reflexivity].
  rewrite H. reflexivity.
Qed.

(** X17.  [bulkDeleteProjects] drops, before it calls the store, every id
    that the hook's project list shows as a default project or does not
    know: when all the given ids are such, it returns 0 and changes neither
    the stores nor the hook's list. *)
Theorem bulkDeleteProjects_skips_default (projectIds : list string)
    (st : ProjectsState) (w : World) :
  (forall id, In id projectIds ->
     match find (fun p => String.eqb (project_id p) id) (state_projects st) with
     | Some project => isDefault project = true
     | None => True
     end) ->
  useProjects.bulkDeleteProjects projectIds st w
  = (0, mkProjectsState (state_projects st) (projects_loading st) None, w).
Proof.
  intros H. unfold useProjects.bulkDeleteProjects, bind.
  assert (Hnone :
    filter (fun id =>
              match find (fun project => String.eqb (project_id project) id)
                         (state_projects st) with
              | Some project => negb (isDefault project)
              | None => false
              end) projectIds = []).
  { induction projectIds as [| id ids IH]; cbn; [reflexivity |].
    pose proof (H id (or_introl eq_refl)) as Hid.
    destruct (find _ (state_projects st)) as [p |].
    - rewrite Hid. cbn. apply IH. intros x Hx. apply H. right. exact Hx.
    - apply IH. intros x Hx. apply H. right. exact Hx. }
  rewrite Hnone. reflexivity.
Qed.

End GuardFirst.

Lemma deleteProject2_refuses_witness :
  let w := sample_world
             [sample_task "t1" "Write report" TODO HIGH
                          (Some (project_id personal)) None]
             [personal; work] in
  @TaskStorageService2.deleteProject sample_env (project_id personal) w
  = (false, w).
Proof.
  intros w.
  apply (@deleteProject2_refuses sample_env (project_id personal) w).
  - discriminate.
  - reflexivity.
Defined.

Lemma bulkDeleteProjects_skips_default_witness :
  let w := sample_world
             [sample_task "t1" "Write report" TODO HIGH
                          (Some (project_id personal)) None]
             [personal; work] in
  let st := mkProjectsState [personal; work] false None in
  fst (@useProjects.bulkDeleteProjects sample_env [project_id personal] st w)
  = (0, st).
Proof.
  intros w st.
  rewrite (@bulkDeleteProjects_skips_default sample_env [project_id personal]
             st w).
  - reflexivity.
  - intros id [<- | []]. reflexivity.
Defined.

(** ** The hook's copy of the tasks *)

Section HookSync.
Context {env : Environment}.

Lemma filter_same_length {A} (p : A -> bool) (l : list A) :
  List.length (filter p l) = List.length l -> filter p l = l.
Proof.
  induction l as [| x l IH]; cbn; [reflexivity |].
  destruct (p x); cbn; intros H.
  - f_equal. apply IH. lia.
  - pose proof (filter_length_le p l). lia.
Qed.

Lemma filter_filter {A} (p q : A -> bool) (l : list A) :
  filter q (filter p l) = filter (fun x => p x && q x) l.
Proof.
  induction l as [| x l IH]; cbn; [reflexivity |].
  destruct (p x); cbn; [destruct (q x) |]; rewrite IH; reflexivity.
Qed.

Lemma deleteTask_tasks (taskId : string) (w : World) :
  TaskStorageService.deleteTask taskId w
  = (existsb (hasId taskId) (todoapp_tasks w),
     mkWorld (filter (fun t => negb (hasId taskId t)) (todoapp_tasks w))
             (todoapp_projects w) (clock_reads w) (random_draws w)).
Proof.
  destruct (find (hasId taskId) (todoapp_tasks w)) as [t |] eqn:Hf.
  - rewrite (deleteTask_stored taskId w t Hf).
    assert (Hex : existsb (hasId taskId) (todoapp_tasks w) = true).
    { apply existsb_exists. apply find_some in Hf. exists t. exact Hf. }
    rewrite Hex. reflexivity.
  - rewrite (deleteTask_unknown taskId w Hf), (filter_none _ _ Hf).
    assert (Hex : existsb (hasId taskId) (todoapp_tasks w) = false).
    { apply not_true_is_false. intros Hex. apply existsb_exists in Hex.
      destruct Hex as (x & Hx & Hid).
      apply (find_none _ _ Hf) in Hx. congruence. }
    rewrite Hex. destruct w; reflexivity.
Qed.

Lemma existsb_hasId_filter (id y : string) (l : list Task) :
  y <> id ->
  existsb (hasId y) (filter (fun t => negb (hasId id t)) l)
  = existsb (hasId y) l.
Proof.
  intros Hne. induction l as [| t l IHl]; cbn; [reflexivity |].
  destruct (hasId id t) eqn:Hid; cbn; rewrite IHl; [| reflexivity].
  unfold hasId in *. apply String.eqb_eq in Hid.
  destruct (String.eqb_spec (task_id t) y); [congruence | reflexivity].
Qed.

Lemma deleteEachTask_post (taskIds : list string) (n : Z) (w : World) :
  wp (useTasks.deleteEachTask taskIds n) w
     (fun deletedCount w' =>
        todoapp_tasks w'
        = filter (fun t => negb (listed taskIds t)) (todoapp_tasks w)
        /\ todoapp_projects w' = todoapp_projects w
        /\ n <= deletedCount <= n + Z.of_nat (List.length taskIds)
        /\ (NoDup taskIds ->
            deletedCount
            = n + count (fun id => existsb (hasId id) (todoapp_tasks w))
                        taskIds)).
Proof.
  revert n w. induction taskIds as [| id ids IH]; intros n w;
    cbn [useTasks.deleteEachTask].
  - apply wp_ret. unfold listed, count. cbn.
    assert (Hall : filter (fun _ : Task => true) (todoapp_tasks w)
                   = todoapp_tasks w).
    { induction (todoapp_tasks w) as [| t l IHl]; cbn; congruence. }
    rewrite Hall. repeat split; lia.
  - apply wp_bind. unfold wp at 1. rewrite deleteTask_tasks. cbn [fst snd].
    eapply wp_mono; [apply IH |]. cbv beta.
    cbn [todoapp_tasks todoapp_projects].
    intros deletedCount w' (Hts & Hps & Hrange & Hcount).
    split; [| split; [exact Hps | split]].
    + rewrite Hts, filter_filter. apply filter_ext. intros t.
      unfold listed, hasId. cbn [existsb].
      rewrite negb_orb. reflexivity.
    + cbn [List.length]. destruct (existsb (hasId id) (todoapp_tasks w)); lia.
    + intros Hnd. inversion Hnd as [| x l Hnot Hnd']; subst.
      rewrite (Hcount Hnd'). unfold count. cbn [filter].
      assert (Hsame :
        filter (fun id0 => existsb (hasId id0)
                             (filter (fun t => negb (hasId id t))
                                     (todoapp_tasks w))) ids
        = filter (fun id0 => existsb (hasId id0) (todoapp_tasks w)) ids).
      { clear - Hnot. induction ids as [| y ys IHy]; cbn; [reflexivity |].
        assert (Hy : existsb (hasId y)
                       (filter (fun t => negb (hasId id t)) (todoapp_tasks w))
                     = existsb (hasId y) (todoapp_tasks w)).
        { apply existsb_hasId_filter. intros ->. apply Hnot. left. reflexivity. }
        rewrite Hy, IHy; [reflexivity |]. intros H. apply Hnot. right. exact H. }
      rewrite Hsame.
      destruct (existsb (hasId id) (todoapp_tasks w)); cbn [List.length]; lia.
Qed.

(** X18.  [bulkDeleteTasks] stores the collection without the tasks whose
    id is among the given ones, and drops the tasks of these ids from the
    list the hook holds, whatever the count.  The count it returns is at
    most the number of ids given, and, when the ids are distinct, the
    number of them that a stored task carried. *)
Theorem bulkDeleteTasks_removes (taskIds : list string) (st : TasksState)
    (w : World) :
  let '(deletedCount, st', w') := useTasks.bulkDeleteTasks taskIds st w in
  todoapp_tasks w'
  = filter (fun t => negb (listed taskIds t)) (todoapp_tasks w)
  /\ state_tasks st'
     = filter (fun t => negb (listed taskIds t)) (state_tasks st)
  /\ todoapp_projects w' = todoapp_projects w
  /\ 0 <= deletedCount <= Z.of_nat (List.length taskIds)
  /\ (NoDup taskIds ->
      deletedCount
      = count (fun id => existsb (hasId id) (todoapp_tasks w)) taskIds).
Proof.
  unfold useTasks.bulkDeleteTasks, bind.
  pose proof (deleteEachTask_post taskIds 0 w) as H. unfold wp in H.
  destruct (useTasks.deleteEachTask taskIds 0 w) as [n w']. cbn in *.
  destruct H as (Hts & Hps & Hrange & Hcount).
  split; [exact Hts |]. split; [reflexivity |]. split; [exact Hps |].
  split; [lia |]. intros Hnd. rewrite (Hcount Hnd). lia.
Qed.

End HookSync.

Lemma bulkDeleteTasks_removes_witness :
  let w := sample_world [draft; late_task] [personal] in
  let st := mkTasksState [draft; late_task] false None in
  let '(deletedCount, st', w') :=
    @useTasks.bulkDeleteTasks ["t1"; "t9"] st w in
  todoapp_tasks w' = [late_task] /\ state_tasks st' = [late_task]
  /\ deletedCount = 1.
Proof.
  intros w st.
  pose proof (bulkDeleteTasks_removes ["t1"; "t9"] st w) as H.
  destruct (@useTasks.bulkDeleteTasks ["t1"; "t9"] st w) as [[n st'] w'].
  destruct H as (Hts & Hst & _ & _ & Hcount).
  split; [rewrite Hts; reflexivity |]. split; [rewrite Hst; reflexivity |].
  rewrite Hcount; [reflexivity |].
  constructor; [| constructor; [| constructor]]; cbn.
  - intros [H | []]. discriminate.
  - intros [].
Defined.

(** ** The tags in use *)

Section Tags.

Lemma Set_add_In (set : list string) (x y : string) :
  In y (Set_add set x) <-> In y set \/ y = x.
Proof.
  unfold Set_add. destruct (existsb (String.eqb x) set) eqn:Hex.
  - split; [auto |]. intros [H | ->]; [exact H |].
    apply existsb_exists in Hex. destruct Hex as (z & Hz & Heq).
    apply String.eqb_eq in Heq. subst z. exact Hz.
  - rewrite in_app_iff. cbn. intuition.
Qed.

Lemma Set_add_NoDup (set : list string) (x : string) :
  NoDup set -> NoDup (Set_add set x).
Proof.
  intros H. unfold Set_add. destruct (existsb (String.eqb x) set) eqn:Hex.
  - exact H.
  - apply NoDup_app; [exact H | constructor; [intros [] | constructor] |].
    intros y Hy [<- | []].
    assert (existsb (String.eqb x) set = true)
      by (apply existsb_exists; exists x; split; [exact Hy | apply String.eqb_refl]).
    congruence.
Qed.

Lemma add_all_In (tags set : list string) (y : string) :
  In y (fold_left Set_add tags set) <-> In y set \/ In y tags.
Proof.
  revert set. induction tags as [| t tags IH]; intros set; cbn.
  - tauto.
  - rewrite IH, Set_add_In. intuition.
Qed.

Lemma add_all_NoDup (tags set : list string) :
  NoDup set -> NoDup (fold_left Set_add tags set).
Proof.
  revert set. induction tags as [| t tags IH]; intros set H; cbn.
  - exact H.
  - apply IH, Set_add_NoDup, H.
Qed.

Lemma tagSet_spec (tasks : list Task) (set : list string) :
  let tagSet :=
    fold_left (fun tagSet task =>
                 match task_tags task with
                 | Some tags => fold_left Set_add tags tagSet
                 | None => tagSet
                 end) tasks set in
  (NoDup set -> NoDup tagSet)
  /\ (forall tag, In tag tagSet <-> In tag set \/ tagged tasks tag).
Proof.
  revert set. induction tasks as [| t tasks IH]; intros set; cbn.
  - split; [auto |]. intros tag. split; [auto |].
    intros [H | (task & tags & [] & _)]. exact H.
  - destruct (IH (match task_tags t with
                  | Some tags => fold_left Set_add tags set
                  | None => set
                  end)) as [Hnd Hin].
    split.
    + intros H. apply Hnd. destruct (task_tags t); [apply add_all_NoDup |]; exact H.
    + intros tag. rewrite Hin. unfold tagged. split.
      * intros [H | (task & tags & Ht & Htags & Htag)].
        -- destruct (task_tags t) as [tags |] eqn:Htags; [| auto].
           apply add_all_In in H. destruct H as [H | H]; [auto |].
           right. exists t, tags. cbn. auto.
        -- right. exists task, tags. cbn. auto.
      * intros [H | (task & tags & [<- | Ht] & Htags & Htag)].
        -- left. destruct (task_tags t); [apply add_all_In |]; auto.
        -- left. rewrite Htags. apply add_all_In. auto.
        -- right. exists task, tags. auto.
Qed.

Lemma defaultCompare_values (x y : string) :
  defaultCompare x y = compareValues ASC (Str x) (Str y).
Proof. reflexivity. Qed.

(** X20.  [getAllTags] lists exactly the tags of the given tasks, each
    once, in strictly increasing order. *)
Theorem getAllTags_sorted_set (tasks : list Task) :
  (forall tag, In tag (useTasks.getAllTags tasks) <-> tagged tasks tag)
  /\ NoDup (useTasks.getAllTags tasks)
  /\ StronglySorted (fun a b => String.ltb a b = true)
                    (useTasks.getAllTags tasks).
Proof.
  unfold useTasks.getAllTags.
  destruct (tagSet_spec tasks []) as [Hnd Hin]. cbv zeta in Hnd, Hin.
  set (tagSet := fold_left _ tasks []) in *.
  pose proof (Array_sort_perm defaultCompare tagSet) as Hperm.
  assert (Hnodup : NoDup (Array_sort defaultCompare tagSet)).
  { apply (Permutation_NoDup (Permutation_sym Hperm)). apply Hnd. constructor. }
  split; [| split; [exact Hnodup |]].
  - intros tag. split.
    + intros H. apply (Permutation_in _ Hperm) in H. apply Hin in H.
      destruct H as [[] | H]. exact H.
    + intros H. apply (Permutation_in _ (Permutation_sym Hperm)).
      apply Hin. right. exact H.
  - assert (Hsorted : StronglySorted (fun a b => defaultCompare a b <= 0)
                                     (Array_sort defaultCompare tagSet)).
    { apply Array_sort_sorted.
      - intros x y. rewrite !defaultCompare_values. unfold compareValues.
        destruct (js_lt (Str x) (Str y)) eqn:H1.
        + rewrite (js_lt_asym _ _ H1). lia.
        + destruct (js_lt (Str y) (Str x)); lia.
      - intros x y z. rewrite !defaultCompare_values, !compareValues_le.
        intros H1 H2.
        destruct (js_lt (Str z) (Str x)) eqn:H; [| reflexivity].
        destruct (js_lt_cotrans (Str x) (Str y) (Str z) I I H); congruence. }
    clear - Hsorted Hnodup.
    induction Hsorted as [| a l Hs IH Ha]; [constructor |].
    inversion Hnodup as [| a' l' Hnot Hl]; subst.
    constructor; [apply IH; exact Hl |].
    rewrite Forall_forall in *. intros b Hb. specialize (Ha b Hb).
    rewrite defaultCompare_values, compareValues_le in Ha. cbn in Ha.
    destruct (String.ltb a b) eqn:Hab; [reflexivity |].
    exfalso. apply Hnot.
    rewrite (string_ltb_trichotomy _ _ Hab Ha). exact Hb.
Qed.

End Tags.

(** ** The filter engine as a whole *)

Section Pipeline.
Context {env : Environment} {cal : Calendar}.

Lemma filter_all {A} (l : list A) : filter (fun _ => true) l = l.
Proof. induction l as [| x l IH]; cbn; congruence. Qed.

Lemma filter_Forall {A} (p : A -> bool) (l : list A) :
  Forall (fun x => p x = true) l -> filter p l = l.
Proof.
  induction 1 as [| x l Hx _ IH]; cbn; [reflexivity |].
  rewrite Hx, IH. reflexivity.
Qed.

Lemma stage_search (filter : TaskFilter) (l : list Task) :
  match searchQuery filter with
  | Some q =>
      if truthy_string q
      then List.filter (useTasks.matchesSearch (toLowerCase q)) l
      else l
  | None => l
  end = List.filter (keepsSearch filter) l.
Proof.
  unfold keepsSearch. destruct (searchQuery filter) as [q |];
    [destruct (truthy_string q) |]; try rewrite filter_all; reflexivity.
Qed.

Lemma stage_status (filter : TaskFilter) (l : list Task) :
  match filter_status filter with
  | Some (only s) =>
      List.filter (fun task => TaskStatus_eqb (task_status task) s) l
  | _ => l
  end = List.filter (keepsStatus filter) l.
Proof.
  unfold keepsStatus. destruct (filter_status filter) as [[| s] |];
    try rewrite filter_all; reflexivity.
Qed.

Lemma stage_priority (filter : TaskFilter) (l : list Task) :
  match filter_priority filter with
  | Some (only p) =>
      List.filter (fun task => TaskPriority_eqb (task_priority task) p) l
  | _ => l
  end = List.filter (keepsPriority filter) l.
Proof.
  unfold keepsPriority. destruct (filter_priority filter) as [[| s] |];
    try rewrite filter_all; reflexivity.
Qed.

Lemma stage_project (filter : TaskFilter) (l : list Task) :
  match filter_projectId filter with
  | Some p =>
      if truthy_string p && negb (String.eqb p "all")
      then List.filter (fun task => strict_eq (task_projectId task) p) l
      else l
  | None => l
  end = List.filter (keepsProject filter) l.
Proof.
  unfold keepsProject. destruct (filter_projectId filter) as [p |];
    [destruct (_ && _) |]; try rewrite filter_all; reflexivity.
Qed.

Lemma stage_completed (filter : TaskFilter) (l : list Task) :
  match showCompleted filter with
  | Some false => List.filter (fun task => negb (task_completed task)) l
  | _ => l
  end = List.filter (keepsCompleted filter) l.
Proof.
  unfold keepsCompleted. destruct (showCompleted filter) as [[] |];
    try rewrite filter_all; reflexivity.
Qed.

Lemma stage_tags (filter : TaskFilter) (l : list Task) :
  match filter_tags filter with
  | Some filterTags =>
      if (0 <? Z.of_nat (List.length filterTags))
      then List.filter (useTasks.matchesTags filterTags) l
      else l
  | None => l
  end = List.filter (keepsTags filter) l.
Proof.
  unfold keepsTags. destruct (filter_tags filter) as [ts |];
    [destruct (0 <? _) |]; try rewrite filter_all; reflexivity.
Qed.

Lemma stage_dueDate (filter : TaskFilter) (l : list Task) (w : World) :
  useTasks.dueDateStage filter l w
  = (List.filter (keepsDueDate filter (clock (clock_reads w))) l,
     match useTasks.dueDateFilterApplies filter with
     | Some _ => tick w
     | None => w
     end).
Proof.
  unfold useTasks.dueDateStage, keepsDueDate.
  destruct (useTasks.dueDateFilterApplies filter);
    [reflexivity | rewrite filter_all; reflexivity].
Qed.

Lemma filteredAndSortedTasks_keeps (tasks : list Task) (filter : TaskFilter)
    (sort : TaskSort) (w : World) :
  fst (useTasks.filteredAndSortedTasks tasks filter sort w)
  = Array_sort (compareFn sort)
               (List.filter (keeps filter (clock (clock_reads w))) tasks).
Proof.
  unfold useTasks.filteredAndSortedTasks. cbv zeta.
  rewrite stage_search, stage_status, stage_priority, stage_project,
    stage_completed.
  unfold bind. rewrite stage_dueDate. rewrite stage_tags. cbn [fst ret].
  rewrite !filter_filter. f_equal. apply filter_ext. intros task.
  unfold keeps. rewrite !andb_assoc. reflexivity.
Qed.

Lemma filteredAndSortedTasks_sorted (tasks : list Task) (filter : TaskFilter)
    (sort : TaskSort) (w : World) :
  let now := clock (clock_reads w) in
  let result := fst (useTasks.filteredAndSortedTasks tasks filter sort w) in
  Permutation result (List.filter (keeps filter now) tasks)
  /\ StronglySorted (fun a b => compareFn sort a b <= 0) result
  /\ (forall task, In task result <->
                   In task tasks /\ keeps filter now task = true).
Proof.
  cbv zeta. rewrite filteredAndSortedTasks_keeps.
  set (kept := List.filter _ tasks).
  pose proof (Array_sort_perm (compareFn sort) kept) as Hperm.
  split; [exact Hperm |].
  split; [apply Array_sort_sorted;
          [apply compareFn_total | apply compareFn_trans] |].
  intros task. unfold kept. rewrite <- filter_In. split.
  - apply Permutation_in. exact Hperm.
  - apply Permutation_in. apply Permutation_sym. exact Hperm.
Qed.

(** X21.  The filter engine applies its criteria as one conjunction:
    the list it returns holds, in the order of the comparator, exactly the
    given tasks that meet the search, status, priority, project, completed,
    due date and tags criteria at the instant the clock shows, each as
    often as it was given, so never more tasks than were given; and when
    [showCompleted] is [false] it holds no completed task. *)
Theorem filter_is_conjunction (tasks : list Task) (filter : TaskFilter)
    (sort : TaskSort) (w : World) :
  let now := clock (clock_reads w) in
  let result := fst (useTasks.filteredAndSortedTasks tasks filter sort w) in
  Permutation result (List.filter (keeps filter now) tasks)
  /\ StronglySorted (fun a b => compareFn sort a b <= 0) result
  /\ (forall task, In task result <->
                   In task tasks /\ keeps filter now task = true)
  /\ (List.length result <= List.length tasks)%nat
  /\ (showCompleted filter = Some false ->
      Forall (fun task => task_completed task = false) result).
Proof.
  cbv zeta.
  destruct (filteredAndSortedTasks_sorted tasks filter sort w)
    as (Hperm & Hsorted & Hin).
  split; [exact Hperm |]. split; [exact Hsorted |].
  split; [exact Hin |]. split.
  - rewrite (Permutation_length Hperm). apply filter_length_le.
  - intros Hshow. apply Forall_forall. intros task Ht.
    apply Hin in Ht. destruct Ht as [_ Hk]. unfold keeps in Hk.
    rewrite !andb_true_iff in Hk.
    destruct Hk as [[[_ Hc] _] _]. revert Hc.
    unfold keepsCompleted. rewrite Hshow. apply negb_true_iff.
Qed.

End Pipeline.

Lemma Array_sort_of_sorted {A} (compare : A -> A -> Z) (l : list A) :
  StronglySorted (fun a b => compare a b <= 0) l -> Array_sort compare l = l.
Proof.
  induction 1 as [| x l Hs IH Hx]; cbn; [reflexivity |].
  fold (Array_sort compare l). rewrite IH.
  destruct l as [| y l']; cbn; [reflexivity |].
  inversion Hx as [| y' l'' Hxy _]; subst.
  destruct (Z.leb_spec (compare x y) 0); [reflexivity | lia].
Qed.

Section Idempotent.
Context {env : Environment} {cal : Calendar}.

(** X22.  Filtering is idempotent: given its own result, with the same
    filter and sort and the clock showing the same instant, the filter
    engine returns that result unchanged. *)
Theorem filter_idempotent (tasks : list Task) (filter : TaskFilter)
    (sort : TaskSort) (w w2 : World) :
  clock (clock_reads w2) = clock (clock_reads w) ->
  let result := fst (useTasks.filteredAndSortedTasks tasks filter sort w) in
  fst (useTasks.filteredAndSortedTasks result filter sort w2) = result.
Proof.
  intros Hclock. cbv zeta.
  destruct (filteredAndSortedTasks_sorted tasks filter sort w)
    as (_ & Hsorted & Hin).
  rewrite (filteredAndSortedTasks_keeps _ filter sort w2), Hclock.
  rewrite filter_Forall.
  - apply Array_sort_of_sorted. exact Hsorted.
  - apply Forall_forall. intros task Ht. apply Hin in Ht. tauto.
Qed.

End Idempotent.

Lemma filter_idempotent_witness :
  let w := sample_world [] [personal] in
  let filter := mkTaskFilter None None None None (Some OVERDUE) None
                             (Some false) in
  let sort := mkTaskSort DUE_DATE ASC in
  let result :=
    fst (@useTasks.filteredAndSortedTasks sample_env UTC
           [dated_task; late_task; epoch_task] filter sort w) in
  fst (@useTasks.filteredAndSortedTasks sample_env UTC result filter sort w)
  = result.
Proof.
  intros w filter sort.
  exact (@filter_idempotent sample_env UTC [dated_task; late_task; epoch_task]
           filter sort w w eq_refl).
Defined.

Lemma filter_is_conjunction_witness :
  let w := sample_world [] [personal] in
  let filter := mkTaskFilter None None None None None None (Some false) in
  Forall (fun task => task_completed task = false)
    (fst (@useTasks.filteredAndSortedTasks sample_env UTC
            [dated_task; late_task] filter DEFAULT_SORT w)).
Proof.
  intros w filter.
  exact (proj2 (proj2 (proj2 (proj2
           (@filter_is_conjunction sample_env UTC [dated_task; late_task]
              filter DEFAULT_SORT w)))) eq_refl).
Defined.

(** ** The due date buckets in calendar days *)

Section Buckets.
Context {env : Environment} {cal : Calendar}.


End Buckets.


(** ** Searching *)

Section Search.
Context {cal : Calendar}.

Lemma prefix_spec (q s : string) :
  String.prefix q s = true <-> exists b, s = (q ++ b)%string.
Proof.
  revert s. induction q as [| c q IH]; intros s.
  - destruct s; cbn; (split; [intros _; eexists; reflexivity | reflexivity]).
  - destruct s as [| d s]; cbn;
      [split; [discriminate | intros (b & H); discriminate] |].
    destruct (Ascii.ascii_dec c d) as [-> | Hne].
    + rewrite IH. split; intros (b & H); exists b; congruence.
    + split; [discriminate | intros (b & H); congruence].
Qed.

Lemma includes_spec (s q : string) : includes s q = true <-> occurs_in q s.
Proof.
  unfold occurs_in. induction s as [| c s IH].
  - cbn [includes]. destruct (String.prefix q "") eqn:Hp.
    + split; [| reflexivity]. intros _. apply prefix_spec in Hp.
      destruct Hp as (b & Hb). exists "", b. exact Hb.
    + split; [discriminate |]. intros (a & b & H).
      destruct a as [| x a]; [| discriminate]. cbn in H.
      assert (String.prefix q "" = true) by (apply prefix_spec; exists b; exact H).
      congruence.
  - cbn [includes]. destruct (String.prefix q (String c s)) eqn:Hp.
    + split; [| reflexivity]. intros _. apply prefix_spec in Hp.
      destruct Hp as (b & Hb). exists "", b. exact Hb.
    + rewrite IH. split.
      * intros (a & b & H). exists (String c a), b. cbn. congruence.
      * intros (a & b & H). destruct a as [| x a]; cbn in H.
        -- assert (String.prefix q (String c s) = true)
             by (apply prefix_spec; exists b; exact H).
           congruence.
        -- inversion H. exists a, b. reflexivity.
Qed.

Lemma toLowerCase_empty (s : string) : toLowerCase s = "" <-> s = "".
Proof. destruct s; cbn; split; congruence. Qed.

Lemma toLowerCase_ascii_idem (c : ascii) :
  toLowerCase_ascii (toLowerCase_ascii c) = toLowerCase_ascii c.
Proof.
  unfold toLowerCase_ascii.
  destruct ((65 <=? nat_of_ascii c)%nat && (nat_of_ascii c <=? 90)%nat) eqn:H;
    [| rewrite H; reflexivity].
  apply andb_true_iff in H. destruct H as [H1 H2].
  apply Nat.leb_le in H1, H2.
  rewrite nat_ascii_embedding by lia.
  destruct (Nat.leb_spec (nat_of_ascii c + 32) 90); [lia |].
  rewrite andb_false_r. reflexivity.
Qed.

Lemma toLowerCase_idem (s : string) :
  toLowerCase (toLowerCase s) = toLowerCase s.
Proof.
  induction s as [| c s IH]; cbn; [reflexivity |].
  rewrite toLowerCase_ascii_idem, IH. reflexivity.
Qed.

(** X24.  The search criterion, on ASCII text: without a query, or with
    the empty one, it keeps every task; otherwise it keeps a task exactly
    when the query, in lower case, occurs in the title, the description or
    one of the tags, in lower case.  So a query and its lower case form
    select the same tasks. *)
Theorem search_is_substring (filter : TaskFilter) (task : Task) :
  asciiTask task ->
  (searchQuery filter = None \/ searchQuery filter = Some "" ->
   keepsSearch filter task = true)
  /\ (forall q,
        searchQuery filter = Some q -> q <> "" -> isASCII q = true ->
        (keepsSearch filter task = true <->
         occurs_in (toLowerCase q) (toLowerCase (task_title task))
         \/ (exists d, task_description task = Some d
                       /\ occurs_in (toLowerCase q) (toLowerCase d))
         \/ (exists tags tag, task_tags task = Some tags /\ In tag tags
                              /\ occurs_in (toLowerCase q) (toLowerCase tag)))
        /\ keepsSearch filter task
           = keepsSearch
               (mkTaskFilter (Some (toLowerCase q)) (filter_status filter)
                  (filter_priority filter) (filter_projectId filter)
                  (filter_dueDate filter) (filter_tags filter)
                  (showCompleted filter)) task).
Proof.
  intros _. unfold keepsSearch. split.
  - intros [-> | ->]; reflexivity.
  - intros q -> Hq _. cbn [searchQuery].
    assert (Ht : truthy_string q = true).
    { unfold truthy_string. apply negb_true_iff, String.eqb_neq. exact Hq. }
    assert (Ht' : truthy_string (toLowerCase q) = true).
    { unfold truthy_string. apply negb_true_iff, String.eqb_neq.
      rewrite toLowerCase_empty. exact Hq. }
    rewrite Ht, Ht', toLowerCase_idem. split; [| reflexivity].
    unfold useTasks.matchesSearch. rewrite !orb_true_iff, includes_spec.
    split.
    + intros [[H | H] | H]; [left; exact H | right; left | right; right].
      * destruct (task_description task) as [d |]; [| discriminate].
        exists d. split; [reflexivity | apply includes_spec; exact H].
      * destruct (task_tags task) as [tags |]; [| discriminate].
        apply existsb_exists in H. destruct H as (tag & Hin & H).
        exists tags, tag. repeat split; auto. apply includes_spec. exact H.
    + intros [H | [(d & -> & H) | (tags & tag & -> & Hin & H)]].
      * left; left; exact H.
      * left; right. apply includes_spec. exact H.
      * right. apply existsb_exists. exists tag. split; [exact Hin |].
        apply includes_spec. exact H.
Qed.

End Search.

Lemma search_is_substring_witness :
  keepsSearch (mkTaskFilter (Some "REPORT") None None None None None None)
              dated_task = true.
Proof.
  assert (Hascii : asciiTask dated_task).
  { split; [reflexivity |]. split; [discriminate |].
    intros tags tag Htags Hin. inversion Htags; subst tags. destruct Hin. }
  apply (proj1 (proj2 (search_is_substring
           (mkTaskFilter (Some "REPORT") None None None None None None)
           dated_task Hascii) "REPORT" eq_refl ltac:(discriminate) eq_refl)).
  left. exists "write ", "". reflexivity.
Defined.

(** ** Suggesting a project name *)

Section NameSuggestion.

Lemma append_assoc (a b c : string) :
  ((a ++ b) ++ c = a ++ (b ++ c))%string.
Proof. induction a as [| x a IH]; cbn; congruence. Qed.

Lemma append_cancel_left (a x y : string) :
  (a ++ x = a ++ y)%string -> x = y.
Proof. induction a as [| c a IH]; cbn; [auto |]. intros H. inversion H. auto. Qed.

Lemma append_cancel_last (a b : string) (c : ascii) :
  (a ++ String c "" = b ++ String c "")%string -> a = b.
Proof.
  revert b. induction a as [| x a IH]; intros [| y b]; cbn; intros H.
  - reflexivity.
  - inversion H as [[H1 H2]]. destruct b; discriminate.
  - inversion H as [[H1 H2]]. destruct a; discriminate.
  - inversion H. f_equal. auto.
Qed.

Lemma toLowerCase_append (a b : string) :
  toLowerCase (a ++ b) = (toLowerCase a ++ toLowerCase b)%string.
Proof. induction a as [| x a IH]; cbn; congruence. Qed.

Lemma toLowerCase_digits (d : Decimal.uint) :
  toLowerCase (NilEmpty.string_of_uint d) = NilEmpty.string_of_uint d.
Proof. induction d; cbn; rewrite ?IHd; reflexivity. Qed.

Lemma Number_toString_inj (m n : nat) :
  Number_toString m = Number_toString n -> m = n.
Proof.
  unfold Number_toString. intros H.
  apply DecimalNat.Unsigned.to_uint_inj.
  pose proof (NilEmpty.usu (Nat.to_uint m)) as Hm.
  pose proof (NilEmpty.usu (Nat.to_uint n)) as Hn.
  rewrite H in Hm. congruence.
Qed.

Lemma trimEnd_last (a : string) (c : ascii) :
  isWhiteSpace c = false ->
  trimEnd (a ++ String c "") = (a ++ String c "")%string.
Proof.
  intros Hc. induction a as [| x a IH]; cbn.
  - rewrite Hc. reflexivity.
  - rewrite IH. destruct a; reflexivity.
Qed.

Lemma trimStart_black (s : string) : starts_black (trimStart s).
Proof.
  induction s as [| c s IH]; cbn; [exact I |].
  destruct (isWhiteSpace c) eqn:Hc; [exact IH | exact Hc].
Qed.

Lemma trimEnd_black (s : string) : starts_black s -> starts_black (trimEnd s).
Proof.
  destruct s as [| c s]; cbn; [auto |]. intros Hc.
  destruct (trimEnd s); [rewrite Hc |]; exact Hc.
Qed.

Lemma trim_black (s : string) : starts_black (trim s).
Proof. apply trimEnd_black, trimStart_black. Qed.

Lemma trim_candidate (t : string) (k : nat) :
  starts_black t ->
  trim (candidate t k)
  = match t with
    | EmptyString => ("(" ++ Number_toString k ++ ")")%string
    | _ => candidate t k
    end.
Proof.
  intros Ht. unfold trim, candidate. destruct t as [| c t]; cbn in *.
  - change (String "(" (Number_toString k ++ ")"))%string
      with ((String "(" (Number_toString k)) ++ String ")" "")%string.
    apply trimEnd_last. reflexivity.
  - rewrite Ht.
    change (String c (t ++ String " " (String "(" (Number_toString k ++ ")"))))%string
      with (String c t ++ (" (" ++ (Number_toString k ++ String ")" "")))%string.
    rewrite <- !append_assoc. apply trimEnd_last. reflexivity.
Qed.

Lemma candidate_key_inj (t : string) (j k : nat) :
  starts_black t ->
  toLowerCase (trim (candidate t j)) = toLowerCase (trim (candidate t k)) ->
  j = k.
Proof.
  intros Ht. rewrite !trim_candidate by exact Ht.
  assert (Hnum : forall n a,
            toLowerCase (a ++ Number_toString n ++ ")")
            = (toLowerCase a ++ Number_toString n ++ ")")%string).
  { intros n a. rewrite !toLowerCase_append. unfold Number_toString.
    rewrite toLowerCase_digits. reflexivity. }
  destruct t as [| c t].
  - rewrite (Hnum j "("), (Hnum k "("). intros H.
    apply append_cancel_left in H.
    apply append_cancel_last in H. apply Number_toString_inj. exact H.
  - unfold candidate.
    replace (String c t ++ " (" ++ Number_toString j ++ ")")%string
      with ((String c t ++ " (") ++ Number_toString j ++ ")")%string
      by apply append_assoc.
    replace (String c t ++ " (" ++ Number_toString k ++ ")")%string
      with ((String c t ++ " (") ++ Number_toString k ++ ")")%string
      by apply append_assoc.
    rewrite !Hnum. intros H.
    apply append_cancel_left in H.
    apply append_cancel_last in H. apply Number_toString_inj. exact H.
Qed.

Lemma trim_candidate_not_empty (t : string) (k : nat) :
  starts_black t -> trim (candidate t k) <> "".
Proof.
  intros Ht. rewrite trim_candidate by exact Ht.
  destruct t; cbn; discriminate.
Qed.

Lemma validateProjectName_spec (projects : list Project) (name : string) :
  ProjectValidation.validateProjectName projects name None = true <->
  trim name <> ""
  /\ forall p, In p projects ->
               toLowerCase (project_name p) <> toLowerCase (trim name).
Proof.
  unfold ProjectValidation.validateProjectName, truthy_string.
  destruct (String.eqb_spec (trim name) "") as [He | Hne]; cbn.
  - split; [discriminate | tauto].
  - rewrite negb_true_iff. split.
    + intros H. split; [exact Hne |]. intros p Hp Heq.
      assert (existsb (fun project =>
                String.eqb (toLowerCase (project_name project))
                           (toLowerCase (trim name)) && true) projects = true).
      { apply existsb_exists. exists p. split; [exact Hp |].
        rewrite Heq, String.eqb_refl. reflexivity. }
      congruence.
    + intros [_ H]. apply not_true_is_false. intros Hex.
      apply existsb_exists in Hex. destruct Hex as (p & Hp & Heq).
      rewrite andb_true_r in Heq. apply String.eqb_eq in Heq.
      exact (H p Hp Heq).
Qed.

Lemma suggestionLoop_step (fuel : nat) (projects : list Project)
    (t : string) (c : nat) (s : string) :
  ProjectValidation.suggestionLoop (S fuel) projects t c s
  = if negb (ProjectValidation.validateProjectName projects s None)
    then ProjectValidation.suggestionLoop fuel projects t (S c) (candidate t c)
    else Some s.
Proof. reflexivity. Qed.

Lemma suggestionLoop_finds (projects : list Project) (t : string) (n : nat) :
  forall c s,
    (exists j, (c <= j < c + n)%nat
               /\ ProjectValidation.validateProjectName projects (candidate t j)
                                                        None = true) ->
    exists r,
      ProjectValidation.suggestionLoop (S n) projects t c s = Some r
      /\ ProjectValidation.validateProjectName projects r None = true
      /\ (ProjectValidation.validateProjectName projects s None = true -> r = s).
Proof.
  induction n as [| n IH]; intros c s (j & Hj & Hv); [lia |].
  rewrite suggestionLoop_step.
  destruct (ProjectValidation.validateProjectName projects s None) eqn:Hs;
    cbn [negb].
  - exists s. auto.
  - destruct (ProjectValidation.validateProjectName projects (candidate t c) None)
      eqn:Hc.
    + exists (candidate t c). split; [| split; [exact Hc | discriminate]].
      rewrite suggestionLoop_step, Hc. reflexivity.
    + destruct (IH (S c) (candidate t c)) as (r & Hr & Hvr & _).
      { exists j. split; [| exact Hv].
        assert (j <> c) by (intros ->; congruence). lia. }
      exists r. split; [exact Hr | split; [exact Hvr | discriminate]].
Qed.

Lemma suggestionLoop_more_fuel (projects : list Project) (t : string)
    (fuel extra : nat) :
  forall c s r,
    ProjectValidation.suggestionLoop fuel projects t c s = Some r ->
    ProjectValidation.suggestionLoop (fuel + extra) projects t c s = Some r.
Proof.
  induction fuel as [| fuel IH]; intros c s r; cbn; [discriminate |].
  destruct (negb _); [apply IH | auto].
Qed.

Lemma NoDup_map_in {A B} (f : A -> B) (l : list A) :
  (forall x y, In x l -> In y l -> f x = f y -> x = y) ->
  NoDup l -> NoDup (map f l).
Proof.
  intros Hinj Hnd. induction Hnd as [| x l Hx Hl IH]; cbn; constructor.
  - intros Hin. apply in_map_iff in Hin. destruct Hin as (y & Heq & Hy).
    apply Hx. rewrite <- (Hinj y x); [exact Hy | right; exact Hy | left; reflexivity | exact Heq].
  - apply IH. intros a b Ha Hb. apply Hinj; right; assumption.
Qed.

Lemma some_candidate_is_free (projects : list Project) (t : string) :
  starts_black t ->
  exists j, (1 <= j < 1 + S (List.length projects))%nat
            /\ ProjectValidation.validateProjectName projects (candidate t j)
                                                     None = true.
Proof.
  intros Ht.
  set (tried := seq 1 (S (List.length projects))).
  destruct (existsb (fun j => ProjectValidation.validateProjectName projects
                                (candidate t j) None) tried) eqn:Hex.
  - apply existsb_exists in Hex. destruct Hex as (j & Hj & Hv).
    exists j. split; [| exact Hv]. apply in_seq in Hj. lia.
  - exfalso.
    set (key := fun j => toLowerCase (trim (candidate t j))).
    set (names := map (fun p => toLowerCase (project_name p)) projects).
    assert (Hincl : incl (map key tried) names).
    { intros x Hx. apply in_map_iff in Hx. destruct Hx as (j & <- & Hj).
      assert (Hv : ProjectValidation.validateProjectName projects
                     (candidate t j) None = false).
      { destruct (ProjectValidation.validateProjectName projects
                    (candidate t j) None) eqn:Hv; [| reflexivity].
        assert (existsb (fun j => ProjectValidation.validateProjectName
                                    projects (candidate t j) None) tried = true)
          by (apply existsb_exists; exists j; auto).
        congruence. }
      unfold ProjectValidation.validateProjectName, truthy_string in Hv.
      destruct (String.eqb_spec (trim (candidate t j)) "") as [He | _].
      - exfalso. exact (trim_candidate_not_empty t j Ht He).
      - cbn in Hv. apply negb_false_iff, existsb_exists in Hv.
        destruct Hv as (p & Hp & Heq). rewrite andb_true_r in Heq.
        apply String.eqb_eq in Heq. unfold key. rewrite <- Heq.
        unfold names. apply in_map_iff. exists p. auto. }
    assert (Hnd : NoDup (map key tried)).
    { apply NoDup_map_in; [| apply seq_NoDup].
      intros j k _ _ H. exact (candidate_key_inj t j k Ht H). }
    pose proof (NoDup_incl_length Hnd Hincl) as Hlen.
    unfold names, tried in Hlen. rewrite !length_map, length_seq in Hlen. lia.
Qed.

(** X25.  On ASCII names [getProjectNameSuggestion] ends: its loop
    tests at most two more names than there are projects, and the name it
    returns passes [validateProjectName], so it is not blank and is not,
    up to case and surrounding white space, the name of a project.  It is
    the trimmed base name when that one is free. *)
Theorem getProjectNameSuggestion_ends (projects : list Project)
    (baseName : string) :
  isASCII baseName = true ->
  (forall p, In p projects -> isASCII (project_name p) = true) ->
  exists suggestion,
    (forall fuel, (List.length projects + 2 <= fuel)%nat ->
       ProjectValidation.getProjectNameSuggestion fuel projects baseName
       = Some suggestion)
    /\ ProjectValidation.validateProjectName projects suggestion None = true
    /\ trim suggestion <> ""
    /\ (forall p, In p projects ->
          toLowerCase (project_name p) <> toLowerCase (trim suggestion))
    /\ (ProjectValidation.validateProjectName projects (trim baseName) None
        = true -> suggestion = trim baseName).
Proof.
  intros _ _. unfold ProjectValidation.getProjectNameSuggestion.
  destruct (suggestionLoop_finds projects (trim baseName)
              (S (List.length projects)) 1 (trim baseName)
              (some_candidate_is_free projects (trim baseName)
                 (trim_black baseName)))
    as (r & Hr & Hv & Hbase).
  exists r. split; [| split; [exact Hv | ]].
  - intros fuel Hfuel.
    replace fuel with (S (S (List.length projects))
                       + (fuel - S (S (List.length projects))))%nat by lia.
    apply suggestionLoop_more_fuel. exact Hr.
  - apply validateProjectName_spec in Hv. destruct Hv as [H1 H2].
    split; [exact H1 |]. split; [exact H2 | exact Hbase].
Qed.

End NameSuggestion.

Lemma getProjectNameSuggestion_ends_witness :
  exists suggestion,
    ProjectValidation.getProjectNameSuggestion 4 [personal; work] "  personal "
    = Some suggestion
    /\ ProjectValidation.validateProjectName [personal; work] suggestion None
       = true.
Proof.
  assert (Hnames : forall p, In p [personal; work] ->
                             isASCII (project_name p) = true).
  { intros p [<- | [<- | []]]; reflexivity. }
  destruct (getProjectNameSuggestion_ends [personal; work] "  personal "
              eq_refl Hnames)
    as (s & Hfuel & Hv & _).
  exists s. split; [apply Hfuel; cbn; lia | exact Hv].
Defined.

(** ** References to projects *)

Section References.
Context {env : Environment}.

Lemma existsb_read (pid : string) (w w' : World) :
  projects_read w w' ->
  existsb (fun p => String.eqb (project_id p) pid) (todoapp_projects w) = true ->
  existsb (fun p => String.eqb (project_id p) pid) (todoapp_projects w') = true.
Proof.
  intros [-> | (He & _)]; [auto |]. rewrite He. discriminate.
Qed.

Lemma references_read (tasks : list Task) (w w' : World) :
  projects_read w w' ->
  references_stored tasks (todoapp_projects w) ->
  references_stored tasks (todoapp_projects w').
Proof.
  intros Hr H task pid Hin Hp. apply (existsb_read pid w w' Hr).
  exact (H task pid Hin Hp).
Qed.

Lemma default_id_stored (projects : list Project) (pid : string) :
  option_map project_id (find isDefault projects) = Some pid ->
  existsb (fun p => String.eqb (project_id p) pid) projects = true.
Proof.
  destruct (find isDefault projects) as [d |] eqn:Hd; cbn; [| discriminate].
  intros H. inversion H; subst pid. apply default_exists. exact Hd.
Qed.

Lemma addTask_project_stored (input : CreateTaskInput) (w : World) :
  wp (TaskStorageService.addTask input) w
     (fun task w' =>
        projects_read w w'
        /\ forall pid, task_projectId task = Some pid ->
             existsb (fun p => String.eqb (project_id p) pid)
                     (todoapp_projects w') = true).
Proof.
  unfold TaskStorageService.addTask.
  wp_step newDate_post. intros now w0 [_ ->].
  apply wp_bind.
  apply wp_mono with
    (P := fun projectId w1 =>
            projects_read w w1
            /\ ((projectId = in_projectId input /\ w1 = tick w
                 /\ truthy projectId = true)
                \/ (todoapp_projects w1 <> []
                    /\ projectId = option_map project_id
                                     (find isDefault (todoapp_projects w1))))).
  { destruct (truthy (in_projectId input)) eqn:Ht; cbn [negb].
    - apply wp_ret. split; [left; reflexivity | left; auto].
    - wp_step getDefaultProject_post. intros d w1 [-> Hs]. apply wp_ret.
      split; [exact (settles_projects_read _ _ Hs) |].
      right. split; [apply Hs | reflexivity]. }
  intros projectId w1 (Hr1 & Hcase).
  apply wp_bind.
  apply wp_mono with
    (P := fun projectId w2 =>
            projects_read w w2
            /\ forall pid, projectId = Some pid ->
                 existsb (fun p => String.eqb (project_id p) pid)
                         (todoapp_projects w2) = true).
  { destruct Hcase as [(-> & -> & Ht) | (Hne & ->)].
    - destruct (in_projectId input) as [pid |]; [| discriminate Ht].
      cbn in Ht. rewrite Ht.
      + wp_step projectExists_post. intros ex w2 [-> Hs].
        pose proof (settles_projects_read _ _ Hs) as Hr2.
        destruct Hs as (Hne & _).
        destruct (existsb _ (todoapp_projects w2)) eqn:Hex; cbn [negb].
        * apply wp_ret. split; [exact Hr2 |]. intros q Hq.
          inversion Hq; subst q. exact Hex.
        * unfold wp, bind. rewrite (getDefaultProject_stored w2 Hne).
          cbn [fst snd ret]. split; [exact Hr2 |].
          intros q Hq. apply default_id_stored. exact Hq.
    - assert (Hkeep :
        wp (ret (option_map project_id (find isDefault (todoapp_projects w1))))
           w1
           (fun projectId w2 =>
              projects_read w w2
              /\ forall pid, projectId = Some pid ->
                   existsb (fun p => String.eqb (project_id p) pid)
                           (todoapp_projects w2) = true)).
      { apply wp_ret. split; [exact Hr1 |]. intros q Hq.
        apply default_id_stored. exact Hq. }
      destruct (find isDefault (todoapp_projects w1)) as [d |] eqn:Hd;
        cbn [option_map] in *; [| exact Hkeep].
      destruct (truthy_string (project_id d)); [| exact Hkeep].
      unfold wp, bind. rewrite (projectExists_stored _ w1 Hne).
      rewrite (default_exists _ _ Hd). exact Hkeep. }
  intros projectId2 w2 (Hr2 & Hp2).
  wp_step generateId_post. intros id w3 [Hts3 Hps3].
  unfold wp. cbn. unfold projects_read in *. cbn. rewrite Hps3.
  split; [exact Hr2 | exact Hp2].
Qed.

End References.

Section ReferencesKept.
Context {env : Environment}.

Lemma In_array_set {A} (l : list A) (i : nat) (x y : A) :
  In y (array_set l i x) -> y = x \/ In y l.
Proof.
  revert i. induction l as [| z l IH]; intros [| i]; cbn; try tauto.
  - intros [H | H]; auto.
  - intros [H | H]; auto. destruct (IH _ H); auto.
Qed.

Lemma moved_references (sel : Task -> bool) (target : string) (first last : nat)
    (tasks tasks' : list Task) (projects : list Project) :
  Forall2 (moved_by sel target first last) tasks tasks' ->
  existsb (fun p => String.eqb (project_id p) target) projects = true ->
  references_stored tasks projects ->
  references_stored tasks' projects.
Proof.
  intros Hall Hex. induction Hall as [| t t' ts ts' Hm Hall IH]; intros H.
  - exact H.
  - intros task pid [<- | Hin] Hp.
    + unfold moved_by in Hm. destruct (sel t).
      * destruct Hm as (n & _ & ->). cbn in Hp. inversion Hp; subst pid.
        exact Hex.
      * subst t'. apply (H t pid); [left; reflexivity | exact Hp].
    + apply IH with (task := task); auto.
      intros t0 p0 Hin0. apply H. right. exact Hin0.
Qed.

Lemma updateTask_references (taskId : string) (updates : TaskUpdates)
    (w : World) :
  upd_projectId updates <> Some (Some "") ->
  references_stored (todoapp_tasks w) (todoapp_projects w) ->
  wp (TaskStorageService.updateTask taskId updates) w
     (fun _ w' => references_stored (todoapp_tasks w') (todoapp_projects w')).
Proof.
  intros Hupd H.
  destruct (find (hasId taskId) (todoapp_tasks w)) as [task |] eqn:Hf.
  - destruct (find_findIndex _ _ _ Hf) as (i & Hi & Hn).
    eapply wp_mono; [apply (updateTask_post taskId updates w i task Hi Hn) |].
    cbv beta zeta. intros r w' (n & _ & Hts & Hr & _).
    rewrite Hts. intros t pid Hin Hp.
    destruct (In_array_set _ _ _ _ Hin) as [-> | Hold].
    + cbn [spread task_projectId] in Hp. unfold validated in Hp.
      destruct (upd_projectId updates) as [[q |] |] eqn:Hu.
      * destruct (truthy_string q) eqn:Hq; cbn [andb] in Hp.
        -- destruct (existsb _ (todoapp_projects w')) eqn:Hex; cbn [negb] in Hp.
           ++ rewrite Hu in Hp. cbn in Hp. inversion Hp; subst pid. exact Hex.
           ++ cbn in Hp. apply default_id_stored. exact Hp.
        -- unfold truthy_string in Hq.
           apply negb_false_iff, String.eqb_eq in Hq. subst q. congruence.
      * rewrite Hu in Hp. cbn in Hp. discriminate.
      * rewrite Hu in Hp. cbn in Hp.
        apply (existsb_read pid w w' Hr).
        apply (H task pid); [| exact Hp].
        eapply nth_error_In. exact Hn.
    + apply (existsb_read pid w w' Hr). exact (H t pid Hold Hp).
  - unfold wp. rewrite (updateTask_unknown taskId updates w Hf). exact H.
Qed.

End ReferencesKept.

(** X26.  No dangling reference.  If every stored task that names a
    project names a stored one, this is still so after [addTask] of any
    input, after [updateTask] with updates other than the empty
    [projectId], after [toggleTask], [deleteTask], [clearCompletedTasks]
    and after [moveTasksToProject] of any ids to any target. *)
Theorem references_stay_stored {env : Environment} (w : World) :
  references_stored (todoapp_tasks w) (todoapp_projects w) ->
  let kept (w' : World) :=
    references_stored (todoapp_tasks w') (todoapp_projects w') in
  (forall input, kept (snd (TaskStorageService.addTask input w)))
  /\ (forall taskId updates,
        upd_projectId updates <> Some (Some "") ->
        kept (snd (TaskStorageService.updateTask taskId updates w)))
  /\ (forall taskId, kept (snd (TaskStorageService.toggleTask taskId w)))
  /\ (forall taskId, kept (snd (TaskStorageService.deleteTask taskId w)))
  /\ kept (snd (TaskStorageService.clearCompletedTasks w))
  /\ (forall taskIds target,
        kept (snd (TaskStorageService.moveTasksToProject taskIds target w))).
Proof.
  intros H kept. unfold kept.
  split; [| split; [| split; [| split; [| split]]]].
  - intros input.
    pose proof (addTask_post input w) as Hpost.
    pose proof (addTask_project_stored input w) as Hproj.
    unfold wp in Hpost, Hproj.
    destruct (TaskStorageService.addTask input w) as [task w'].
    cbn [fst snd] in *. destruct Hpost as (Hts & _). destruct Hproj as (Hr & Hp).
    rewrite Hts. intros t pid Hin Hpid. apply in_app_or in Hin.
    destruct Hin as [Hin | [<- | []]].
    + apply (existsb_read pid w w' Hr). exact (H t pid Hin Hpid).
    + apply Hp. exact Hpid.
  - intros taskId updates Hupd.
    exact (updateTask_references taskId updates w Hupd H).
  - intros taskId. unfold TaskStorageService.toggleTask, bind.
    cbn [TaskStorageService.getTasks fst snd].
    destruct (find _ (todoapp_tasks w)) as [task |]; [| exact H].
    apply (updateTask_references taskId _ w); [discriminate | exact H].
  - intros taskId. unfold TaskStorageService.deleteTask, bind.
    cbn [TaskStorageService.getTasks fst snd].
    destruct (_ =? _); [exact H |]. cbn.
    intros t pid Hin. apply filter_In in Hin. apply H. apply Hin.
  - unfold TaskStorageService.clearCompletedTasks, bind.
    cbn. intros t pid Hin. apply filter_In in Hin. apply H. apply Hin.
  - intros taskIds target.
    change (wp (TaskStorageService.moveTasksToProject taskIds target) w
               (fun _ w' => references_stored (todoapp_tasks w')
                                              (todoapp_projects w'))).
    unfold TaskStorageService.moveTasksToProject.
    wp_step projectExists_post. intros ex w1 [-> Hs].
    pose proof (references_read _ w w1 (settles_projects_read _ _ Hs) H) as H1.
    destruct Hs as (_ & Hts1 & _). rewrite <- Hts1 in H1.
    destruct (existsb _ (todoapp_projects w1)) eqn:Hex; cbn [negb];
      [| apply wp_ret; exact H1].
    apply wp_bind. unfold wp at 1. cbn [TaskStorageService.getTasks fst snd].
    wp_step (moveM_post (fun task => existsb (String.eqb (task_id task)) taskIds)
                        target (todoapp_tasks w1) w1).
    intros tasks' w2 (Hall & Hts & Hps & _).
    destruct (existsb _ (todoapp_tasks w1)).
    + unfold wp. cbn. rewrite Hps.
      eapply moved_references; [exact Hall | exact Hex | exact H1].
    + apply wp_ret. rewrite Hts, Hps. exact H1.
Qed.

Lemma references_stay_stored_witness :
  let w := sample_world
             [sample_task "t1" "Write report" TODO HIGH
                          (Some "1690000000001-work00001") None]
             [personal; work] in
  let w' := snd (@TaskStorageService.moveTasksToProject sample_env
                   ["t1"] "1690000000000-personal1" w) in
  references_stored (todoapp_tasks w) (todoapp_projects w)
  /\ references_stored (todoapp_tasks w') (todoapp_projects w').
Proof.
  intros w w'.
  assert (H : references_stored (todoapp_tasks w) (todoapp_projects w)).
  { intros t pid [<- | []] Hp. inversion Hp. reflexivity. }
  split; [exact H |].
  apply (@references_stay_stored sample_env w H).
Defined.

(** ** The tasks of a deleted project *)

Section DeletedProject.
Context {env : Environment}.

Lemma count_cons {A} (p : A -> bool) (x : A) (l : list A) :
  count p (x :: l) = (if p x then 1 else 0) + count p l.
Proof.
  unfold count. cbn [filter]. destruct (p x); cbn [List.length]; lia.
Qed.

Lemma count_filter {A} (p q : A -> bool) (l : list A) :
  count p (filter q l) = count (fun x => q x && p x) l.
Proof.
  induction l as [| x l IH]; [reflexivity |].
  cbn [filter]. rewrite count_cons. destruct (q x); cbn [andb].
  - rewrite count_cons, IH. reflexivity.
  - rewrite IH. lia.
Qed.

Lemma length_count {A} (l : list A) :
  Z.of_nat (List.length l) = count (fun _ => true) l.
Proof.
  unfold count. induction l as [| x l IH]; [reflexivity |].
  cbn [filter List.length]. lia.
Qed.

(** How the tasks of a project that satisfy [f] are counted after the
    tasks of [pid] have been reassigned to [target]. *)
Lemma reassigned_counts (f : Task -> bool) (pid target : string)
    (first last : nat) (tasks tasks' : list Task) :
  (forall task q now, f (move_task task q now) = f task) ->
  target <> pid ->
  Forall2 (reassigned pid target first last) tasks tasks' ->
  let inProject q tasks :=
    count (fun task => strict_eq (task_projectId task) q && f task) tasks in
  inProject pid tasks' = 0
  /\ inProject target tasks' = inProject target tasks + inProject pid tasks
  /\ forall q, q <> pid -> q <> target ->
       inProject q tasks' = inProject q tasks.
Proof.
  intros Hf Hneq Hall inProject. unfold inProject.
  induction Hall as [| t t' ts ts' Hm Hall (IH0 & IH1 & IH2)].
  - repeat split; reflexivity.
  - unfold reassigned in Hm. rewrite !count_cons.
    destruct (strict_eq (task_projectId t) pid) eqn:Hp.
    + destruct Hm as (n & _ & ->). rewrite Hf.
      cbn [move_task task_projectId strict_eq].
      rewrite String.eqb_refl.
      assert (Htp : String.eqb target pid = false)
        by (apply String.eqb_neq; exact Hneq).
      rewrite Htp. cbn [andb].
      assert (Ht : strict_eq (task_projectId t) target = false).
      { destruct (task_projectId t) as [x |]; [| reflexivity]. cbn in *.
        apply String.eqb_eq in Hp. subst x. rewrite String.eqb_sym. exact Htp. }
      rewrite Ht. cbn [andb].
      split; [lia |]. split; [lia |].
      intros q Hq1 Hq2. rewrite !count_cons, Hf.
      cbn [move_task task_projectId strict_eq].
      assert (Hq : String.eqb target q = false)
        by (apply String.eqb_neq; congruence).
      rewrite Hq. cbn [andb].
      assert (Htq : strict_eq (task_projectId t) q = false).
      { destruct (task_projectId t) as [x |]; [| reflexivity]. cbn in *.
        apply String.eqb_eq in Hp. subst x. apply String.eqb_neq. congruence. }
      rewrite Htq. cbn [andb]. rewrite (IH2 q Hq1 Hq2). reflexivity.
    + subst t'. rewrite Hp. cbn [andb].
      split; [lia |]. split; [lia |].
      intros q Hq1 Hq2. rewrite !count_cons, (IH2 q Hq1 Hq2). reflexivity.
Qed.

End DeletedProject.

(** X27.  After the hook's [deleteProject] of a stored, non-default
    project, no task is counted for the deleted project any more, the
    default project has gained exactly its tasks, and every other project
    keeps its numbers: [getTaskStatsByProject] gives total, completed,
    pending and high-priority counts of zero for the deleted id, the sums of
    the two earlier counts for the default project, and the earlier counts
    for every other id.  The total number of tasks is unchanged. *)
Theorem deleteProject_moves_counts {env : Environment} (pid : string)
    (w : World) (project d : Project) :
  find (fun p => String.eqb (project_id p) pid) (todoapp_projects w)
  = Some project ->
  isDefault project = false ->
  find isDefault (todoapp_projects w) = Some d ->
  project_id d <> pid ->
  let w' := snd (useProjects.deleteProject pid w) in
  let stats q w := fst (TaskStorageService.getTaskStatsByProject q w) in
  List.length (todoapp_tasks w') = List.length (todoapp_tasks w)
  /\ (forall field,
        In field [total; completed; pending; highPriority] ->
        field (stats pid w') = 0
        /\ field (stats (project_id d) w')
           = field (stats (project_id d) w) + field (stats pid w)
        /\ forall q, q <> pid -> q <> project_id d ->
             field (stats q w') = field (stats q w)).
Proof.
  intros Hp Hnd Hd Hneq w' stats.
  pose proof (deleteProject_reassigns pid w project d Hp Hnd Hd Hneq) as H.
  unfold w'. destruct (useProjects.deleteProject pid w) as [deleted w1].
  cbn [snd]. destruct H as (_ & _ & Hall & _).
  split; [symmetry; eapply Forall2_length; exact Hall |].
  assert (Hcount : forall f,
    (forall task q now, f (move_task task q now) = f task) ->
    let inProject q w :=
      count f (filter (fun task => strict_eq (task_projectId task) q)
                      (todoapp_tasks w)) in
    inProject pid w1 = 0
    /\ inProject (project_id d) w1
       = inProject (project_id d) w + inProject pid w
    /\ forall q, q <> pid -> q <> project_id d ->
         inProject q w1 = inProject q w).
  { intros f Hf inProject. unfold inProject. rewrite !count_filter.
    destruct (reassigned_counts f pid (project_id d) _ _ _ _ Hf Hneq Hall)
      as (H0 & H1 & H2).
    split; [exact H0 |]. split; [exact H1 |].
    intros q Hq1 Hq2. rewrite !count_filter. apply H2; assumption. }
  intros field Hfield. unfold stats, TaskStorageService.getTaskStatsByProject,
    TaskStorageService.getTasksByProject, bind, ret.
  cbn [TaskStorageService.getTasks newDate fst snd].
  destruct Hfield as [<- | [<- | [<- | [<- | []]]]];
    cbn [total completed pending highPriority fst].
  - destruct (Hcount (fun _ => true) (fun _ _ _ => eq_refl)) as (H0 & H1 & H2).
    rewrite !length_count. split; [exact H0 |]. split; [exact H1 |].
    intros q Hq1 Hq2. rewrite !length_count. apply H2; assumption.
  - apply (Hcount (fun task => task_completed task)). reflexivity.
  - apply (Hcount (fun task => negb (task_completed task))). reflexivity.
  - apply (Hcount (fun task => TaskPriority_eqb (task_priority task) HIGH
                               && negb (task_completed task))). reflexivity.
Qed.

Lemma deleteProject_moves_counts_witness :
  let w := sample_world
             [sample_task "t1" "Write report" TODO HIGH
                          (Some "1690000000001-work00001") None;
              sample_task "t2" "Water plants" COMPLETED LOW
                          (Some "1690000000000-personal1") None]
             [personal; work] in
  let w' := snd (@useProjects.deleteProject sample_env
                   "1690000000001-work00001" w) in
  let stats q w := fst (@TaskStorageService.getTaskStatsByProject sample_env q w) in
  total (stats "1690000000001-work00001" w') = 0
  /\ total (stats "1690000000000-personal1" w')
     = total (stats "1690000000000-personal1" w)
       + total (stats "1690000000001-work00001" w).
Proof.
  intros w w' stats.
  assert (Hneq : project_id personal <> "1690000000001-work00001")
    by discriminate.
  destruct (@deleteProject_moves_counts sample_env "1690000000001-work00001"
              w work personal eq_refl eq_refl eq_refl Hneq) as [_ Hfield].
  destruct (Hfield total (or_introl eq_refl)) as (H0 & H1 & _).
  split; [exact H0 | exact H1].
Defined.

Lemma getProjects_never_empty_witness :
  let w := sample_world [draft] [] in
  exists d, fst (@ProjectStorageService.getProjects sample_env w) = [d]
            /\ isDefault d = true.
Proof.
  intros w. pose proof (@getProjects_never_empty sample_env w) as H.
  destruct (@ProjectStorageService.getProjects sample_env w) as [ps w'].
  destruct H as (_ & _ & _ & _ & _ & Hfresh).
  destruct (Hfresh eq_refl) as (d & Hd & Hdef & _).
  exists d. split; assumption.
Defined.

Lemma importProjects_has_default_witness :
  let w := sample_world [draft] [personal] in
  let w' := snd (@ProjectStorageService.importProjects sample_env [work] w) in
  exists d, todoapp_projects w' = [d; work] /\ isDefault d = true.
Proof.
  intros w w'. unfold w'.
  pose proof (@importProjects_has_default sample_env [work] w) as H.
  destruct (@ProjectStorageService.importProjects sample_env [work] w)
    as [imported w1].
  destruct H as (_ & _ & _ & Hnew & _).
  destruct (Hnew eq_refl) as (d & Hd & Hdef & _).
  exists d. split; assumption.
Defined.

Lemma addProject_appends_witness :
  let w := sample_world [draft] [personal] in
  let input := mkCreateProjectInput "Garden" None None in
  let result := @ProjectStorageService.addProject sample_env input w in
  todoapp_projects (snd result) = [personal; fst result]
  /\ project_color (fst result) = BLUE.
Proof.
  intros w input result. unfold result.
  pose proof (@addProject_appends sample_env input w) as H.
  destruct (@ProjectStorageService.addProject sample_env input w) as [p w'].
  destruct H as (read & Hps & Hsame & _ & _ & _ & Hcolor & _).
  cbn [fst snd]. split; [| exact Hcolor].
  rewrite Hps, Hsame; [reflexivity | discriminate].
Defined.
